(** * Traffic-controler: the simulation engine, embedded and verified

    A shallow embedding of the Python simulation core (enums.py, car.py,
    road.py, traffic_light.py, intersection.py, simulation.py).

    Conventions of the embedding.
    - Python objects that are shared between containers (cars, roads) live in
      an object store, a finite map from references to values; a container
      holds references, and [car in self.cars] is comparison of references
      (the classes define no [__eq__]).  Objects owned by exactly one parent
      (lanes of a road, lights of a controller, the controller of an
      intersection, the intersections of the engine) are embedded by value.
    - A [dict] whose iteration order is observable (roads, intersections,
      lanes) is an insertion-ordered association list; a [dict] only read by
      key (lights, connected roads) is a [gmap]; a [set] of cells is a [gset].
    - Python integers are [Z].
    - A Python exception ([KeyError], [IndexError], [ZeroDivisionError]) is
      the result [None]. *)

From Stdlib Require Import ZArith Lia.
From stdpp Require Import base decidable countable option list gmap strings pretty fin_maps sorting.

Open Scope Z_scope.

(** ** enums.py *)

Inductive Direction := NORTH | SOUTH | EAST | WEST.
Inductive Movement := STRAIGHT | LEFT | RIGHT.
Inductive TrafficLightState := RED | YELLOW | GREEN | GREEN_ARROW.

#[global] Instance Direction_eq_dec : EqDecision Direction.
Proof. solve_decision. Defined.
#[global] Instance Movement_eq_dec : EqDecision Movement.
Proof. solve_decision. Defined.
#[global] Instance TrafficLightState_eq_dec : EqDecision TrafficLightState.
Proof. solve_decision. Defined.

Definition Direction_code (d : Direction) : nat :=
  match d with NORTH => 0 | SOUTH => 1 | EAST => 2 | WEST => 3 end%nat.

Definition Direction_of_code (n : nat) : option Direction :=
  match n with
  | 0 => Some NORTH | 1 => Some SOUTH | 2 => Some EAST | 3 => Some WEST
  | _ => None
  end%nat.

#[global] Instance Direction_countable : Countable Direction.
Proof.
  apply (inj_countable Direction_code Direction_of_code).
  by intros [].
Defined.

(** [direction.value] *)
Definition Direction_value (d : Direction) : string :=
  match d with
  | NORTH => "north" | SOUTH => "south" | EAST => "east" | WEST => "west"
  end.

(** The order of [for direction in Direction]. *)
Definition Direction_members : list Direction := [NORTH; SOUTH; EAST; WEST].

(** A grid cell [(row, column)]. *)
Abbreviation Pos := (Z * Z)%type.

(** References into the object store. *)
Abbreviation CarRef := nat (only parsing).
Abbreviation RoadRef := nat (only parsing).

(** ** Python helpers *)

(** [range(lo, hi)] *)
Definition py_range (lo hi : Z) : list Z :=
  map (λ i : nat, lo + Z.of_nat i) (seq 0 (Z.to_nat (hi - lo))).

(** [list.remove(x)] on a list known to hold [x]: drops the first
    occurrence only. *)
Fixpoint py_list_remove {A} `{EqDecision A} (x : A) (l : list A) : list A :=
  match l with
  | [] => []
  | y :: l' => if decide (x = y) then l' else y :: py_list_remove x l'
  end.

(** [x in l] *)
Definition py_in {A} `{EqDecision A} (x : A) (l : list A) : bool :=
  bool_decide (x ∈ l).

(** [l[i]] with Python's negative indices; [None] is [IndexError]. *)
Definition py_index {A} (l : list A) (i : Z) : option A :=
  if bool_decide (0 ≤ i) then l !! Z.to_nat i
  else if bool_decide (0 ≤ Z.of_nat (length l) + i)
       then l !! Z.to_nat (Z.of_nat (length l) + i)
       else None.

(** A loop [for x in l: r = f(x); if r: return r] followed by [return None],
    for results that are objects (always truthy). *)
Fixpoint py_first_some {A B} (f : A → option B) (l : list A) : option B :=
  match l with
  | [] => None
  | x :: l' => match f x with Some r => Some r | None => py_first_some f l' end
  end.

(** Insertion-ordered dictionaries. *)
Module Dict.
Section dict.
Context {K V : Type} `{EqDecision K}.

Fixpoint get (k : K) (d : list (K * V)) : option V :=
  match d with
  | [] => None
  | (k', v) :: d' => if decide (k = k') then Some v else get k d'
  end.

(** [d[k] = v]: an existing key keeps its place, a new key goes last. *)
Fixpoint set (k : K) (v : V) (d : list (K * V)) : list (K * V) :=
  match d with
  | [] => [(k, v)]
  | (k', v') :: d' =>
      if decide (k = k') then (k, v) :: d' else (k', v') :: set k v d'
  end.

(** [del d[k]] for a key that is present. *)
Fixpoint del (k : K) (d : list (K * V)) : list (K * V) :=
  match d with
  | [] => []
  | (k', v') :: d' =>
      if decide (k = k') then d' else (k', v') :: del k d'
  end.

(** [k in d] *)
Definition mem (k : K) (d : list (K * V)) : bool :=
  match get k d with Some _ => true | None => false end.

(** [d.values()] *)
Definition values (d : list (K * V)) : list V := map snd d.

(** [d.get(k, default)] *)
Definition get_default (k : K) (dflt : V) (d : list (K * V)) : V :=
  match get k d with Some v => v | None => dflt end.
End dict.
End Dict.

(** ** car.py *)

Module Car.
(** [target_position] is never read or written after construction and is
    left out. *)
Record t := mk {
  car_id : string;
  position : Pos;
  direction : Direction;
  intended_movement : Movement;
  lane : Z;
  max_speed : Z;
  wait_time : Z
}.

Definition init (car_id : string) (position : Pos) (direction : Direction)
    (intended_movement : Movement) (lane max_speed : Z) : t :=
  mk car_id position direction intended_movement lane max_speed 0.

Definition get_next_position (self : t) (distance : Z) : Pos :=
  let '(row, col) := position self in
  match direction self with
  | NORTH => (row - distance, col)
  | SOUTH => (row + distance, col)
  | EAST => (row, col + distance)
  | WEST => (row, col - distance)
  end.

Definition move_to (new_position : Pos) (self : t) : t :=
  mk (car_id self) new_position (direction self) (intended_movement self)
     (lane self) (max_speed self) 0.

Definition increment_wait_time (self : t) : t :=
  mk (car_id self) (position self) (direction self) (intended_movement self)
     (lane self) (max_speed self) (wait_time self + 1).

Definition turn (new_direction : Direction) (self : t) : t :=
  mk (car_id self) (position self) new_direction (intended_movement self)
     (lane self) (max_speed self) (wait_time self).

(** [car.lane = lane_num], the assignment in [Road.add_car]. *)
Definition set_lane (lane_num : Z) (self : t) : t :=
  mk (car_id self) (position self) (direction self) (intended_movement self)
     lane_num (max_speed self) (wait_time self).
End Car.

#[global] Instance Car_inhabited : Inhabited Car.t :=
  populate (Car.init EmptyString (0, 0) NORTH STRAIGHT 0 2).

(** The store of car objects, and a method call that mutates the object
    behind a reference. *)
Abbreviation CarHeap := (gmap nat Car.t).

Definition car_call (f : Car.t → Car.t) (car : CarRef) (h : CarHeap) : CarHeap :=
  <[car := f (h !!! car)]> h.

(** ** road.py *)

Module Lane.
Record t := mk {
  lane_id : string;
  direction : Direction;
  positions : gset Pos;
  cars : list CarRef;
  max_cars : Z
}.

Definition init (lane_id : string) (direction : Direction)
    (positions : gset Pos) : t :=
  mk lane_id direction positions [] (Z.of_nat (size positions)).

Definition set_cars (cars' : list CarRef) (self : t) : t :=
  mk (lane_id self) (direction self) (positions self) cars' (max_cars self).

Definition add_car (h : CarHeap) (self : t) (car : CarRef) : bool * t :=
  if bool_decide (Z.of_nat (length (cars self)) < max_cars self)
     && bool_decide (Car.position (h !!! car) ∈ positions self)
  then (true, set_cars (cars self ++ [car]) self)
  else (false, self).

Definition remove_car (self : t) (car : CarRef) : bool * t :=
  if py_in car (cars self)
  then (true, set_cars (py_list_remove car (cars self)) self)
  else (false, self).

Definition get_car_at_position (h : CarHeap) (self : t) (position : Pos)
    : option CarRef :=
  List.find (λ car, bool_decide (Car.position (h !!! car) = position))
            (cars self).

Definition is_position_free (h : CarHeap) (self : t) (position : Pos) : bool :=
  bool_decide (position ∈ positions self)
  && bool_decide (get_car_at_position h self position = None).
End Lane.

Module Road.
Record t := mk {
  road_id : string;
  start_pos : Pos;
  end_pos : Pos;
  direction : Direction;
  num_lanes : Z;
  lanes : list (Z * Lane.t)
}.

Definition set_lanes (lanes' : list (Z * Lane.t)) (self : t) : t :=
  mk (road_id self) (start_pos self) (end_pos self) (direction self)
     (num_lanes self) lanes'.

(** [self.direction in [Direction.NORTH, Direction.SOUTH]] *)
Definition vertical (d : Direction) : bool :=
  match d with NORTH | SOUTH => true | EAST | WEST => false end.

Definition _get_road_positions (start_pos end_pos : Pos)
    (direction : Direction) (num_lanes : Z) : list Pos :=
  let '(start_row, start_col) := start_pos in
  let '(end_row, end_col) := end_pos in
  if vertical direction then
    let min_row := Z.min start_row end_row in
    let max_row := Z.max start_row end_row in
    row ← py_range min_row (max_row + 1);
    lane_offset ← py_range 0 num_lanes;
    [(row, start_col + lane_offset)]
  else
    let min_col := Z.min start_col end_col in
    let max_col := Z.max start_col end_col in
    col ← py_range min_col (max_col + 1);
    lane_offset ← py_range 0 num_lanes;
    [(start_row + lane_offset, col)].

Definition _get_lane_positions (start_pos : Pos) (direction : Direction)
    (lane_num : Z) (all_positions : list Pos) : gset Pos :=
  if vertical direction then
    list_to_set
      (filter (λ p : Pos, p.2 = start_pos.2 + lane_num) all_positions)
  else
    list_to_set
      (filter (λ p : Pos, p.1 = start_pos.1 + lane_num) all_positions).

Definition _create_lanes (road_id : string) (start_pos end_pos : Pos)
    (direction : Direction) (num_lanes : Z) : list (Z * Lane.t) :=
  let positions := _get_road_positions start_pos end_pos direction num_lanes in
  foldl (λ lanes lane_num,
           let lane_positions :=
             _get_lane_positions start_pos direction lane_num positions in
           let lane_id := road_id +:+ "_lane_" +:+ pretty lane_num in
           Dict.set lane_num (Lane.init lane_id direction lane_positions) lanes)
        [] (py_range 0 num_lanes).

Definition init (road_id : string) (start_pos end_pos : Pos)
    (direction : Direction) (num_lanes : Z) : t :=
  mk road_id start_pos end_pos direction num_lanes
     (_create_lanes road_id start_pos end_pos direction num_lanes).

(** Returns the result, the road after the call and the car store after
    the call ([car.lane] is assigned on success). *)
Definition add_car (h : CarHeap) (self : t) (car : CarRef) (lane_num : Z)
    : bool * t * CarHeap :=
  match Dict.get lane_num (lanes self) with
  | Some lane =>
      let '(success, lane') := Lane.add_car h lane car in
      let self' := set_lanes (Dict.set lane_num lane' (lanes self)) self in
      let h' := if success then car_call (Car.set_lane lane_num) car h else h in
      (success, self', h')
  | None => (false, self, h)
  end.

(** The loop of [remove_car] over [self.lanes.values()]: it stops at the
    first lane that held the car. *)
Fixpoint remove_car_lanes (ls : list (Z * Lane.t)) (car : CarRef)
    : bool * list (Z * Lane.t) :=
  match ls with
  | [] => (false, [])
  | (k, lane) :: ls' =>
      let '(removed, lane') := Lane.remove_car lane car in
      if removed then (true, (k, lane') :: ls')
      else let '(b, ls'') := remove_car_lanes ls' car in (b, (k, lane') :: ls'')
  end.

Definition remove_car (self : t) (car : CarRef) : bool * t :=
  let '(b, lanes') := remove_car_lanes (lanes self) car in
  (b, set_lanes lanes' self).

Definition get_all_cars (self : t) : list CarRef :=
  l ← Dict.values (lanes self); Lane.cars l.

Definition is_position_free (h : CarHeap) (self : t) (position : Pos)
    (lane_num : option Z) : bool :=
  match lane_num with
  | Some n =>
      match Dict.get n (lanes self) with
      | Some lane => Lane.is_position_free h lane position
      | None => false
      end
  | None =>
      match List.find (λ lane, bool_decide (position ∈ Lane.positions lane))
                      (Dict.values (lanes self)) with
      | Some lane => Lane.is_position_free h lane position
      | None => false
      end
  end.

Definition get_car_at_position (h : CarHeap) (self : t) (position : Pos)
    : option CarRef :=
  py_first_some (λ lane, Lane.get_car_at_position h lane position)
                (Dict.values (lanes self)).
End Road.

#[global] Instance Road_inhabited : Inhabited Road.t :=
  populate (Road.mk EmptyString (0, 0) (0, 0) NORTH 0 []).

Abbreviation RoadHeap := (gmap nat Road.t).

(** ** traffic_light.py *)

Module TrafficLight.
Record t := mk {
  light_id : string;
  direction : Direction;
  state : TrafficLightState;
  timer : Z
}.

Definition init (light_id : string) (direction : Direction)
    (initial_state : TrafficLightState) : t :=
  mk light_id direction initial_state 0.

Definition set_state (new_state : TrafficLightState) (duration : Z)
    (self : t) : t :=
  mk (light_id self) (direction self) new_state duration.

Definition update (self : t) : t :=
  if bool_decide (timer self > 0)
  then mk (light_id self) (direction self) (state self) (timer self - 1)
  else self.

Definition can_go_straight (self : t) : bool :=
  match state self with
  | GREEN | GREEN_ARROW => true
  | RED | YELLOW => false
  end.

Definition can_turn_left (self : t) : bool :=
  bool_decide (state self = GREEN_ARROW).

Definition can_turn_right (self : t) : bool :=
  negb (bool_decide (state self = RED)).
End TrafficLight.

Module TrafficLightController.
Record t := mk {
  intersection_id : string;
  lights : gmap Direction TrafficLight.t;
  cycle_position : Z;
  cycle_timer : Z;
  default_cycle : list (Direction * Direction);
  cycle_duration : Z
}.

Definition init (intersection_id : string) : t :=
  mk intersection_id ∅ 0 0 [(NORTH, SOUTH); (EAST, WEST)] 30.

Definition set_lights (lights' : gmap Direction TrafficLight.t) (self : t) : t :=
  mk (intersection_id self) lights' (cycle_position self) (cycle_timer self)
     (default_cycle self) (cycle_duration self).

Definition add_light (direction : Direction) (self : t) : t :=
  let light_id := intersection_id self +:+ "_" +:+ Direction_value direction in
  let light := TrafficLight.init light_id direction RED in
  set_lights (<[direction := light]> (lights self)) self.

(** [if direction in lights: lights[direction].set_state(state)], on the
    dictionary of lights. *)
Definition set_in (direction : Direction) (state : TrafficLightState)
    (lights : gmap Direction TrafficLight.t) : gmap Direction TrafficLight.t :=
  match lights !! direction with
  | Some light => <[direction := TrafficLight.set_state state 0 light]> lights
  | None => lights
  end.

Definition set_light_state (direction : Direction)
    (state : TrafficLightState) (self : t) : t :=
  set_lights (set_in direction state (lights self)) self.

(** [None] when [default_cycle] is empty ([ZeroDivisionError]) or the cycle
    position is not an index of it ([IndexError]). *)
Definition update_automatic_cycle (self : t) : option t :=
  let cycle_timer1 := cycle_timer self + 1 in
  '(cycle_timer2, cycle_position2) ←
    (if bool_decide (cycle_timer1 >= cycle_duration self) then
       let n := Z.of_nat (length (default_cycle self)) in
       if bool_decide (n = 0) then None
       else Some (0, (cycle_position self + 1) `mod` n)
     else Some (cycle_timer1, cycle_position self));
  let lights1 := TrafficLight.set_state RED 0 <$> lights self in
  green_directions ← py_index (default_cycle self) cycle_position2;
  let lights2 :=
    foldl (λ ls direction, set_in direction GREEN ls) lights1
          [green_directions.1; green_directions.2] in
  Some (mk (intersection_id self) lights2 cycle_position2 cycle_timer2
           (default_cycle self) (cycle_duration self)).

Definition update (self : t) : t :=
  set_lights (TrafficLight.update <$> lights self) self.

Definition get_state_info (self : t) : gmap Direction TrafficLightState :=
  TrafficLight.state <$> lights self.
End TrafficLightController.

(** ** intersection.py *)

Module Intersection.
Record t := mk {
  intersection_id : string;
  center_position : Pos;
  size : Z;
  traffic_controller : TrafficLightController.t;
  connected_roads : gmap Direction RoadRef;
  intersection_positions : gset Pos;
  cars_in_intersection : list CarRef
}.

Definition set_traffic_controller (c : TrafficLightController.t) (self : t) : t :=
  mk (intersection_id self) (center_position self) (size self) c
     (connected_roads self) (intersection_positions self)
     (cars_in_intersection self).

Definition set_connected_roads (r : gmap Direction RoadRef) (self : t) : t :=
  mk (intersection_id self) (center_position self) (size self)
     (traffic_controller self) r (intersection_positions self)
     (cars_in_intersection self).

Definition set_cars_in_intersection (l : list CarRef) (self : t) : t :=
  mk (intersection_id self) (center_position self) (size self)
     (traffic_controller self) (connected_roads self)
     (intersection_positions self) l.

Definition _calculate_intersection_positions (center_position : Pos)
    (size : Z) : gset Pos :=
  let '(center_row, center_col) := center_position in
  let half_size := size `div` 2 in
  list_to_set
    (row ← py_range (center_row - half_size) (center_row + half_size + 1);
     col ← py_range (center_col - half_size) (center_col + half_size + 1);
     [(row, col)]).

Definition init (intersection_id : string) (center_position : Pos)
    (size : Z) : t :=
  mk intersection_id center_position size
     (foldl (λ c direction, TrafficLightController.add_light direction c)
            (TrafficLightController.init intersection_id) Direction_members)
     ∅
     (_calculate_intersection_positions center_position size)
     [].

Definition connect_road (road : RoadRef) (direction : Direction) (self : t) : t :=
  set_connected_roads (<[direction := road]> (connected_roads self)) self.

Definition _is_intersection_position_free (h : CarHeap) (self : t)
    (position : Pos) : bool :=
  if negb (bool_decide (position ∈ intersection_positions self)) then false
  else negb (existsb (λ car, bool_decide (Car.position (h !!! car) = position))
                     (cars_in_intersection self)).

(** The light the car is checked against, [None] being the [KeyError] of
    [lights[from_direction]]. *)
Definition light_for (self : t) (from_direction : Direction)
    : option TrafficLight.t :=
  TrafficLightController.lights (traffic_controller self) !! from_direction.

Definition can_car_enter (h : CarHeap) (self : t) (car : CarRef)
    (from_direction : Direction) : option bool :=
  light ← light_for self from_direction;
  let permitted :=
    match Car.intended_movement (h !!! car) with
    | STRAIGHT => TrafficLight.can_go_straight light
    | LEFT => TrafficLight.can_turn_left light
    | RIGHT => TrafficLight.can_turn_right light
    end in
  if negb permitted then Some false
  else
    let next_pos := Car.get_next_position (h !!! car) 1 in
    Some (_is_intersection_position_free h self next_pos).

Definition add_car_to_intersection (h : CarHeap) (self : t) (car : CarRef)
    : bool * t :=
  if bool_decide (Car.position (h !!! car) ∈ intersection_positions self)
     && negb (py_in car (cars_in_intersection self))
  then (true, set_cars_in_intersection (cars_in_intersection self ++ [car]) self)
  else (false, self).

Definition remove_car_from_intersection (self : t) (car : CarRef) : bool * t :=
  if py_in car (cars_in_intersection self)
  then (true, set_cars_in_intersection
                (py_list_remove car (cars_in_intersection self)) self)
  else (false, self).

Definition get_exit_direction (h : CarHeap) (car : CarRef)
    (entry_direction : Direction) : Direction :=
  match Car.intended_movement (h !!! car) with
  | STRAIGHT => entry_direction
  | RIGHT =>
      match entry_direction with
      | NORTH => EAST
      | EAST => SOUTH
      | SOUTH => WEST
      | WEST => NORTH
      end
  | LEFT =>
      match entry_direction with
      | NORTH => WEST
      | WEST => SOUTH
      | SOUTH => EAST
      | EAST => NORTH
      end
  end.

(** The result [None] is Python's [None]: the car stays inside. *)
Definition process_car_in_intersection (h : CarHeap) (self : t)
    (car : CarRef) (entry_direction : Direction) : option Direction :=
  let exit_direction := get_exit_direction h car entry_direction in
  let '(center_row, center_col) := center_position self in
  let '(row, col) := Car.position (h !!! car) in
  match exit_direction with
  | NORTH => if bool_decide (row ≤ center_row - 1) then Some exit_direction else None
  | SOUTH => if bool_decide (row >= center_row + 1) then Some exit_direction else None
  | EAST => if bool_decide (col >= center_col + 1) then Some exit_direction else None
  | WEST => if bool_decide (col ≤ center_col - 1) then Some exit_direction else None
  end.

Definition update (self : t) : t :=
  set_traffic_controller
    (TrafficLightController.update (traffic_controller self)) self.
End Intersection.

(** ** simulation.py *)

(** Truth value of an [Optional[str]]: [None] and the empty string are
    false. *)
Definition py_truthy (x : option string) : bool :=
  match x with
  | Some (String _ _) => true
  | Some EmptyString | None => false
  end.

Module TrafficSimulation.
(** The first two fields are the object store (the car and road objects
    that exist, by reference); the others are the attributes of the
    [TrafficSimulation] object. *)
Record t := mk {
  car_objs : CarHeap;
  road_objs : RoadHeap;
  grid_size : Z * Z;
  roads : list (string * RoadRef);
  intersections : list (string * Intersection.t);
  cars : list CarRef;
  tick_count : Z;
  max_car_speed : Z;
  car_entry_directions : gmap string Direction
}.

Definition init (grid_size : Z * Z) : t :=
  mk ∅ ∅ grid_size [] [] [] 0 2 ∅.

Definition set_car_objs (h : CarHeap) (s : t) : t :=
  mk h (road_objs s) (grid_size s) (roads s) (intersections s) (cars s)
     (tick_count s) (max_car_speed s) (car_entry_directions s).

Definition set_road_objs (h : RoadHeap) (s : t) : t :=
  mk (car_objs s) h (grid_size s) (roads s) (intersections s) (cars s)
     (tick_count s) (max_car_speed s) (car_entry_directions s).

Definition set_roads (r : list (string * RoadRef)) (s : t) : t :=
  mk (car_objs s) (road_objs s) (grid_size s) r (intersections s) (cars s)
     (tick_count s) (max_car_speed s) (car_entry_directions s).

Definition set_intersections (i : list (string * Intersection.t)) (s : t) : t :=
  mk (car_objs s) (road_objs s) (grid_size s) (roads s) i (cars s)
     (tick_count s) (max_car_speed s) (car_entry_directions s).

Definition set_cars (l : list CarRef) (s : t) : t :=
  mk (car_objs s) (road_objs s) (grid_size s) (roads s) (intersections s) l
     (tick_count s) (max_car_speed s) (car_entry_directions s).

Definition set_tick_count (n : Z) (s : t) : t :=
  mk (car_objs s) (road_objs s) (grid_size s) (roads s) (intersections s)
     (cars s) n (max_car_speed s) (car_entry_directions s).

Definition set_car_entry_directions (m : gmap string Direction) (s : t) : t :=
  mk (car_objs s) (road_objs s) (grid_size s) (roads s) (intersections s)
     (cars s) (tick_count s) (max_car_speed s) m.

(** Object creation: [Car(...)] and [Road(...)] put a new object in the
    store and give its reference. *)
Definition new_Car (c : Car.t) (s : t) : CarRef * t :=
  let r := fresh (dom (car_objs s)) in
  (r, set_car_objs (<[r := c]> (car_objs s)) s).

Definition new_Road (r : Road.t) (s : t) : RoadRef * t :=
  let ref := fresh (dom (road_objs s)) in
  (ref, set_road_objs (<[ref := r]> (road_objs s)) s).

Definition add_road (road : RoadRef) (s : t) : t :=
  set_roads (Dict.set (Road.road_id (road_objs s !!! road)) road (roads s)) s.

Definition add_intersection (intersection : Intersection.t) (s : t) : t :=
  set_intersections
    (Dict.set (Intersection.intersection_id intersection) intersection
              (intersections s)) s.

Definition add_car (s : t) (car : CarRef) (road_id : string) (lane_num : Z)
    : bool * t :=
  match Dict.get road_id (roads s) with
  | Some road =>
      let '(success, road', h') :=
        Road.add_car (car_objs s) (road_objs s !!! road) car lane_num in
      let s1 := set_car_objs h' (set_road_objs (<[road := road']> (road_objs s)) s) in
      if success then (true, set_cars (cars s1 ++ [car]) s1)
      else (false, s1)
  | None => (false, s)
  end.

(** [road.remove_car(car)] on the road object behind [road]. *)
Definition road_remove_car (car : CarRef) (h : RoadHeap) (road : RoadRef)
    : RoadHeap :=
  <[road := (Road.remove_car (h !!! road) car).2]> h.

Definition remove_car (s : t) (car : CarRef) : t :=
  if py_in car (cars s) then
    let s1 := set_cars (py_list_remove car (cars s)) s in
    let s2 :=
      set_road_objs
        (foldl (road_remove_car car) (road_objs s1) (Dict.values (roads s1))) s1 in
    let s3 :=
      set_intersections
        (map (λ kv : string * Intersection.t,
                (kv.1, (Intersection.remove_car_from_intersection kv.2 car).2))
             (intersections s2)) s2 in
    let cid := Car.car_id (car_objs s3 !!! car) in
    if bool_decide (is_Some (car_entry_directions s3 !! cid))
    then set_car_entry_directions (delete cid (car_entry_directions s3)) s3
    else s3
  else s.

Definition get_car_at_position (s : t) (position : Pos) : option CarRef :=
  match py_first_some
          (λ road, Road.get_car_at_position (car_objs s) (road_objs s !!! road)
                                            position)
          (Dict.values (roads s)) with
  | Some car => Some car
  | None =>
      py_first_some
        (λ intersection,
           List.find (λ car, bool_decide (Car.position (car_objs s !!! car) = position))
                     (Intersection.cars_in_intersection intersection))
        (Dict.values (intersections s))
  end.

Definition is_position_free (s : t) (position : Pos) : bool :=
  bool_decide (get_car_at_position s position = None).

Definition is_valid_position (s : t) (position : Pos) : bool :=
  let '(row, col) := position in
  bool_decide (0 ≤ row < (grid_size s).2) && bool_decide (0 ≤ col < (grid_size s).1).

Definition find_car_location (s : t) (car : CarRef)
    : option string * option string :=
  match List.find (λ kv : string * RoadRef,
                     py_in car (Road.get_all_cars (road_objs s !!! kv.2)))
                  (roads s) with
  | Some (road_id, _) => (Some road_id, None)
  | None =>
      match List.find (λ kv : string * Intersection.t,
                         py_in car (Intersection.cars_in_intersection kv.2))
                      (intersections s) with
      | Some (intersection_id, _) => (None, Some intersection_id)
      | None => (None, None)
      end
  end.

(** The first intersection covering the cell, with its place in the
    dictionary (the object is mutated in place by the caller). *)
Definition _get_intersection_at_position (s : t) (position : Pos)
    : option (nat * (string * Intersection.t)) :=
  list_find (λ kv : string * Intersection.t,
               position ∈ Intersection.intersection_positions kv.2)
            (intersections s).

(** [car.increment_wait_time()] and [car.move_to(pos)] on the store. *)
Definition wait (car : CarRef) (s : t) : t :=
  set_car_objs (car_call Car.increment_wait_time car (car_objs s)) s.

Definition advance (car : CarRef) (pos : Pos) (s : t) : t :=
  set_car_objs (car_call (Car.move_to pos) car (car_objs s)) s.

(** Every path through the body of [for dist in range(1, distance + 1)]
    ends in [return] or [break], so the body runs at most once, with
    [dist = 1], and only when the range is not empty. *)
Definition _move_car_on_road (s : t) (car : CarRef) (road_id : string)
    : option (bool * t) :=
  road ← Dict.get road_id (roads s);
  let distance := Z.min (max_car_speed s) 1 in
  if bool_decide (1 < distance + 1) then
    let next_pos := Car.get_next_position (car_objs s !!! car) 1 in
    if negb (is_valid_position s next_pos) then Some (false, wait car s)
    else
      match _get_intersection_at_position s next_pos with
      | Some (idx, (iid, intersection)) =>
          let entry_direction := Car.direction (car_objs s !!! car) in
          ok ← Intersection.can_car_enter (car_objs s) intersection car
                                          entry_direction;
          if ok : bool then
            let road_objs1 := road_remove_car car (road_objs s) road in
            let car_objs1 := car_call (Car.move_to next_pos) car (car_objs s) in
            let intersection1 :=
              (Intersection.add_car_to_intersection car_objs1 intersection car).2 in
            let entries :=
              <[Car.car_id (car_objs1 !!! car) := entry_direction]>
                (car_entry_directions s) in
            Some (true,
                  mk car_objs1 road_objs1 (grid_size s) (roads s)
                     (<[idx := (iid, intersection1)]> (intersections s))
                     (cars s) (tick_count s) (max_car_speed s) entries)
          else Some (false, wait car s)
      | None =>
          if negb (is_position_free s next_pos) then Some (false, wait car s)
          else Some (true, advance car next_pos s)
      end
  else Some (false, wait car s).

(** The tail of [_move_car_in_intersection]: one more cell inside. *)
Definition continue_in_intersection (s : t) (car : CarRef)
    (intersection : Intersection.t) : bool * t :=
  let next_pos := Car.get_next_position (car_objs s !!! car) 1 in
  if bool_decide (next_pos ∈ Intersection.intersection_positions intersection)
     && Intersection._is_intersection_position_free (car_objs s) intersection next_pos
  then (true, advance car next_pos s)
  else (false, wait car s).

Definition _move_car_in_intersection (s : t) (car : CarRef)
    (intersection_id : string) : option (bool * t) :=
  intersection ← Dict.get intersection_id (intersections s);
  let entry_direction :=
    default (Car.direction (car_objs s !!! car))
            (car_entry_directions s !! Car.car_id (car_objs s !!! car)) in
  match Intersection.process_car_in_intersection (car_objs s) intersection car
                                                 entry_direction with
  | Some exit_direction =>
      match Intersection.connected_roads intersection !! exit_direction with
      | Some exit_road =>
          let next_pos := Car.get_next_position (car_objs s !!! car) 1 in
          if Road.is_position_free (car_objs s) (road_objs s !!! exit_road)
                                   next_pos None
          then
            let intersection1 :=
              (Intersection.remove_car_from_intersection intersection car).2 in
            let car_objs1 := car_call (Car.turn exit_direction) car (car_objs s) in
            let car_objs2 := car_call (Car.move_to next_pos) car car_objs1 in
            let '(_, exit_road', car_objs3) :=
              Road.add_car car_objs2 (road_objs s !!! exit_road) car
                           (Car.lane (car_objs2 !!! car)) in
            let entries :=
              delete (Car.car_id (car_objs3 !!! car)) (car_entry_directions s) in
            Some (true,
                  mk car_objs3 (<[exit_road := exit_road']> (road_objs s))
                     (grid_size s) (roads s)
                     (Dict.set intersection_id intersection1 (intersections s))
                     (cars s) (tick_count s) (max_car_speed s) entries)
          else Some (false, wait car s)
      | None => Some (continue_in_intersection s car intersection)
      end
  | None => Some (continue_in_intersection s car intersection)
  end.

Definition move_car (s : t) (car : CarRef) : option (bool * t) :=
  let '(road_id, intersection_id) := find_car_location s car in
  if py_truthy road_id then _move_car_on_road s car (default EmptyString road_id)
  else if py_truthy intersection_id
       then _move_car_in_intersection s car (default EmptyString intersection_id)
       else Some (false, s).

(** The two calls of the first loop of [tick] on one intersection. *)
Definition update_lights (intersection : Intersection.t)
    : option Intersection.t :=
  c ← TrafficLightController.update_automatic_cycle
        (Intersection.traffic_controller intersection);
  Some (Intersection.update (Intersection.set_traffic_controller c intersection)).

Definition update_all_lights (s : t) : option t :=
  l ← mapM (λ kv : string * Intersection.t,
              i ← update_lights kv.2; Some (kv.1, i))
           (intersections s);
  Some (set_intersections l s).

(** [for car in cars_to_move: self.move_car(car)].  The results of the
    calls, which [tick] discards, are kept as a log next to the state. *)
Fixpoint move_cars (cars_to_move : list CarRef) (s : t)
    : option (list bool * t) :=
  match cars_to_move with
  | [] => Some ([], s)
  | car :: rest =>
      r ← move_car s car;
      r' ← move_cars rest r.2;
      Some (r.1 :: r'.1, r'.2)
  end.

(** [tick], with the outcome of [random.shuffle] on the copy of
    [self.cars] given as [cars_to_move]; [tick_log] also gives the log of
    the move attempts. *)
Definition tick_log (cars_to_move : list CarRef) (s : t)
    : option (list bool * t) :=
  s1 ← update_all_lights (set_tick_count (tick_count s + 1) s);
  move_cars cars_to_move s1.

Definition tick (cars_to_move : list CarRef) (s : t) : option t :=
  r ← tick_log cars_to_move s; Some r.2.

Definition set_traffic_light (s : t) (intersection_id : string)
    (direction : Direction) (state : TrafficLightState) : bool * t :=
  match Dict.get intersection_id (intersections s) with
  | Some intersection =>
      let c := TrafficLightController.set_light_state direction state
                 (Intersection.traffic_controller intersection) in
      (true,
       set_intersections
         (Dict.set intersection_id
                   (Intersection.set_traffic_controller c intersection)
                   (intersections s)) s)
  | None => (false, s)
  end.

Definition create_simple_four_way_intersection (center : Pos) (s : t)
    : string * t :=
  let intersection_id := "main_intersection" in
  let intersection := Intersection.init intersection_id center 3 in
  let '(center_row, center_col) := center in
  let '(north_road, s) :=
    new_Road (Road.init "north_road" (center_row - 6, center_col)
                        (center_row - 2, center_col) SOUTH 2) s in
  let '(south_road, s) :=
    new_Road (Road.init "south_road" (center_row + 2, center_col)
                        (center_row + 6, center_col) NORTH 2) s in
  let '(east_road, s) :=
    new_Road (Road.init "east_road" (center_row, center_col + 2)
                        (center_row, center_col + 6) WEST 2) s in
  let '(west_road, s) :=
    new_Road (Road.init "west_road" (center_row, center_col - 6)
                        (center_row, center_col - 2) EAST 2) s in
  let s := add_road north_road s in
  let s := add_road south_road s in
  let s := add_road east_road s in
  let s := add_road west_road s in
  let intersection := Intersection.connect_road north_road NORTH intersection in
  let intersection := Intersection.connect_road south_road SOUTH intersection in
  let intersection := Intersection.connect_road east_road EAST intersection in
  let intersection := Intersection.connect_road west_road WEST intersection in
  let s := add_intersection intersection s in
  (intersection_id, s).
End TrafficSimulation.

(** ** The external operations and runs of the engine *)

Inductive Op :=
  | AddCar (car : CarRef) (road_id : string) (lane_num : Z)
  | RemoveCar (car : CarRef)
  | SetTrafficLight (intersection_id : string) (direction : Direction)
                    (state : TrafficLightState)
  | Tick (cars_to_move : list CarRef).

(** One external call.  A tick is only defined for an order that
    [random.shuffle] can produce, a permutation of the car list. *)
Definition apply_op (s : TrafficSimulation.t) (op : Op)
    : option TrafficSimulation.t :=
  match op with
  | AddCar car road_id lane_num =>
      Some (TrafficSimulation.add_car s car road_id lane_num).2
  | RemoveCar car => Some (TrafficSimulation.remove_car s car)
  | SetTrafficLight i d st =>
      Some (TrafficSimulation.set_traffic_light s i d st).2
  | Tick cars_to_move =>
      if bool_decide (cars_to_move ≡ₚ TrafficSimulation.cars s)
      then TrafficSimulation.tick cars_to_move s
      else None
  end.

Fixpoint run_ops (ops : list Op) (s : TrafficSimulation.t)
    : option TrafficSimulation.t :=
  match ops with
  | [] => Some s
  | op :: ops' => s' ← apply_op s op; run_ops ops' s'
  end.


(** Calls on a controller, for the automatic cycle under overrides. *)
Inductive ControllerOp :=
  | AutomaticCycle
  | Override (direction : Direction) (state : TrafficLightState)
  | UpdateTimers.

Definition controller_op (c : TrafficLightController.t) (op : ControllerOp)
    : option TrafficLightController.t :=
  match op with
  | AutomaticCycle => TrafficLightController.update_automatic_cycle c
  | Override d st => Some (TrafficLightController.set_light_state d st c)
  | UpdateTimers => Some (TrafficLightController.update c)
  end.

Fixpoint controller_ops (ops : list ControllerOp) (c : TrafficLightController.t)
    : option TrafficLightController.t :=
  match ops with
  | [] => Some c
  | op :: ops' => c' ← controller_op c op; controller_ops ops' c'
  end.

(** Number of calls of [update_automatic_cycle] in a sequence. *)
Fixpoint cycle_calls (ops : list ControllerOp) : Z :=
  match ops with
  | [] => 0
  | AutomaticCycle :: ops' => 1 + cycle_calls ops'
  | _ :: ops' => cycle_calls ops'
  end.

(** The controller an [Intersection] is constructed with: all four lights. *)
Definition constructed_controller (intersection_id : string)
    : TrafficLightController.t :=
  Intersection.traffic_controller (Intersection.init intersection_id (0, 0) 3).

(** ** Notions of the specification *)

(** The phase the specification names after [k] calls of the automatic
    cycle: (NORTH, SOUTH) first, the other pair after every 30 calls. *)
Definition spec_phase (k : Z) : Direction * Direction :=
  if Z.even (k `div` 30) then (NORTH, SOUTH) else (EAST, WEST).

Definition spec_signal (k : Z) (d : Direction) : TrafficLightState :=
  if bool_decide (d = (spec_phase k).1 ∨ d = (spec_phase k).2) then GREEN else RED.

Definition light_state (c : TrafficLightController.t) (d : Direction)
    : option TrafficLightState :=
  TrafficLight.state <$> TrafficLightController.lights c !! d.

(** The turn table in the specification's words. *)
Definition clockwise (d : Direction) : Direction :=
  match d with NORTH => EAST | EAST => SOUTH | SOUTH => WEST | WEST => NORTH end.

Definition counter_clockwise (d : Direction) : Direction :=
  match d with NORTH => WEST | WEST => SOUTH | SOUTH => EAST | EAST => NORTH end.

Definition spec_exit_direction (m : Movement) (d : Direction) : Direction :=
  match m with
  | STRAIGHT => d
  | RIGHT => clockwise d
  | LEFT => counter_clockwise d
  end.

(** Signal permissions in the specification's words. *)
Definition permitted (m : Movement) (st : TrafficLightState) : Prop :=
  match m with
  | LEFT => st = GREEN_ARROW
  | STRAIGHT => st = GREEN ∨ st = GREEN_ARROW
  | RIGHT => st ≠ RED
  end.


(** The active set and a signal of the intersection at a place of the
    engine's dictionary. *)
Definition active_at (s : TrafficSimulation.t) (idx : nat) : list CarRef :=
  match TrafficSimulation.intersections s !! idx with
  | Some kv => Intersection.cars_in_intersection kv.2
  | None => []
  end.

Definition signal_at (s : TrafficSimulation.t) (idx : nat) (d : Direction)
    : option TrafficLightState :=
  kv ← TrafficSimulation.intersections s !! idx;
  TrafficLight.state <$> Intersection.light_for kv.2 d.

(** [find_car_location] names a container that [move_car] dispatches to. *)
Definition located (s : TrafficSimulation.t) (car : CarRef) : Prop :=
  py_truthy (TrafficSimulation.find_car_location s car).1
  || py_truthy (TrafficSimulation.find_car_location s car).2 = true.

(** The roads of the engine are objects of the store whose lanes are as
    [Lane.__init__] leaves them: [max_cars] is the number of cells. *)
Definition roads_constructed (s : TrafficSimulation.t) : bool :=
  forallb
    (λ kv : string * RoadRef,
       match TrafficSimulation.road_objs s !! kv.2 with
       | Some road =>
           forallb (λ nl : Z * Lane.t,
                      bool_decide (Lane.max_cars nl.2
                                   = Z.of_nat (size (Lane.positions nl.2))))
                   (Road.lanes road)
       | None => false
       end)
    (TrafficSimulation.roads s).

(** What the specification asks of [add_car] to succeed. *)
Definition add_car_accepts (s : TrafficSimulation.t) (car : CarRef)
    (road_id : string) (lane_num : Z) : Prop :=
  ∃ road lane,
    Dict.get road_id (TrafficSimulation.roads s) = Some road
    ∧ Dict.get lane_num (Road.lanes (TrafficSimulation.road_objs s !!! road))
      = Some lane
    ∧ (length (Lane.cars lane) < size (Lane.positions lane))%nat
    ∧ Car.position (TrafficSimulation.car_objs s !!! car) ∈ Lane.positions lane.

(** No car object is held twice: in the car list, among the lanes of one
    road, in one active set. *)
Definition registered_once (s : TrafficSimulation.t) : bool :=
  bool_decide (NoDup (TrafficSimulation.cars s))
  && forallb (λ road,
                bool_decide
                  (NoDup (Road.get_all_cars (TrafficSimulation.road_objs s !!! road))))
             (Dict.values (TrafficSimulation.roads s))
  && forallb (λ i, bool_decide (NoDup (Intersection.cars_in_intersection i)))
             (Dict.values (TrafficSimulation.intersections s)).

(** ** The reference topology and scenarios on it *)

Definition four_way : TrafficSimulation.t :=
  (TrafficSimulation.create_simple_four_way_intersection (10, 10)
     (TrafficSimulation.init (20, 20))).2.

(** The store of [four_way] with the given car objects created, at the
    references 0, 1, ... *)
Definition with_cars (cs : list Car.t) (s : TrafficSimulation.t)
    : TrafficSimulation.t :=
  foldl (λ s c, (TrafficSimulation.new_Car c s).2) s cs.

(** What every sequence of calls on a constructed controller maintains,
    [n] being the number of automatic-cycle calls so far. *)
Record cycle_inv (n : Z) (c : TrafficLightController.t) : Prop := {
  inv_nonneg : 0 ≤ n;
  inv_timer : TrafficLightController.cycle_timer c = n `mod` 30;
  inv_position : TrafficLightController.cycle_position c = (n `div` 30) `mod` 2;
  inv_cycle :
    TrafficLightController.default_cycle c = [(NORTH, SOUTH); (EAST, WEST)];
  inv_duration : TrafficLightController.cycle_duration c = 30;
  inv_lights : ∀ d, is_Some (TrafficLightController.lights c !! d)
}.

(** What a move attempt of [car] leaves alone: the dictionaries of the
    engine, the signals, the cells and roads of the intersections, the
    objects and the memberships of the other cars. *)
Record intersection_frame (car : CarRef) (kv' kv : string * Intersection.t)
    : Prop := {
  if_key : kv'.1 = kv.1;
  if_controller :
    Intersection.traffic_controller kv'.2 = Intersection.traffic_controller kv.2;
  if_positions :
    Intersection.intersection_positions kv'.2
    = Intersection.intersection_positions kv.2;
  if_others : ∀ c, c ≠ car →
    (c ∈ Intersection.cars_in_intersection kv'.2
     ↔ c ∈ Intersection.cars_in_intersection kv.2)
}.

Record move_frame (car : CarRef) (s s' : TrafficSimulation.t) : Prop := {
  mf_roads : TrafficSimulation.roads s' = TrafficSimulation.roads s;
  mf_cars : TrafficSimulation.cars s' = TrafficSimulation.cars s;
  mf_road_cars : ∀ road c, c ≠ car →
    (c ∈ Road.get_all_cars (TrafficSimulation.road_objs s' !!! road)
     ↔ c ∈ Road.get_all_cars (TrafficSimulation.road_objs s !!! road));
  mf_intersections :
    Forall2 (intersection_frame car) (TrafficSimulation.intersections s')
            (TrafficSimulation.intersections s);
  mf_objs : ∀ c, c ≠ car →
    TrafficSimulation.car_objs s' !!! c = TrafficSimulation.car_objs s !!! c
}.

(** The automatic cycle of every intersection can run (its phase table is
    not empty and indexed by the cycle position) and every direction has a
    light, as [Intersection.__init__] arranges. *)
Definition controllers_ready (s : TrafficSimulation.t) : bool :=
  forallb
    (λ kv : string * Intersection.t,
       let c := Intersection.traffic_controller kv.2 in
       bool_decide (is_Some (TrafficLightController.update_automatic_cycle c))
       && forallb (λ d, bool_decide
                          (is_Some (TrafficLightController.lights c !! d)))
                  Direction_members)
    (TrafficSimulation.intersections s).

Definition lights_present (s : TrafficSimulation.t) : Prop :=
  ∀ kv d, kv ∈ TrafficSimulation.intersections s →
          is_Some (Intersection.light_for kv.2 d).

(** A car on the north road, southbound and going straight: created,
    registered, and one tick later inside the intersection at (9, 10). *)
Definition crossing_world : TrafficSimulation.t :=
  with_cars [Car.init "b" (8, 10) SOUTH STRAIGHT 0 2] four_way.

Definition crossing_registered : TrafficSimulation.t :=
  (TrafficSimulation.add_car crossing_world 0%nat "north_road" 0).2.

Definition crossing_inside : TrafficSimulation.t :=
  default crossing_registered (TrafficSimulation.tick [0%nat] crossing_registered).

(** Two cars and one cell.  Car 0 crosses southward from the north road;
    when it stands on the last cell of the intersection, car 1 is registered
    on lane 1 of the south road at (12, 11), heading west.  In the next tick
    car 1 is processed first. *)
Definition collision_world : TrafficSimulation.t :=
  with_cars [Car.init "b" (8, 10) SOUTH STRAIGHT 0 2;
             Car.init "x" (12, 11) WEST STRAIGHT 0 2] four_way.

Definition collision_ops : list Op :=
  [AddCar 0%nat "north_road" 0; Tick [0%nat]; Tick [0%nat]; Tick [0%nat];
   AddCar 1%nat "south_road" 1; Tick [1%nat; 0%nat]].

(** Two cars registered on the same cell by [add_car] alone. *)
Definition same_cell_world : TrafficSimulation.t :=
  with_cars [Car.init "p" (4, 10) SOUTH STRAIGHT 0 2;
             Car.init "q" (4, 10) SOUTH STRAIGHT 0 2] four_way.

Definition same_cell_ops : list Op :=
  [AddCar 0%nat "north_road" 0; AddCar 1%nat "north_road" 0].

(** A car that leaves the intersection towards a full lane.  Car 0 crosses
    southward; cars 1 to 5 fill lane 0 of the south road and drive west,
    off the cells of the lane but still in its list. *)
Definition lost_car_world : TrafficSimulation.t :=
  with_cars [Car.init "b" (8, 10) SOUTH STRAIGHT 0 2;
             Car.init "w1" (12, 10) WEST STRAIGHT 0 2;
             Car.init "w2" (13, 10) WEST STRAIGHT 0 2;
             Car.init "w3" (14, 10) WEST STRAIGHT 0 2;
             Car.init "w4" (15, 10) WEST STRAIGHT 0 2;
             Car.init "w5" (16, 10) WEST STRAIGHT 0 2] four_way.

Definition lost_car_order : list CarRef := [0; 1; 2; 3; 4; 5]%nat.

Definition lost_car_ops : list Op :=
  [AddCar 0%nat "north_road" 0;
   AddCar 1%nat "south_road" 0; AddCar 2%nat "south_road" 0;
   AddCar 3%nat "south_road" 0; AddCar 4%nat "south_road" 0;
   AddCar 5%nat "south_road" 0;
   Tick lost_car_order; Tick lost_car_order; Tick lost_car_order;
   Tick lost_car_order].



(** One car object registered twice. *)
Definition twice_ops : list Op :=
  [AddCar 0%nat "north_road" 0; AddCar 0%nat "north_road" 0].

(** One car object registered twice on the west road, before a red light. *)
Definition waiting_world : TrafficSimulation.t :=
  with_cars [Car.init "e" (10, 8) EAST STRAIGHT 0 2] four_way.

Definition waiting_twice_ops : list Op :=
  [AddCar 0%nat "west_road" 0; AddCar 0%nat "west_road" 0].

(** A car on the north road that intends to turn left. *)
Definition left_turn_registered : TrafficSimulation.t :=
  (TrafficSimulation.add_car
     (with_cars [Car.init "l" (8, 10) SOUTH LEFT 0 2] four_way)
     0%nat "north_road" 0).2.

(** What one move attempt with result [b] makes of the car object: the
    identity of the car is kept, and the position is one cell ahead along
    the old heading if the attempt succeeded and the old position if not. *)
Definition moved (b : bool) (old new : Car.t) : Prop :=
  Car.car_id new = Car.car_id old
  ∧ Car.intended_movement new = Car.intended_movement old
  ∧ Car.max_speed new = Car.max_speed old
  ∧ Car.position new
    = (if b then Car.get_next_position old 1 else Car.position old).

(** No lane of a road object holds more cars than [max_cars]. *)
Definition road_within_capacity (road : Road.t) : Prop :=
  Forall (λ nl : Z * Lane.t,
            Z.of_nat (length (Lane.cars nl.2)) ≤ Lane.max_cars nl.2)
         (Road.lanes road).

Definition lanes_within_capacity (s : TrafficSimulation.t) : Prop :=
  map_Forall (λ _ road, road_within_capacity road) (TrafficSimulation.road_objs s).

(** No active set holds a car twice. *)
Definition active_sets_NoDup (s : TrafficSimulation.t) : Prop :=
  Forall (λ kv : string * Intersection.t,
            NoDup (Intersection.cars_in_intersection kv.2))
         (TrafficSimulation.intersections s).

(** ** backend/traffic_sim.py

    The queue simulation behind the HTTP shell.  Its state is the module's
    global variables.  An entry of a queue is the tuple [("Car", t)] with
    [t] the arrival time; the constant tag is left out.  The outcomes of the
    four comparisons [random.random() < probability] of one call of
    [simulate_car_arrivals] are given as [draws]. *)

Module TrafficSim.
Record t := mk {
  north : list Z;
  south : list Z;
  east : list Z;
  west : list Z;
  signal_state : string;
  simulation_time : Z;
  waiting_times_fixed : list Z;
  waiting_times_dynamic : list Z;
  signal_timer : Z
}.

Record draws := mk_draws {
  arrives_north : bool;
  arrives_south : bool;
  arrives_east : bool;
  arrives_west : bool
}.

Definition fixed_green_duration : Z := 5.

(** The module's initial values, which [reset_simulation] assigns again. *)
Definition reset_simulation : t :=
  mk [] [] [] [] "NorthSouth" 0 [] [] 0.

(** The lengths for "North", "South", "East", "West". *)
Definition get_queue_lengths (s : t) : Z * Z * Z * Z :=
  (Z.of_nat (length (north s)), Z.of_nat (length (south s)),
   Z.of_nat (length (east s)), Z.of_nat (length (west s))).

(** [queue.append(("Car", simulation_time))] when the lane's draw is below
    its probability. *)
Definition arrive (a : bool) (time : Z) (queue : list Z) : list Z :=
  if a then queue ++ [time] else queue.

Definition simulate_car_arrivals (d : draws) (s : t) : t :=
  mk (arrive (arrives_north d) (simulation_time s) (north s))
     (arrive (arrives_south d) (simulation_time s) (south s))
     (arrive (arrives_east d) (simulation_time s) (east s))
     (arrive (arrives_west d) (simulation_time s) (west s))
     (signal_state s) (simulation_time s) (waiting_times_fixed s)
     (waiting_times_dynamic s) (signal_timer s).

(** [if queue: car, arrival_time = queue.pop(0);
    waiting_times.append(simulation_time - arrival_time)] *)
Definition serve (time : Z) (queue waiting_times : list Z) : list Z * list Z :=
  match queue with
  | [] => (queue, waiting_times)
  | arrival_time :: rest => (rest, waiting_times ++ [time - arrival_time])
  end.

Definition run_simulation_step_fixed (d : draws) (s : t) : t :=
  let time := simulation_time s + 1 in
  let s1 :=
    simulate_car_arrivals d
      (mk (north s) (south s) (east s) (west s) (signal_state s) time
          (waiting_times_fixed s) (waiting_times_dynamic s) (signal_timer s)) in
  let timer1 := signal_timer s1 + 1 in
  let '(signal, timer) :=
    if bool_decide (timer1 >= fixed_green_duration)
    then ((if bool_decide (signal_state s1 = "NorthSouth")
           then "EastWest" else "NorthSouth"), 0)
    else (signal_state s1, timer1) in
  if bool_decide (signal = "NorthSouth") then
    let '(n, w1) := serve time (north s1) (waiting_times_fixed s1) in
    let '(so, w2) := serve time (south s1) w1 in
    mk n so (east s1) (west s1) signal time w2 (waiting_times_dynamic s1) timer
  else
    let '(e, w1) := serve time (east s1) (waiting_times_fixed s1) in
    let '(w, w2) := serve time (west s1) w1 in
    mk (north s1) (south s1) e w signal time w2 (waiting_times_dynamic s1) timer.

Definition run_simulation_step_dynamic (d : draws) (s : t) : t :=
  let time := simulation_time s + 1 in
  let s1 :=
    simulate_car_arrivals d
      (mk (north s) (south s) (east s) (west s) (signal_state s) time
          (waiting_times_fixed s) (waiting_times_dynamic s) (signal_timer s)) in
  let '(qn, qs, qe, qw) := get_queue_lengths s1 in
  let signal := if bool_decide (qn + qs > qe + qw)
                then "NorthSouth" else "EastWest" in
  if bool_decide (signal = "NorthSouth") then
    let '(n, w1) := serve time (north s1) (waiting_times_dynamic s1) in
    let '(so, w2) := serve time (south s1) w1 in
    mk n so (east s1) (west s1) signal time (waiting_times_fixed s1) w2
       (signal_timer s1)
  else
    let '(e, w1) := serve time (east s1) (waiting_times_dynamic s1) in
    let '(w, w2) := serve time (west s1) w1 in
    mk (north s1) (south s1) e w signal time (waiting_times_fixed s1) w2
       (signal_timer s1).
End TrafficSim.

(** Calls of the two step functions, with their draws. *)
Inductive SimStep :=
  | StepFixed (d : TrafficSim.draws)
  | StepDynamic (d : TrafficSim.draws).

Definition sim_step (s : TrafficSim.t) (st : SimStep) : TrafficSim.t :=
  match st with
  | StepFixed d => TrafficSim.run_simulation_step_fixed d s
  | StepDynamic d => TrafficSim.run_simulation_step_dynamic d s
  end.

Definition step_draws (st : SimStep) : TrafficSim.draws :=
  match st with StepFixed d | StepDynamic d => d end.

(** Cars that arrive with the draws of one step. *)
Definition arrivals (d : TrafficSim.draws) : nat :=
  (Nat.b2n (TrafficSim.arrives_north d) + Nat.b2n (TrafficSim.arrives_south d)
   + Nat.b2n (TrafficSim.arrives_east d) + Nat.b2n (TrafficSim.arrives_west d))%nat.

(** Cars the simulation has seen: queued or served. *)
Definition sim_cars (s : TrafficSim.t) : nat :=
  (length (TrafficSim.north s) + length (TrafficSim.south s)
   + length (TrafficSim.east s) + length (TrafficSim.west s)
   + length (TrafficSim.waiting_times_fixed s)
   + length (TrafficSim.waiting_times_dynamic s))%nat.



(** [crossing_registered] once the first tick has set the signals. *)
Definition crossing_signalled : TrafficSimulation.t :=
  default crossing_registered
    (TrafficSimulation.update_all_lights
       (TrafficSimulation.set_tick_count
          (TrafficSimulation.tick_count crossing_registered + 1)
          crossing_registered)).

(** The crossing car three ticks later, on the last cell of the
    intersection, (11, 10). *)
Definition crossing_at_exit : TrafficSimulation.t :=
  default crossing_registered
    (run_ops [Tick [0%nat]; Tick [0%nat]; Tick [0%nat]] crossing_registered).

(** A car registered in the middle of the north road. *)
Definition midroad_world : TrafficSimulation.t :=
  with_cars [Car.init "m" (5, 10) SOUTH STRAIGHT 0 2] four_way.

Definition midroad_registered : TrafficSimulation.t :=
  (TrafficSimulation.add_car midroad_world 0%nat "north_road" 0).2.

(** * Verification *)

(** ** Dictionaries and Python list helpers *)

Section dict_lemmas.
Context {K V : Type} `{EqDecision K}.
Implicit Types (k : K) (v : V) (d : list (K * V)).

Lemma Dict_get_set_eq k v d : Dict.get k (Dict.set k v d) = Some v.
Proof.
  induction d as [|[k' v'] d IH]; simpl.
  - by rewrite decide_True.
  - destruct (decide (k = k')) as [->|Hne]; simpl.
    + by rewrite decide_True.
    + by rewrite decide_False.
Qed.

Lemma Dict_get_set_ne k k' v d :
  k ≠ k' → Dict.get k' (Dict.set k v d) = Dict.get k' d.
Proof.
  intros Hne. induction d as [|[k0 v0] d IH]; simpl.
  - by rewrite decide_False.
  - destruct (decide (k = k0)) as [->|Hne0]; simpl.
    + by rewrite !decide_False.
    + destruct (decide (k' = k0)); [done | apply IH].
Qed.

Lemma Dict_set_id k v d : Dict.get k d = Some v → Dict.set k v d = d.
Proof.
  induction d as [|[k' v'] d IH]; simpl; [done |].
  destruct (decide (k = k')) as [->|Hne].
  - by intros [= ->].
  - intros Hget. by rewrite IH.
Qed.

Lemma Dict_get_elem_of k v d : Dict.get k d = Some v → (k, v) ∈ d.
Proof.
  induction d as [|[k' v'] d IH]; simpl; [done |].
  destruct (decide (k = k')) as [->|Hne].
  - intros [= ->]. left.
  - intros Hget. right. by apply IH.
Qed.

Lemma Dict_get_values k v d : Dict.get k d = Some v → v ∈ Dict.values d.
Proof.
  intros Hget. apply Dict_get_elem_of in Hget.
  unfold Dict.values. apply list_elem_of_fmap. by exists (k, v).
Qed.

Lemma Dict_set_keys k v d :
  is_Some (Dict.get k d) → (Dict.set k v d).*1 = d.*1.
Proof.
  induction d as [|[k' v'] d IH]; simpl.
  - by intros [? ?].
  - destruct (decide (k = k')) as [->|Hne]; [done |].
    intros Hs. rewrite !fmap_cons. f_equal. by apply IH.
Qed.

(** Writing a key that is present replaces one entry of the list. *)
Lemma Dict_set_lookup k v d :
  is_Some (Dict.get k d) →
  ∃ i v0, d !! i = Some (k, v0) ∧ Dict.get k d = Some v0
          ∧ Dict.set k v d = <[i := (k, v)]> d.
Proof.
  induction d as [|[k' v'] d IH]; simpl.
  - by intros [? ?].
  - destruct (decide (k = k')) as [->|Hne].
    + intros _. by exists 0%nat, v'.
    + intros Hs. destruct (IH Hs) as (i & v0 & Hi & Hg & Heq).
      exists (S i), v0. simpl. by rewrite Heq.
Qed.
End dict_lemmas.

Section list_lemmas.
Context {A : Type} `{EqDecision A}.
Implicit Types (x y : A) (l : list A).

Lemma py_in_true x l : py_in x l = true ↔ x ∈ l.
Proof. unfold py_in. apply bool_decide_eq_true. Qed.

Lemma py_in_false x l : py_in x l = false ↔ x ∉ l.
Proof. unfold py_in. apply bool_decide_eq_false. Qed.

Lemma py_list_remove_absent x l : x ∉ l → py_list_remove x l = l.
Proof.
  induction l as [|y l IH]; simpl; [done |].
  intros Hni. apply not_elem_of_cons in Hni as [Hne Hni].
  rewrite decide_False; [| done]. by rewrite IH.
Qed.

Lemma py_list_remove_other x y l :
  x ≠ y → y ∈ py_list_remove x l ↔ y ∈ l.
Proof.
  intros Hne. induction l as [|z l IH]; simpl; [done |].
  destruct (decide (x = z)) as [->|Hxz].
  - rewrite elem_of_cons. naive_solver.
  - rewrite !elem_of_cons, IH. done.
Qed.

Lemma py_list_remove_subseteq x y l : y ∈ py_list_remove x l → y ∈ l.
Proof.
  induction l as [|z l IH]; simpl; [done |].
  destruct (decide (x = z)) as [->|Hxz].
  - intros ?. by right.
  - rewrite !elem_of_cons. naive_solver.
Qed.

Lemma py_list_remove_NoDup x l : NoDup l → NoDup (py_list_remove x l).
Proof.
  induction 1 as [|z l Hz Hl IH]; simpl; [constructor |].
  destruct (decide (x = z)); [done |].
  constructor; [| done]. intros Hin. by apply py_list_remove_subseteq in Hin.
Qed.

Lemma py_list_remove_gone x l : NoDup l → x ∉ py_list_remove x l.
Proof.
  induction 1 as [|z l Hz Hl IH]; simpl; [apply not_elem_of_nil |].
  destruct (decide (x = z)) as [->|Hne]; [done |].
  apply not_elem_of_cons. done.
Qed.
End list_lemmas.

(** ** The turn table *)

(** C5.  For every car and entry direction, [get_exit_direction] is the
    entry direction for STRAIGHT, the entry direction rotated clockwise
    (N -> E -> S -> W -> N) for RIGHT and rotated counter-clockwise
    (N -> W -> S -> E -> N) for LEFT. *)
Theorem get_exit_direction_turn_table (h : CarHeap) (car : CarRef) (d : Direction) :
  Intersection.get_exit_direction h car d
  = spec_exit_direction (Car.intended_movement (h !!! car)) d
  ∧ clockwise NORTH = EAST ∧ clockwise EAST = SOUTH
  ∧ clockwise SOUTH = WEST ∧ clockwise WEST = NORTH
  ∧ counter_clockwise NORTH = WEST ∧ counter_clockwise WEST = SOUTH
  ∧ counter_clockwise SOUTH = EAST ∧ counter_clockwise EAST = NORTH.
Proof.
  split; [| by repeat split].
  unfold Intersection.get_exit_direction, spec_exit_direction.
  destruct (Car.intended_movement (h !!! car)), d; reflexivity.
Qed.

(** ** The automatic cycle *)

Section automatic_cycle.
Import TrafficLightController.

Lemma set_in_lookup d st (ls : gmap Direction TrafficLight.t) d' :
  set_in d st ls !! d'
  = if decide (d = d') then TrafficLight.set_state st 0 <$> ls !! d
    else ls !! d'.
Proof.
  unfold set_in. destruct (ls !! d) as [l|] eqn:Hl.
  - destruct (decide (d = d')) as [<-|Hne].
    + by rewrite lookup_insert_eq.
    + by rewrite lookup_insert_ne.
  - destruct (decide (d = d')) as [<-|Hne]; [by rewrite Hl | done].
Qed.

Lemma constructed_controller_inv id : cycle_inv 0 (constructed_controller id).
Proof.
  split; try done.
  intros d. unfold constructed_controller. simpl.
  destruct d; vm_compute; eauto.
Qed.

Lemma set_light_state_inv n d st c :
  cycle_inv n c → cycle_inv n (set_light_state d st c).
Proof.
  intros [? ? ? ? ? Hl]. split; try done.
  intros d'. simpl. rewrite set_in_lookup.
  destruct (decide (d = d')); [| done].
  destruct (Hl d) as [l ->]. by eexists.
Qed.

Lemma update_inv n c : cycle_inv n c → cycle_inv n (update c).
Proof.
  intros [? ? ? ? ? Hl]. split; try done.
  intros d. simpl. rewrite lookup_fmap.
  destruct (Hl d) as [l ->]. by eexists.
Qed.

Lemma spec_phase_index n :
  0 ≤ n →
  py_index [(NORTH, SOUTH); (EAST, WEST)] ((n `div` 30) `mod` 2)
  = Some (spec_phase n).
Proof.
  intros Hn. unfold spec_phase.
  destruct (Z.even (n `div` 30)) eqn:He.
  - apply Z.even_spec in He as [m Hm].
    replace ((n `div` 30) `mod` 2) with 0; [done |].
    rewrite Hm. symmetry. rewrite Z.mul_comm. apply Z.mod_mul. lia.
  - assert (Z.odd (n `div` 30) = true) as Ho by (by rewrite <-Z.negb_even, He).
    apply Z.odd_spec in Ho as [m Hm].
    replace ((n `div` 30) `mod` 2) with 1; [done |].
    rewrite Hm. symmetry.
    rewrite Z.add_comm, Z.mul_comm, Z.mod_add by lia. done.
Qed.

Lemma update_automatic_cycle_inv n c :
  cycle_inv n c →
  ∃ c', update_automatic_cycle c = Some c'
        ∧ cycle_inv (n + 1) c'
        ∧ py_index (default_cycle c') (cycle_position c') = Some (spec_phase (n + 1))
        ∧ ∀ d, light_state c' d = Some (spec_signal (n + 1) d).
Proof.
  intros [Hn Ht Hp Hc Hd Hl].
  assert (0 ≤ n + 1) as Hn1 by lia.
  pose proof (spec_phase_index (n + 1) Hn1) as Hidx.
  unfold update_automatic_cycle. rewrite Ht, Hp, Hc, Hd. simpl length.
  assert ((if bool_decide (n `mod` 30 + 1 >= 30)
           then (if bool_decide (Z.of_nat 2 = 0) then None
                 else Some (0, ((n `div` 30) `mod` 2 + 1) `mod` Z.of_nat 2))
           else Some (n `mod` 30 + 1, (n `div` 30) `mod` 2))
          = Some ((n + 1) `mod` 30, ((n + 1) `div` 30) `mod` 2)) as ->.
  { case_bool_decide as Hge.
    - rewrite bool_decide_eq_false_2 by lia. f_equal. f_equal.
      + clear -Hn Hge. Z.div_mod_to_equations. lia.
      + change (Z.of_nat 2) with 2.
        replace ((n + 1) `div` 30) with (n `div` 30 + 1)
          by (clear -Hn Hge; Z.div_mod_to_equations; lia).
        rewrite Zplus_mod_idemp_l. done.
    - f_equal. f_equal; [clear -Hn Hge; Z.div_mod_to_equations; lia |].
      replace ((n + 1) `div` 30) with (n `div` 30)
        by (clear -Hn Hge; Z.div_mod_to_equations; lia).
      done. }
  simpl. rewrite Hidx. simpl.
  eexists. split; [reflexivity |]. split; [| split].
  - split; simpl; try done.
    intros d. rewrite !set_in_lookup.
    repeat case_decide; rewrite ?lookup_fmap;
      try (destruct (Hl ((spec_phase (n + 1)).1)) as [? ->]);
      try (destruct (Hl ((spec_phase (n + 1)).2)) as [? ->]);
      try (destruct (Hl d) as [? ->]); by eexists.
  - simpl. done.
  - intros d. unfold light_state, spec_signal. simpl.
    rewrite !set_in_lookup.
    destruct (decide ((spec_phase (n + 1)).2 = d)) as [H2|H2].
    + rewrite bool_decide_eq_true_2 by (by right).
      destruct (decide ((spec_phase (n + 1)).1 = (spec_phase (n + 1)).2)) as [H1|H1];
        rewrite ?lookup_fmap.
      * destruct (Hl ((spec_phase (n + 1)).1)) as [? ->]. done.
      * destruct (Hl ((spec_phase (n + 1)).2)) as [? ->]. done.
    + destruct (decide ((spec_phase (n + 1)).1 = d)) as [H1|H1];
        rewrite ?lookup_fmap.
      * rewrite bool_decide_eq_true_2 by (by left).
        destruct (Hl ((spec_phase (n + 1)).1)) as [? ->]. done.
      * rewrite bool_decide_eq_false_2 by naive_solver.
        destruct (Hl d) as [? ->]. done.
Qed.

Lemma controller_ops_inv ops : ∀ n c,
  cycle_inv n c →
  ∃ c', controller_ops ops c = Some c' ∧ cycle_inv (n + cycle_calls ops) c'.
Proof.
  induction ops as [|op ops IH]; intros n c Hinv; simpl.
  - exists c. split; [done |]. by rewrite Z.add_0_r.
  - destruct op as [|d st|]; simpl.
    + destruct (update_automatic_cycle_inv n c Hinv) as (c1 & -> & H1 & _).
      simpl. destruct (IH _ _ H1) as (c' & Hrun & Hinv').
      exists c'. split; [done |].
      by replace (n + (1 + cycle_calls ops)) with (n + 1 + cycle_calls ops) by lia.
    + apply (IH n). by apply set_light_state_inv.
    + apply (IH n). by apply update_inv.
Qed.

Lemma controller_ops_app ops1 ops2 c :
  controller_ops (ops1 ++ ops2) c
  = c' ← controller_ops ops1 c; controller_ops ops2 c'.
Proof.
  revert c. induction ops1 as [|op ops1 IH]; intros c; simpl; [done |].
  destruct (controller_op c op); simpl; [apply IH | done].
Qed.
End automatic_cycle.

(** C4.  On the controller an intersection is built with (all four lights),
    whatever overrides and timer updates are interleaved, the k-th call of
    [update_automatic_cycle] returns and leaves the two directions of the
    active phase GREEN and the other two RED; the active phase is
    (NORTH, SOUTH) at first and changes to the other pair at every 30th
    call: (NORTH, SOUTH) after calls 1 to 29, (EAST, WEST) after calls 30 to
    59, (NORTH, SOUTH) again after call 60. *)
Theorem automatic_cycle_after_kth_call (id : string) (ops : list ControllerOp) :
  let k := cycle_calls ops + 1 in
  (∃ c, controller_ops (ops ++ [AutomaticCycle]) (constructed_controller id) = Some c
        ∧ py_index (TrafficLightController.default_cycle c)
                   (TrafficLightController.cycle_position c)
          = Some (spec_phase k)
        ∧ ∀ d, light_state c d = Some (spec_signal k d))
  ∧ spec_phase 1 = (NORTH, SOUTH) ∧ spec_phase 29 = (NORTH, SOUTH)
  ∧ spec_phase 30 = (EAST, WEST) ∧ spec_phase 59 = (EAST, WEST)
  ∧ spec_phase 60 = (NORTH, SOUTH).
Proof.
  intros k. split; [| by repeat split].
  destruct (controller_ops_inv ops 0 _ (constructed_controller_inv id))
    as (c1 & Hrun & Hinv).
  destruct (update_automatic_cycle_inv _ _ Hinv) as (c & Hc & _ & Hphase & Hsig).
  exists c. rewrite controller_ops_app, Hrun. simpl. rewrite Hc. simpl.
  split; [done |]. rewrite Z.add_0_l in Hphase, Hsig. done.
Qed.

(** ** Registering a car *)

Lemma roads_constructed_lookup s road_id road :
  roads_constructed s = true →
  Dict.get road_id (TrafficSimulation.roads s) = Some road →
  TrafficSimulation.road_objs s !! road
  = Some (TrafficSimulation.road_objs s !!! road)
  ∧ ∀ n lane,
      Dict.get n (Road.lanes (TrafficSimulation.road_objs s !!! road)) = Some lane →
      Lane.max_cars lane = Z.of_nat (size (Lane.positions lane)).
Proof.
  unfold roads_constructed. rewrite forallb_forall.
  intros Hall Hget. apply Dict_get_elem_of, list_elem_of_In, Hall in Hget.
  simpl in Hget.
  destruct (TrafficSimulation.road_objs s !! road) as [r|] eqn:Hr; [| done].
  rewrite (lookup_total_correct _ _ _ Hr). split; [done |].
  intros n lane Hlane. rewrite forallb_forall in Hget.
  apply Dict_get_elem_of, list_elem_of_In, Hget in Hlane.
  by apply bool_decide_eq_true in Hlane.
Qed.

Lemma Lane_add_car_spec h lane car :
  Lane.max_cars lane = Z.of_nat (size (Lane.positions lane)) →
  ((Lane.add_car h lane car).1 = true
   ↔ (length (Lane.cars lane) < size (Lane.positions lane))%nat
     ∧ Car.position (h !!! car) ∈ Lane.positions lane)
  ∧ ((Lane.add_car h lane car).1 = true →
     Lane.cars (Lane.add_car h lane car).2 = Lane.cars lane ++ [car])
  ∧ ((Lane.add_car h lane car).1 = false → (Lane.add_car h lane car).2 = lane).
Proof.
  intros Hmax. unfold Lane.add_car. rewrite Hmax.
  destruct (bool_decide (Z.of_nat (length (Lane.cars lane))
                         < Z.of_nat (size (Lane.positions lane)))) eqn:Hcap;
    destruct (bool_decide (Car.position (h !!! car) ∈ Lane.positions lane)) eqn:Hpos;
    simpl;
    try apply bool_decide_eq_true in Hcap; try apply bool_decide_eq_false in Hcap;
    try apply bool_decide_eq_true in Hpos; try apply bool_decide_eq_false in Hpos;
    (split; [split; [done || intros _ | intros [? ?]; done || lia]
            | split; done]).
  split; [lia | done].
Qed.

(** C8.  [add_car] returns True exactly when the road is known, the lane is
    one of its lanes, the lane holds fewer cars than it has cells and the
    car's position is a cell of the lane; on True the car is appended to
    the car list and to that lane and its lane index is [lane_num]; on
    False the state is what it was. *)
Theorem add_car_contract (s : TrafficSimulation.t) (car : CarRef)
    (road_id : string) (lane_num : Z) :
  roads_constructed s = true →
  let r := TrafficSimulation.add_car s car road_id lane_num in
  (r.1 = true ↔ add_car_accepts s car road_id lane_num)
  ∧ (r.1 = true →
     TrafficSimulation.cars r.2 = TrafficSimulation.cars s ++ [car]
     ∧ Car.lane (TrafficSimulation.car_objs r.2 !!! car) = lane_num
     ∧ TrafficSimulation.roads r.2 = TrafficSimulation.roads s
     ∧ ∃ road lane lane',
         Dict.get road_id (TrafficSimulation.roads s) = Some road
         ∧ Dict.get lane_num (Road.lanes (TrafficSimulation.road_objs s !!! road))
           = Some lane
         ∧ Dict.get lane_num (Road.lanes (TrafficSimulation.road_objs r.2 !!! road))
           = Some lane'
         ∧ Lane.cars lane' = Lane.cars lane ++ [car])
  ∧ (r.1 = false → r.2 = s).
Proof.
  intros Hwf r. subst r. unfold TrafficSimulation.add_car, add_car_accepts.
  destruct (Dict.get road_id (TrafficSimulation.roads s)) as [road|] eqn:Hroad;
    simpl; [| split; [split; [done | by intros (? & ? & ? & _)] | done]].
  destruct (roads_constructed_lookup _ _ _ Hwf Hroad) as [Hobj Hlanes].
  unfold Road.add_car.
  destruct (Dict.get lane_num (Road.lanes (TrafficSimulation.road_objs s !!! road)))
    as [lane|] eqn:Hlane.
  - destruct (Lane_add_car_spec (TrafficSimulation.car_objs s) lane car
                (Hlanes _ _ Hlane)) as (Hiff & Hcars & Hsame).
    destruct (Lane.add_car (TrafficSimulation.car_objs s) lane car)
      as [success lane'] eqn:Hadd.
    simpl in *. destruct success; simpl.
    + split; [| split; [| done]].
      * split; [intros _ | done]. exists road, lane. by destruct Hiff as [[? ?] _].
      * intros _. split; [done |]. split.
        { unfold car_call. by rewrite lookup_total_insert_eq. }
        split; [done |]. exists road, lane, lane'.
        rewrite lookup_total_insert_eq. simpl.
        rewrite Dict_get_set_eq. by rewrite Hcars.
    + split; [| split; [done |]].
      * split; [done |]. intros (road0 & lane0 & [= <-] & Hl0 & Hcap & Hpos).
        rewrite Hlane in Hl0. injection Hl0 as <-. apply Hiff. done.
      * intros _. rewrite (Hsame eq_refl), (Dict_set_id _ _ _ Hlane).
        replace (Road.set_lanes
                   (Road.lanes (TrafficSimulation.road_objs s !!! road))
                   (TrafficSimulation.road_objs s !!! road))
          with (TrafficSimulation.road_objs s !!! road)
          by (by destruct (TrafficSimulation.road_objs s !!! road)).
        rewrite (insert_id _ _ _ Hobj). by destruct s.
  - simpl. split; [| split; [done |]].
    + split; [done |]. intros (road0 & lane0 & [= <-] & Hl0 & _). congruence.
    + intros _. rewrite (insert_id _ _ _ Hobj). by destruct s.
Qed.

(** ** Removing a car *)

Section remove_lemmas.
Context {A : Type} `{EqDecision A}.
Implicit Types (x y : A) (l : list A).

Lemma py_list_remove_app x l1 l2 :
  py_list_remove x (l1 ++ l2)
  = if py_in x l1 then py_list_remove x l1 ++ l2
    else l1 ++ py_list_remove x l2.
Proof.
  induction l1 as [|y l1 IH]; simpl; [done |].
  destruct (decide (x = y)) as [->|Hne].
  - unfold py_in. rewrite bool_decide_eq_true_2; [done | left].
  - rewrite IH. unfold py_in.
    destruct (bool_decide (x ∈ l1)) eqn:Hin.
    + apply bool_decide_eq_true in Hin.
      rewrite bool_decide_eq_true_2; [done | by right].
    + apply bool_decide_eq_false in Hin.
      rewrite bool_decide_eq_false_2; [done |].
      rewrite not_elem_of_cons. done.
Qed.

Lemma iter_remove_other x y l n :
  x ≠ y → y ∈ Nat.iter n (py_list_remove x) l ↔ y ∈ l.
Proof.
  intros Hne. induction n as [|n IH]; simpl; [done |].
  by rewrite py_list_remove_other.
Qed.

Lemma iter_remove_gone x l n :
  NoDup l → (1 ≤ n)%nat → x ∉ Nat.iter n (py_list_remove x) l.
Proof.
  intros Hnd Hn. destruct n as [|n]; [lia |]. clear Hn.
  induction n as [|n IH]; simpl.
  - by apply py_list_remove_gone.
  - simpl in IH. by rewrite py_list_remove_absent.
Qed.
End remove_lemmas.

Lemma Lane_remove_car_cars lane car :
  Lane.cars (Lane.remove_car lane car).2 = py_list_remove car (Lane.cars lane)
  ∧ (Lane.remove_car lane car).1 = py_in car (Lane.cars lane).
Proof.
  unfold Lane.remove_car. destruct (py_in car (Lane.cars lane)) eqn:Hin; simpl.
  - done.
  - apply py_in_false in Hin. by rewrite py_list_remove_absent.
Qed.

Lemma remove_car_lanes_cars ls car :
  (l ← Dict.values (Road.remove_car_lanes ls car).2; Lane.cars l)
  = py_list_remove car (l ← Dict.values ls; Lane.cars l).
Proof.
  induction ls as [|[k lane] ls IH]; simpl; [done |].
  destruct (Lane_remove_car_cars lane car) as [Hcars Hres].
  destruct (Lane.remove_car lane car) as [removed lane'] eqn:Hrm.
  simpl in Hcars, Hres. rewrite py_list_remove_app, <-Hres.
  destruct removed; simpl.
  - by rewrite Hcars.
  - destruct (Road.remove_car_lanes ls car) as [b ls''] eqn:Hrest. simpl in *.
    change (list_bind _ _ ?f ?l) with (l ≫= f).
    rewrite IH, Hcars. f_equal. apply py_list_remove_absent.
    by apply py_in_false.
Qed.

Lemma Road_remove_car_all_cars r car :
  Road.get_all_cars (Road.remove_car r car).2
  = py_list_remove car (Road.get_all_cars r).
Proof.
  unfold Road.remove_car, Road.get_all_cars.
  pose proof (remove_car_lanes_cars (Road.lanes r) car) as H.
  destruct (Road.remove_car_lanes (Road.lanes r) car) as [b ls]. done.
Qed.

Lemma Intersection_remove_car_cars i car :
  Intersection.cars_in_intersection
    (Intersection.remove_car_from_intersection i car).2
  = py_list_remove car (Intersection.cars_in_intersection i).
Proof.
  unfold Intersection.remove_car_from_intersection.
  destruct (py_in car (Intersection.cars_in_intersection i)) eqn:Hin; simpl.
  - done.
  - apply py_in_false in Hin. by rewrite py_list_remove_absent.
Qed.

(** The loop of [remove_car] over the roads: every road object has lost
    some number of occurrences of the car, at least one if it was visited. *)
Lemma remove_from_roads_all_cars car refs : ∀ (h : RoadHeap) x,
  ∃ n, Road.get_all_cars
         (foldl (TrafficSimulation.road_remove_car car) h refs !!! x)
       = Nat.iter n (py_list_remove car) (Road.get_all_cars (h !!! x))
       ∧ (x ∈ refs → (1 ≤ n)%nat).
Proof.
  induction refs as [|a refs IH]; intros h x; simpl.
  - exists 0%nat. split; [done |]. by intros ?%elem_of_nil.
  - destruct (IH (TrafficSimulation.road_remove_car car h a) x) as (n & Hn & Hge).
    rewrite Hn. unfold TrafficSimulation.road_remove_car.
    destruct (decide (a = x)) as [->|Hne].
    + rewrite lookup_total_insert_eq, Road_remove_car_all_cars.
      exists (S n). split; [| lia]. by rewrite Nat.iter_succ_r.
    + rewrite lookup_total_insert_ne by done.
      exists n. split; [done |]. intros [?|?]%elem_of_cons; [done | auto].
Qed.

Lemma registered_once_spec s :
  registered_once s = true →
  NoDup (TrafficSimulation.cars s)
  ∧ (∀ road, road ∈ Dict.values (TrafficSimulation.roads s) →
       NoDup (Road.get_all_cars (TrafficSimulation.road_objs s !!! road)))
  ∧ (∀ i, i ∈ Dict.values (TrafficSimulation.intersections s) →
       NoDup (Intersection.cars_in_intersection i)).
Proof.
  unfold registered_once. rewrite !andb_true_iff, !forallb_forall.
  intros [[Hc Hr] Hi]. apply bool_decide_eq_true in Hc.
  split; [done |]. split.
  - intros road Hin. apply list_elem_of_In, Hr in Hin.
    by apply bool_decide_eq_true in Hin.
  - intros i Hin. apply list_elem_of_In, Hi in Hin.
    by apply bool_decide_eq_true in Hin.
Qed.

Lemma remove_car_present s car :
  car ∈ TrafficSimulation.cars s →
  TrafficSimulation.remove_car s car
  = TrafficSimulation.mk
      (TrafficSimulation.car_objs s)
      (foldl (TrafficSimulation.road_remove_car car)
             (TrafficSimulation.road_objs s)
             (Dict.values (TrafficSimulation.roads s)))
      (TrafficSimulation.grid_size s) (TrafficSimulation.roads s)
      (map (λ kv : string * Intersection.t,
              (kv.1, (Intersection.remove_car_from_intersection kv.2 car).2))
           (TrafficSimulation.intersections s))
      (py_list_remove car (TrafficSimulation.cars s))
      (TrafficSimulation.tick_count s) (TrafficSimulation.max_car_speed s)
      (delete (Car.car_id (TrafficSimulation.car_objs s !!! car))
              (TrafficSimulation.car_entry_directions s)).
Proof.
  intros Hin. unfold TrafficSimulation.remove_car.
  rewrite (proj2 (py_in_true _ _) Hin). simpl.
  case_bool_decide as Hsome; simpl; [done |].
  unfold TrafficSimulation.set_intersections, TrafficSimulation.set_road_objs,
    TrafficSimulation.set_cars. simpl.
  rewrite delete_id; [done |]. by apply eq_None_not_Some.
Qed.

Lemma remove_car_absent s car :
  car ∉ TrafficSimulation.cars s → TrafficSimulation.remove_car s car = s.
Proof.
  intros Hni. unfold TrafficSimulation.remove_car.
  by rewrite (proj2 (py_in_false _ _) Hni).
Qed.

(** C9, as amended.  In a state where no car object is held twice,
    [remove_car] of a car of the car list takes it out of the car list, of
    the lanes of every road of the engine and of every active set, and
    deletes the entry-direction record of its id; it changes no car object,
    no membership of another car and no record of another id; for a car
    that is not in the car list it changes nothing; so a second
    [remove_car] of the same car changes nothing. *)
Theorem remove_car_contract (s : TrafficSimulation.t) (car : CarRef) :
  registered_once s = true →
  let s' := TrafficSimulation.remove_car s car in
  (car ∈ TrafficSimulation.cars s →
     car ∉ TrafficSimulation.cars s'
     ∧ (∀ road, road ∈ Dict.values (TrafficSimulation.roads s') →
          car ∉ Road.get_all_cars (TrafficSimulation.road_objs s' !!! road))
     ∧ (∀ i, i ∈ Dict.values (TrafficSimulation.intersections s') →
          car ∉ Intersection.cars_in_intersection i)
     ∧ TrafficSimulation.car_entry_directions s'
         !! Car.car_id (TrafficSimulation.car_objs s !!! car) = None)
  ∧ (TrafficSimulation.car_objs s' = TrafficSimulation.car_objs s
     ∧ TrafficSimulation.roads s' = TrafficSimulation.roads s
     ∧ (∀ c, c ≠ car →
          (c ∈ TrafficSimulation.cars s' ↔ c ∈ TrafficSimulation.cars s))
     ∧ (∀ c road, c ≠ car →
          (c ∈ Road.get_all_cars (TrafficSimulation.road_objs s' !!! road)
           ↔ c ∈ Road.get_all_cars (TrafficSimulation.road_objs s !!! road)))
     ∧ (∀ c idx, c ≠ car → (c ∈ active_at s' idx ↔ c ∈ active_at s idx))
     ∧ (∀ id, id ≠ Car.car_id (TrafficSimulation.car_objs s !!! car) →
          TrafficSimulation.car_entry_directions s' !! id
          = TrafficSimulation.car_entry_directions s !! id))
  ∧ (car ∉ TrafficSimulation.cars s → s' = s)
  ∧ TrafficSimulation.remove_car s' car = s'.
Proof.
  intros Hwf s'. destruct (registered_once_spec s Hwf) as (Hcars & Hroads & Hints).
  destruct (decide (car ∈ TrafficSimulation.cars s)) as [Hin|Hni]; subst s'.
  - rewrite (remove_car_present s car Hin).
    assert (car ∉ py_list_remove car (TrafficSimulation.cars s)) as Hgone
      by (by apply py_list_remove_gone).
    split; [intros _; simpl; split; [done |]; split; [| split] |
            split; [simpl; split; [done |]; split; [done |];
                    split; [| split; [| split]] |
                    split; [done | by apply remove_car_absent]]].
    + intros road Hroad.
      destruct (remove_from_roads_all_cars car
                  (Dict.values (TrafficSimulation.roads s))
                  (TrafficSimulation.road_objs s) road) as (n & -> & Hn).
      apply iter_remove_gone; auto.
    + intros i Hi. unfold Dict.values in Hi.
      rewrite <-list_fmap_compose in Hi.
      apply list_elem_of_fmap in Hi as ([k i0] & -> & Hi0). simpl.
      rewrite Intersection_remove_car_cars. apply py_list_remove_gone.
      apply Hints. unfold Dict.values. apply list_elem_of_fmap. by exists (k, i0).
    + apply lookup_delete_eq.
    + intros c Hne. by apply py_list_remove_other.
    + intros c road Hne.
      destruct (remove_from_roads_all_cars car
                  (Dict.values (TrafficSimulation.roads s))
                  (TrafficSimulation.road_objs s) road) as (n & -> & _).
      by apply iter_remove_other.
    + intros c idx Hne. unfold active_at. simpl. rewrite list_lookup_fmap.
      destruct (TrafficSimulation.intersections s !! idx) as [[k i]|]; simpl;
        [| done].
      rewrite Intersection_remove_car_cars. by apply py_list_remove_other.
    + intros id Hne. by rewrite lookup_delete_ne.
  - rewrite (remove_car_absent s car Hni).
    split; [done |]. split; [done |]. split; [done |].
    by apply remove_car_absent.
Qed.

(** ** One move attempt *)

Section frame_lemmas.
Context {A B : Type}.

Lemma bind_insert_elem_of (f : A → list B) (l : list A) i x0 x c :
  l !! i = Some x0 → (c ∈ f x ↔ c ∈ f x0) →
  c ∈ (<[i := x]> l) ≫= f ↔ c ∈ l ≫= f.
Proof.
  intros Hi Hf.
  rewrite <-(take_drop_middle l i x0 Hi) at 2.
  rewrite insert_take_drop by (by eapply lookup_lt_Some).
  rewrite !bind_app, !bind_cons, !elem_of_app, Hf. done.
Qed.

Lemma find_ext (p q : A → bool) (l : list A) :
  (∀ x, x ∈ l → p x = q x) → List.find p l = List.find q l.
Proof.
  induction l as [|x l IH]; intros Heq; simpl; [done |].
  rewrite <-(Heq x) by left. destruct (p x); [done |].
  apply IH. intros y Hy. apply Heq. by right.
Qed.

Lemma find_Forall2_key {K} (R : K * A → K * A → Prop) (p : K * A → bool)
    (l' l : list (K * A)) :
  (∀ x' x, R x' x → x'.1 = x.1 ∧ p x' = p x) →
  Forall2 R l' l →
  fst <$> List.find p l' = fst <$> List.find p l.
Proof.
  intros HR. induction 1 as [|x' x l' l Hx Hl IH]; simpl; [done |].
  destruct (HR _ _ Hx) as [Hk Hp]. rewrite Hp.
  destruct (p x); simpl; [by rewrite Hk | done].
Qed.

Lemma Forall2_insert_l (R : A → B → Prop) (l' : list A) (l : list B) i x' x :
  Forall2 R l' l → l !! i = Some x → R x' x →
  Forall2 R (<[i := x']> l') l.
Proof.
  intros Hall Hi HR. apply Forall2_same_length_lookup.
  apply Forall2_same_length_lookup in Hall as [Hlen Hall].
  split; [by rewrite length_insert |].
  intros j y' y Hy' Hy. destruct (decide (i = j)) as [<-|Hne].
  - rewrite list_lookup_insert_eq in Hy'
      by (rewrite Hlen; by eapply lookup_lt_Some).
    by simplify_eq.
  - rewrite list_lookup_insert_ne in Hy' by done. eauto.
Qed.
End frame_lemmas.

Lemma intersection_frame_refl car kv : intersection_frame car kv kv.
Proof. by split. Qed.

Lemma intersections_frame_refl car l : Forall2 (intersection_frame car) l l.
Proof. apply Forall_Forall2_diag, Forall_forall. intros. apply intersection_frame_refl. Qed.

Lemma move_frame_refl car s : move_frame car s s.
Proof. split; try done. apply intersections_frame_refl. Qed.

Lemma car_call_other f car (h : CarHeap) c :
  c ≠ car → car_call f car h !!! c = h !!! c.
Proof. intros Hne. unfold car_call. by rewrite lookup_total_insert_ne. Qed.

Lemma car_call_self f car (h : CarHeap) : car_call f car h !!! car = f (h !!! car).
Proof. unfold car_call. by rewrite lookup_total_insert_eq. Qed.

Lemma wait_frame car s : move_frame car s (TrafficSimulation.wait car s).
Proof.
  split; try done; [apply intersections_frame_refl |].
  intros c Hne. simpl. by apply car_call_other.
Qed.

Lemma advance_frame car pos s : move_frame car s (TrafficSimulation.advance car pos s).
Proof.
  split; try done; [apply intersections_frame_refl |].
  intros c Hne. simpl. by apply car_call_other.
Qed.

Lemma road_remove_car_others car (h : RoadHeap) road ref c :
  c ≠ car →
  c ∈ Road.get_all_cars (TrafficSimulation.road_remove_car car h road !!! ref)
  ↔ c ∈ Road.get_all_cars (h !!! ref).
Proof.
  intros Hne. unfold TrafficSimulation.road_remove_car.
  destruct (decide (road = ref)) as [->|Hr].
  - rewrite lookup_total_insert_eq, Road_remove_car_all_cars.
    by apply py_list_remove_other.
  - by rewrite lookup_total_insert_ne.
Qed.

Lemma Lane_add_car_cars h lane car :
  Lane.cars (Lane.add_car h lane car).2
  = if (Lane.add_car h lane car).1 then Lane.cars lane ++ [car] else Lane.cars lane.
Proof. unfold Lane.add_car. by case_match. Qed.

Lemma Road_add_car_others h r car n c :
  c ≠ car →
  (c ∈ Road.get_all_cars (Road.add_car h r car n).1.2 ↔ c ∈ Road.get_all_cars r)
  ∧ (Road.add_car h r car n).2 !!! c = h !!! c.
Proof.
  intros Hne. unfold Road.add_car.
  destruct (Dict.get n (Road.lanes r)) as [lane|] eqn:Hlane; [| done].
  pose proof (Lane_add_car_cars h lane car) as Hcars.
  destruct (Lane.add_car h lane car) as [success lane']. simpl in *. split.
  - destruct (Dict_set_lookup n lane' (Road.lanes r)) as (i & v0 & Hi & Hg & ->);
      [by eexists |].
    rewrite Hlane in Hg. injection Hg as <-.
    unfold Road.get_all_cars, Dict.values. simpl.
    rewrite list_fmap_insert. simpl.
    apply bind_insert_elem_of with (x0 := lane).
    + by rewrite list_lookup_fmap, Hi.
    + rewrite Hcars. destruct success; [| done].
      rewrite elem_of_app, list_elem_of_singleton. naive_solver.
  - destruct success; [by apply car_call_other | done].
Qed.

Lemma Road_add_car_self h r car n :
  Car.wait_time ((Road.add_car h r car n).2 !!! car) = Car.wait_time (h !!! car)
  ∧ Car.direction ((Road.add_car h r car n).2 !!! car) = Car.direction (h !!! car)
  ∧ Car.position ((Road.add_car h r car n).2 !!! car) = Car.position (h !!! car)
  ∧ Car.car_id ((Road.add_car h r car n).2 !!! car) = Car.car_id (h !!! car).
Proof.
  unfold Road.add_car. destruct (Dict.get n (Road.lanes r)) as [lane|]; [| done].
  destruct (Lane.add_car h lane car) as [[] lane']; simpl; [| done].
  by rewrite car_call_self.
Qed.

Lemma add_car_to_intersection_frame h i car k :
  intersection_frame car (k, (Intersection.add_car_to_intersection h i car).2) (k, i).
Proof.
  unfold Intersection.add_car_to_intersection.
  case_match; simpl; [| by split].
  split; try done. intros c Hne. simpl.
  rewrite elem_of_app, list_elem_of_singleton. naive_solver.
Qed.

Lemma remove_car_from_intersection_frame i car k :
  intersection_frame car (k, (Intersection.remove_car_from_intersection i car).2) (k, i).
Proof.
  split; try done.
  - unfold Intersection.remove_car_from_intersection. by case_match.
  - unfold Intersection.remove_car_from_intersection. by case_match.
  - intros c Hne. simpl. rewrite Intersection_remove_car_cars.
    by apply py_list_remove_other.
Qed.

Lemma get_intersection_at_position_Some s pos idx kv :
  TrafficSimulation._get_intersection_at_position s pos = Some (idx, kv) →
  TrafficSimulation.intersections s !! idx = Some kv
  ∧ pos ∈ Intersection.intersection_positions kv.2.
Proof.
  unfold TrafficSimulation._get_intersection_at_position.
  intros (Hi & Hp & _)%list_find_Some. done.
Qed.

Lemma move_car_on_road_frame s car rid b s' :
  TrafficSimulation._move_car_on_road s car rid = Some (b, s') →
  move_frame car s s'.
Proof.
  unfold TrafficSimulation._move_car_on_road.
  destruct (Dict.get rid (TrafficSimulation.roads s)) as [road|]; simpl; [| done].
  case_bool_decide; [| intros [= <- <-]; apply wait_frame].
  case_match; simpl; [intros [= <- <-]; apply wait_frame |].
  destruct (TrafficSimulation._get_intersection_at_position s _)
    as [[idx [iid inter]]|] eqn:Hfind.
  - apply get_intersection_at_position_Some in Hfind as [Hidx _].
    destruct (Intersection.can_car_enter _ _ _ _) as [[|]|]; simpl;
      [| intros [= <- <-]; apply wait_frame | done].
    intros [= <- <-]. split; simpl; try done.
    + intros ref c Hne. by apply road_remove_car_others.
    + eapply Forall2_insert_l;
        [apply intersections_frame_refl | exact Hidx
        | apply add_car_to_intersection_frame].
    + intros c Hne. by apply car_call_other.
  - case_match; simpl; intros [= <- <-];
      [apply wait_frame | apply advance_frame].
Qed.

Lemma continue_in_intersection_frame s car inter b s' :
  TrafficSimulation.continue_in_intersection s car inter = (b, s') →
  move_frame car s s'.
Proof.
  unfold TrafficSimulation.continue_in_intersection.
  case_match; intros [= <- <-]; [apply advance_frame | apply wait_frame].
Qed.

Lemma move_car_in_intersection_frame s car iid b s' :
  TrafficSimulation._move_car_in_intersection s car iid = Some (b, s') →
  move_frame car s s'.
Proof.
  unfold TrafficSimulation._move_car_in_intersection.
  destruct (Dict.get iid (TrafficSimulation.intersections s)) as [inter|] eqn:Hget;
    simpl; [| done].
  destruct (Intersection.process_car_in_intersection _ _ _ _) as [exit_direction|];
    [| intros [= Hc]; by eapply continue_in_intersection_frame].
  destruct (Intersection.connected_roads inter !! exit_direction) as [exit_road|];
    [| intros [= Hc]; by eapply continue_in_intersection_frame].
  case_match; [| intros [= <- <-]; apply wait_frame].
  match goal with |- context [Road.add_car ?h ?r ?c ?n] =>
    pose proof (λ c', Road_add_car_others h r c n c') as Hothers;
    destruct (Road.add_car h r c n) as [[ok exit_road'] car_objs3] eqn:Hadd
  end.
  simpl in Hothers. intros [= <- <-]. split; simpl; try done.
  - intros ref c Hne. destruct (decide (exit_road = ref)) as [<-|Hr].
    + rewrite lookup_total_insert_eq. by apply Hothers.
    + by rewrite lookup_total_insert_ne.
  - destruct (Dict_set_lookup iid
                (Intersection.remove_car_from_intersection inter car).2
                (TrafficSimulation.intersections s))
      as (i & v0 & Hi & Hg & ->); [by eexists |].
    rewrite Hget in Hg. injection Hg as <-.
    eapply Forall2_insert_l;
      [apply intersections_frame_refl | exact Hi
      | apply remove_car_from_intersection_frame].
  - intros c Hne. destruct (Hothers c Hne) as [_ ->].
    by rewrite !car_call_other.
Qed.

Lemma move_car_frame s car b s' :
  TrafficSimulation.move_car s car = Some (b, s') → move_frame car s s'.
Proof.
  unfold TrafficSimulation.move_car.
  destruct (TrafficSimulation.find_car_location s car) as [road_id intersection_id].
  repeat case_match.
  - apply move_car_on_road_frame.
  - apply move_car_in_intersection_frame.
  - intros [= <- <-]. apply move_frame_refl.
Qed.

(** A move attempt of one car does not change where another car is found. *)
Lemma move_frame_find_car_location car s s' c :
  move_frame car s s' → c ≠ car →
  TrafficSimulation.find_car_location s' c = TrafficSimulation.find_car_location s c.
Proof.
  intros [Hroads _ Hrc Hint _] Hne. unfold TrafficSimulation.find_car_location.
  rewrite Hroads.
  rewrite (find_ext
             (λ kv : string * nat,
                py_in c (Road.get_all_cars (TrafficSimulation.road_objs s' !!! kv.2)))
             (λ kv : string * nat,
                py_in c (Road.get_all_cars (TrafficSimulation.road_objs s !!! kv.2)))).
  2: { intros kv _. unfold py_in. apply bool_decide_ext. by apply Hrc. }
  destruct (List.find _ (TrafficSimulation.roads s)) as [[rid ?]|]; [done |].
  pose proof (find_Forall2_key (intersection_frame car)
                (λ kv : string * Intersection.t,
                   py_in c (Intersection.cars_in_intersection kv.2))
                (TrafficSimulation.intersections s')
                (TrafficSimulation.intersections s)) as Hfind.
  lapply Hfind.
  - intros Hk. specialize (Hk Hint).
    destruct (List.find _ (TrafficSimulation.intersections s')) as [[k' ?]|];
      destruct (List.find _ (TrafficSimulation.intersections s)) as [[k ?]|];
      simpl in Hk; by simplify_eq.
  - intros x' x [Hkey _ _ Hoth]. split; [done |].
    unfold py_in. apply bool_decide_ext. by apply Hoth.
Qed.

(** The wait counter after one attempt. *)
Lemma move_car_on_road_wait s car rid b s' :
  TrafficSimulation._move_car_on_road s car rid = Some (b, s') →
  Car.wait_time (TrafficSimulation.car_objs s' !!! car)
  = if b then 0 else Car.wait_time (TrafficSimulation.car_objs s !!! car) + 1.
Proof.
  unfold TrafficSimulation._move_car_on_road.
  destruct (Dict.get rid (TrafficSimulation.roads s)) as [road|]; simpl; [| done].
  case_bool_decide; [| intros [= <- <-]; simpl; by rewrite car_call_self].
  case_match; simpl; [intros [= <- <-]; simpl; by rewrite car_call_self |].
  destruct (TrafficSimulation._get_intersection_at_position s _)
    as [[idx [iid inter]]|].
  - destruct (Intersection.can_car_enter _ _ _ _) as [[|]|]; simpl; [| | done];
      intros [= <- <-]; simpl; by rewrite car_call_self.
  - case_match; simpl; intros [= <- <-]; simpl; by rewrite car_call_self.
Qed.

Lemma continue_in_intersection_wait s car inter b s' :
  TrafficSimulation.continue_in_intersection s car inter = (b, s') →
  Car.wait_time (TrafficSimulation.car_objs s' !!! car)
  = if b then 0 else Car.wait_time (TrafficSimulation.car_objs s !!! car) + 1.
Proof.
  unfold TrafficSimulation.continue_in_intersection.
  case_match; intros [= <- <-]; simpl; by rewrite car_call_self.
Qed.

Lemma move_car_in_intersection_wait s car iid b s' :
  TrafficSimulation._move_car_in_intersection s car iid = Some (b, s') →
  Car.wait_time (TrafficSimulation.car_objs s' !!! car)
  = if b then 0 else Car.wait_time (TrafficSimulation.car_objs s !!! car) + 1.
Proof.
  unfold TrafficSimulation._move_car_in_intersection.
  destruct (Dict.get iid (TrafficSimulation.intersections s)) as [inter|];
    simpl; [| done].
  destruct (Intersection.process_car_in_intersection _ _ _ _) as [exit_direction|];
    [| intros [= Hc]; by eapply continue_in_intersection_wait].
  destruct (Intersection.connected_roads inter !! exit_direction) as [exit_road|];
    [| intros [= Hc]; by eapply continue_in_intersection_wait].
  case_match; [| intros [= <- <-]; simpl; by rewrite car_call_self].
  match goal with |- context [Road.add_car ?h ?r ?c ?n] =>
    pose proof (Road_add_car_self h r c n) as (Hw & _);
    destruct (Road.add_car h r c n) as [[ok exit_road'] car_objs3]
  end.
  simpl in Hw. intros [= <- <-]. simpl. rewrite Hw. by rewrite car_call_self.
Qed.

Lemma move_car_wait s car b s' :
  TrafficSimulation.move_car s car = Some (b, s') → located s car →
  Car.wait_time (TrafficSimulation.car_objs s' !!! car)
  = if b then 0 else Car.wait_time (TrafficSimulation.car_objs s !!! car) + 1.
Proof.
  unfold TrafficSimulation.move_car, located.
  destruct (TrafficSimulation.find_car_location s car) as [road_id intersection_id].
  simpl. destruct (py_truthy road_id); [intros ? _; by eapply move_car_on_road_wait |].
  destruct (py_truthy intersection_id);
    [intros ? _; by eapply move_car_in_intersection_wait | done].
Qed.

(** ** The signal update of a tick *)

Lemma update_all_lights_spec s s1 :
  TrafficSimulation.update_all_lights s = Some s1 →
  TrafficSimulation.car_objs s1 = TrafficSimulation.car_objs s
  ∧ TrafficSimulation.road_objs s1 = TrafficSimulation.road_objs s
  ∧ TrafficSimulation.roads s1 = TrafficSimulation.roads s
  ∧ TrafficSimulation.cars s1 = TrafficSimulation.cars s
  ∧ Forall2 (λ kv1 kv : string * Intersection.t,
               kv1.1 = kv.1
               ∧ Intersection.cars_in_intersection kv1.2
                 = Intersection.cars_in_intersection kv.2
               ∧ TrafficSimulation.update_lights kv.2 = Some kv1.2)
            (TrafficSimulation.intersections s1) (TrafficSimulation.intersections s).
Proof.
  unfold TrafficSimulation.update_all_lights.
  destruct (mapM _ (TrafficSimulation.intersections s)) as [l|] eqn:Hm; simpl; [| done].
  intros [= <-]. simpl. repeat split.
  apply mapM_Some in Hm. apply Forall2_flip.
  eapply Forall2_impl; [exact Hm |].
  intros [k i] [k1 i1]. simpl.
  destruct (TrafficSimulation.update_lights i) as [i'|] eqn:Hu; simpl; [| done].
  intros [= <- <-]. repeat split.
  unfold TrafficSimulation.update_lights in Hu.
  destruct (TrafficLightController.update_automatic_cycle _); simpl in Hu; [| done].
  by injection Hu as <-.
Qed.

Lemma update_all_lights_find_car_location s s1 c :
  TrafficSimulation.update_all_lights s = Some s1 →
  TrafficSimulation.find_car_location s1 c = TrafficSimulation.find_car_location s c.
Proof.
  intros (Hobjs & Hroad_objs & Hroads & _ & Hint)%update_all_lights_spec.
  unfold TrafficSimulation.find_car_location. rewrite Hroads, Hroad_objs.
  destruct (List.find _ (TrafficSimulation.roads s)) as [[rid ?]|]; [done |].
  pose proof (find_Forall2_key _
                (λ kv : string * Intersection.t,
                   py_in c (Intersection.cars_in_intersection kv.2))
                (TrafficSimulation.intersections s1)
                (TrafficSimulation.intersections s)
                (λ x' x H, conj (proj1 H)
                                (f_equal (py_in c) (proj1 (proj2 H)))) Hint) as Hk.
  destruct (List.find _ (TrafficSimulation.intersections s1)) as [[k' ?]|];
    destruct (List.find _ (TrafficSimulation.intersections s)) as [[k ?]|];
    simpl in Hk; by simplify_eq.
Qed.

(** ** A tick returns *)

Lemma Dict_get_is_Some {K V} `{EqDecision K} (k : K) (v : V) d :
  (k, v) ∈ d → is_Some (Dict.get k d).
Proof.
  induction d as [|[k' v'] d IH]; simpl.
  - by intros ?%elem_of_nil.
  - intros [Heq|Hin]%elem_of_cons; destruct (decide (k = k')); eauto.
    by simplify_eq.
Qed.

Lemma find_Some_elem_of {A} (p : A → bool) (l : list A) x :
  List.find p l = Some x → x ∈ l.
Proof. intros [Hin _]%find_some. by apply list_elem_of_In. Qed.

Lemma set_in_is_Some d' st (ls : gmap Direction TrafficLight.t) d :
  is_Some (ls !! d) → is_Some (TrafficLightController.set_in d' st ls !! d).
Proof.
  rewrite set_in_lookup. intros [l Hl].
  case_decide; subst; rewrite ?Hl; by eexists.
Qed.

Lemma update_automatic_cycle_lights c c' d :
  TrafficLightController.update_automatic_cycle c = Some c' →
  is_Some (TrafficLightController.lights c !! d) →
  is_Some (TrafficLightController.lights c' !! d).
Proof.
  unfold TrafficLightController.update_automatic_cycle. intros Hu [l Hl].
  repeat (case_match; simplify_option_eq); simpl;
    do 2 apply set_in_is_Some; rewrite lookup_fmap, Hl; by eexists.
Qed.

Lemma controllers_ready_update s :
  controllers_ready s = true →
  ∃ s1, TrafficSimulation.update_all_lights s = Some s1 ∧ lights_present s1.
Proof.
  unfold controllers_ready. rewrite forallb_forall. intros Hall.
  assert (is_Some (mapM (λ kv : string * Intersection.t,
                           i ← TrafficSimulation.update_lights kv.2; Some (kv.1, i))
                        (TrafficSimulation.intersections s))) as [l Hl].
  { apply mapM_is_Some, Forall_forall. intros kv Hkv.
    apply list_elem_of_In, Hall, andb_true_iff in Hkv as [Hu _].
    apply bool_decide_eq_true in Hu as [c Hc]. simpl.
    unfold TrafficSimulation.update_lights. rewrite Hc. simpl. by eexists. }
  exists (TrafficSimulation.set_intersections l s).
  unfold TrafficSimulation.update_all_lights. rewrite Hl. simpl.
  split; [done |]. intros kv1 d Hkv1. simpl in Hkv1.
  apply mapM_Some in Hl. apply list_elem_of_lookup in Hkv1 as [i Hi].
  destruct (Forall2_lookup_r _ _ _ _ _ Hl Hi) as (kv & Hkv & Hf).
  apply list_elem_of_lookup_2, list_elem_of_In, Hall, andb_true_iff in Hkv as [_ Hd].
  rewrite forallb_forall in Hd.
  assert (is_Some (TrafficLightController.lights
                     (Intersection.traffic_controller kv.2) !! d)) as Hsome.
  { assert (In d Direction_members) as Hin by (destruct d; simpl; tauto).
    apply Hd in Hin. by apply bool_decide_eq_true in Hin. }
  unfold TrafficSimulation.update_lights in Hf.
  destruct (TrafficLightController.update_automatic_cycle _) as [c|] eqn:Hc;
    simpl in Hf; [| done].
  injection Hf as <-. unfold Intersection.light_for. simpl.
  rewrite lookup_fmap.
  destruct (update_automatic_cycle_lights _ _ d Hc Hsome) as [l' ->]. by eexists.
Qed.

Lemma move_frame_lights_present car s s' :
  move_frame car s s' → lights_present s → lights_present s'.
Proof.
  intros [_ _ _ Hint _] Hl kv' d Hkv'.
  apply list_elem_of_lookup in Hkv' as [i Hi].
  destruct (Forall2_lookup_l _ _ _ _ _ Hint Hi) as (kv & Hkv & [_ Hc _ _]).
  unfold Intersection.light_for. rewrite Hc.
  eapply Hl, list_elem_of_lookup_2, Hkv.
Qed.

Lemma move_car_returns s car :
  lights_present s → is_Some (TrafficSimulation.move_car s car).
Proof.
  intros Hl. unfold TrafficSimulation.move_car, TrafficSimulation.find_car_location.
  destruct (List.find _ (TrafficSimulation.roads s)) as [[rid road]|] eqn:Hroad.
  - simpl. destruct rid as [|a rid]; simpl; [by eexists |].
    apply find_Some_elem_of, Dict_get_is_Some in Hroad as [r Hr].
    unfold TrafficSimulation._move_car_on_road. rewrite Hr. simpl.
    case_bool_decide; [| by eexists].
    case_match; [by eexists |].
    destruct (TrafficSimulation._get_intersection_at_position s _)
      as [[idx [iid inter]]|] eqn:Hfind; [| case_match; by eexists].
    apply get_intersection_at_position_Some in Hfind as [Hidx _].
    apply list_elem_of_lookup_2 in Hidx.
    unfold Intersection.can_car_enter.
    destruct (Hl _ (Car.direction (TrafficSimulation.car_objs s !!! car)) Hidx)
      as [light Hlight].
    simpl in Hlight. rewrite Hlight.
    simpl. repeat (case_match; simpl); by eexists.
  - destruct (List.find _ (TrafficSimulation.intersections s)) as [[iid inter]|] eqn:Hint;
      [| by eexists].
    simpl. destruct iid as [|a iid]; simpl; [by eexists |].
    apply find_Some_elem_of, Dict_get_is_Some in Hint as [i Hi].
    unfold TrafficSimulation._move_car_in_intersection,
      TrafficSimulation.continue_in_intersection. rewrite Hi. simpl.
    repeat case_match; by eexists.
Qed.

Lemma move_cars_returns cars_to_move : ∀ s,
  lights_present s → is_Some (TrafficSimulation.move_cars cars_to_move s).
Proof.
  induction cars_to_move as [|car rest IH]; intros s Hl; simpl; [by eexists |].
  destruct (move_car_returns s car Hl) as [[b s1] Hm]. rewrite Hm. simpl.
  destruct (IH s1) as [r Hr];
    [by eapply move_frame_lights_present; [eapply move_car_frame |] |].
  rewrite Hr. simpl. by eexists.
Qed.

Lemma tick_log_returns cars_to_move s :
  controllers_ready s = true →
  is_Some (TrafficSimulation.tick_log cars_to_move s).
Proof.
  intros Hready. unfold TrafficSimulation.tick_log.
  destruct (controllers_ready_update
              (TrafficSimulation.set_tick_count
                 (TrafficSimulation.tick_count s + 1) s) Hready)
    as (s1 & -> & Hl).
  simpl. by apply move_cars_returns.
Qed.

(** ** Wait counters over a tick *)

Lemma move_cars_spec cars_to_move : ∀ s (log : list bool) s',
  NoDup cars_to_move →
  TrafficSimulation.move_cars cars_to_move s = Some (log, s') →
  length log = length cars_to_move
  ∧ (∀ c, c ∉ cars_to_move →
       TrafficSimulation.car_objs s' !!! c = TrafficSimulation.car_objs s !!! c)
  ∧ (∀ i car (b : bool),
       cars_to_move !! i = Some car → log !! i = Some b → located s car →
       Car.wait_time (TrafficSimulation.car_objs s' !!! car)
       = if b then 0 else Car.wait_time (TrafficSimulation.car_objs s !!! car) + 1).
Proof.
  induction cars_to_move as [|c0 rest IH]; intros s log s' Hnd; simpl.
  - intros [= <- <-]. split; [done |]. split; [done |]. intros i car b Hi. by rewrite lookup_nil in Hi.
  - apply NoDup_cons in Hnd as [Hc0 Hnd].
    destruct (TrafficSimulation.move_car s c0) as [[b0 s1]|] eqn:Hm; simpl; [| done].
    destruct (TrafficSimulation.move_cars rest s1) as [[log1 s2]|] eqn:Hr; simpl;
      [| done].
    intros [= <- <-].
    destruct (IH _ _ _ Hnd Hr) as (Hlen & Hout & Hin).
    pose proof (move_car_frame _ _ _ _ Hm) as Hframe.
    split; [simpl; by rewrite Hlen |]. split.
    + intros c [Hne Hc]%not_elem_of_cons.
      rewrite (Hout c Hc). by apply (mf_objs _ _ _ Hframe).
    + intros [|i] car b Hcar Hb Hloc; simpl in Hcar, Hb.
      * simplify_eq. rewrite (Hout _ Hc0). by eapply move_car_wait.
      * assert (car ≠ c0) as Hne.
        { intros ->. apply Hc0. by eapply list_elem_of_lookup_2. }
        rewrite <-(mf_objs _ _ _ Hframe car Hne).
        apply (Hin i); [done | done |].
        unfold located.
        by rewrite (move_frame_find_car_location _ _ _ _ Hframe Hne).
Qed.

(** C6, as amended.  When the car list holds no car twice and the signals
    can be advanced, a tick returns, and every car of the car list that
    [find_car_location] finds in a road or an intersection receives exactly
    one move attempt; its wait counter after the tick is 0 if the attempt
    succeeded and its value before the tick plus one if it failed. *)
Theorem tick_wait_counters (s : TrafficSimulation.t) (cars_to_move : list CarRef) :
  controllers_ready s = true →
  NoDup (TrafficSimulation.cars s) →
  cars_to_move ≡ₚ TrafficSimulation.cars s →
  ∃ log s',
    TrafficSimulation.tick_log cars_to_move s = Some (log, s')
    ∧ length log = length cars_to_move
    ∧ ∀ car, car ∈ TrafficSimulation.cars s → located s car →
        ∃ i (b : bool), cars_to_move !! i = Some car
               ∧ (∀ j, cars_to_move !! j = Some car → j = i)
               ∧ log !! i = Some b
               ∧ Car.wait_time (TrafficSimulation.car_objs s' !!! car)
                 = if b then 0
                   else Car.wait_time (TrafficSimulation.car_objs s !!! car) + 1.
Proof.
  intros Hready Hnd Hperm.
  destruct (tick_log_returns cars_to_move s Hready) as [[log s'] Htick].
  exists log, s'. split; [done |].
  unfold TrafficSimulation.tick_log in Htick.
  destruct (TrafficSimulation.update_all_lights _) as [s1|] eqn:Hu; simpl in Htick;
    [| done].
  assert (NoDup cars_to_move) as Hnd' by (by rewrite Hperm).
  destruct (move_cars_spec _ _ _ _ Hnd' Htick) as (Hlen & _ & Hin).
  split; [done |]. intros car Hcar Hloc.
  rewrite <-Hperm in Hcar. apply list_elem_of_lookup in Hcar as [i Hi].
  destruct (lookup_lt_is_Some_2 log i) as [b Hb];
    [rewrite Hlen; by eapply lookup_lt_Some |].
  exists i, b. split; [done |]. split; [| split; [done |]].
  - intros j Hj. by eapply NoDup_lookup.
  - pose proof (update_all_lights_spec _ _ Hu) as (Hobjs & _).
    simpl in Hobjs. rewrite <-Hobjs. apply (Hin i); [done | done |].
    unfold located. by rewrite (update_all_lights_find_car_location _ _ _ Hu).
Qed.

(** ** Entering an intersection *)

Lemma can_car_enter_permitted h inter car d :
  Intersection.can_car_enter h inter car d = Some true →
  ∃ light, Intersection.light_for inter d = Some light
           ∧ permitted (Car.intended_movement (h !!! car)) (TrafficLight.state light).
Proof.
  unfold Intersection.can_car_enter.
  destruct (Intersection.light_for inter d) as [light|]; simpl; [| done].
  intros Hok. exists light. split; [done |].
  unfold TrafficLight.can_go_straight, TrafficLight.can_turn_left,
    TrafficLight.can_turn_right in Hok.
  destruct (Car.intended_movement (h !!! car)), (TrafficLight.state light);
    simpl in *; try done; auto.
Qed.

Lemma move_car_on_road_entry s car rid b s' idx :
  TrafficSimulation._move_car_on_road s car rid = Some (b, s') →
  car ∉ active_at s idx → car ∈ active_at s' idx →
  ∃ st, signal_at s idx (Car.direction (TrafficSimulation.car_objs s !!! car)) = Some st
        ∧ permitted (Car.intended_movement (TrafficSimulation.car_objs s !!! car)) st.
Proof.
  unfold TrafficSimulation._move_car_on_road.
  destruct (Dict.get rid (TrafficSimulation.roads s)) as [road|]; simpl; [| done].
  case_bool_decide; [| by intros [= <- <-]].
  case_match; simpl; [by intros [= <- <-] |].
  destruct (TrafficSimulation._get_intersection_at_position s _)
    as [[idx0 [iid inter]]|] eqn:Hfind; [| case_match; by intros [= <- <-]].
  apply get_intersection_at_position_Some in Hfind as [Hidx _].
  destruct (Intersection.can_car_enter _ _ _ _) as [[|]|] eqn:Hcan; simpl;
    [| by intros [= <- <-] | done].
  intros [= <- <-] Hout Hin. unfold active_at in Hin. simpl in Hin.
  destruct (decide (idx0 = idx)) as [<-|Hne].
  - apply can_car_enter_permitted in Hcan as (light & Hlight & Hperm).
    exists (TrafficLight.state light). split; [| done].
    unfold signal_at. rewrite Hidx. simpl. by rewrite Hlight.
  - rewrite list_lookup_insert_ne in Hin by done. done.
Qed.

Lemma move_car_in_intersection_no_entry s car iid b s' idx c :
  TrafficSimulation._move_car_in_intersection s car iid = Some (b, s') →
  c ∈ active_at s' idx → c ∈ active_at s idx.
Proof.
  unfold TrafficSimulation._move_car_in_intersection.
  destruct (Dict.get iid (TrafficSimulation.intersections s)) as [inter|] eqn:Hget;
    simpl; [| done].
  assert (∀ r, TrafficSimulation.continue_in_intersection s car inter = r →
               TrafficSimulation.intersections r.2 = TrafficSimulation.intersections s)
    as Hcont.
  { intros r <-. unfold TrafficSimulation.continue_in_intersection. by case_match. }
  destruct (Intersection.process_car_in_intersection _ _ _ _) as [exit_direction|];
    [| intros [= Hc]; unfold active_at; by rewrite <-(Hcont _ Hc)].
  destruct (Intersection.connected_roads inter !! exit_direction) as [exit_road|];
    [| intros [= Hc]; unfold active_at; by rewrite <-(Hcont _ Hc)].
  case_match; [| by intros [= <- <-]].
  destruct (Road.add_car _ _ _ _) as [[ok exit_road'] car_objs3].
  intros [= <- <-]. unfold active_at. simpl.
  destruct (Dict_set_lookup iid
              (Intersection.remove_car_from_intersection inter car).2
              (TrafficSimulation.intersections s))
    as (i & v0 & Hi & Hg & ->); [by eexists |].
  rewrite Hget in Hg. injection Hg as <-.
  destruct (decide (i = idx)) as [<-|Hne].
  - rewrite list_lookup_insert_eq by (by eapply lookup_lt_Some).
    rewrite Hi. simpl. rewrite Intersection_remove_car_cars.
    apply py_list_remove_subseteq.
  - by rewrite list_lookup_insert_ne.
Qed.

Lemma move_car_entry s car b s' idx :
  TrafficSimulation.move_car s car = Some (b, s') →
  car ∉ active_at s idx → car ∈ active_at s' idx →
  ∃ st, signal_at s idx (Car.direction (TrafficSimulation.car_objs s !!! car)) = Some st
        ∧ permitted (Car.intended_movement (TrafficSimulation.car_objs s !!! car)) st.
Proof.
  unfold TrafficSimulation.move_car.
  destruct (TrafficSimulation.find_car_location s car) as [road_id intersection_id].
  repeat case_match.
  - apply move_car_on_road_entry.
  - intros Hm Hout Hin. destruct Hout.
    by eapply move_car_in_intersection_no_entry.
  - by intros [= <- <-].
Qed.

Lemma move_frame_signal car s s' idx d :
  move_frame car s s' → signal_at s' idx d = signal_at s idx d.
Proof.
  intros [_ _ _ Hint _]. unfold signal_at.
  apply Forall2_same_length_lookup in Hint as [Hlen Hint].
  destruct (TrafficSimulation.intersections s' !! idx) as [kv'|] eqn:Hkv'.
  - destruct (lookup_lt_is_Some_2 (TrafficSimulation.intersections s) idx) as [kv Hkv];
      [rewrite <-Hlen; by eapply lookup_lt_Some |].
    rewrite Hkv. simpl. destruct (Hint _ _ _ Hkv' Hkv) as [_ Hc _ _].
    unfold Intersection.light_for. by rewrite Hc.
  - apply lookup_ge_None in Hkv'. rewrite Hlen in Hkv'.
    apply lookup_ge_None in Hkv'. by rewrite Hkv'.
Qed.

Lemma move_cars_signal cars_to_move : ∀ s log s' idx d,
  TrafficSimulation.move_cars cars_to_move s = Some (log, s') →
  signal_at s' idx d = signal_at s idx d.
Proof.
  induction cars_to_move as [|c0 rest IH]; intros s log s' idx d; simpl.
  - by intros [= <- <-].
  - destruct (TrafficSimulation.move_car s c0) as [[b0 s1]|] eqn:Hm; simpl; [| done].
    destruct (TrafficSimulation.move_cars rest s1) as [[log1 s2]|] eqn:Hr; simpl;
      [| done].
    intros [= <- <-]. rewrite (IH _ _ _ idx d Hr).
    eapply move_frame_signal, move_car_frame, Hm.
Qed.

Lemma move_cars_app l1 l2 s r :
  TrafficSimulation.move_cars (l1 ++ l2) s = Some r →
  ∃ log1 s1 r2,
    TrafficSimulation.move_cars l1 s = Some (log1, s1)
    ∧ TrafficSimulation.move_cars l2 s1 = Some r2
    ∧ r = (log1 ++ r2.1, r2.2).
Proof.
  revert s r. induction l1 as [|c0 l1 IH]; intros s r; simpl.
  - intros Hr. exists [], s, r. by destruct r.
  - destruct (TrafficSimulation.move_car s c0) as [[b0 s0]|]; simpl; [| done].
    destruct (TrafficSimulation.move_cars (l1 ++ l2) s0) as [r0|] eqn:Hr0; simpl;
      [| done].
    intros [= <-]. destruct (IH _ _ Hr0) as (log1 & s1 & r2 & -> & Hr2 & ->).
    simpl. by exists (b0 :: log1), s1, r2.
Qed.

(** C3.  In a tick that completes, take any place of the processing order:
    the attempt of the car at that place is made in a state [sa] reached by
    the attempts before it, from the state [s1] in which the signals were
    advanced.  If that attempt puts the car into an intersection's active
    set, the signal of that intersection for the car's heading, in [s1] and
    still in [sa], is GREEN_ARROW when the car intends LEFT, GREEN or
    GREEN_ARROW when it intends STRAIGHT, and not RED when it intends
    RIGHT. *)
Theorem signal_gated_entry (s : TrafficSimulation.t)
    (before after : list CarRef) (car : CarRef) r :
  TrafficSimulation.tick_log (before ++ car :: after) s = Some r →
  ∃ s1 log sa b sb,
    TrafficSimulation.update_all_lights
      (TrafficSimulation.set_tick_count (TrafficSimulation.tick_count s + 1) s)
    = Some s1
    ∧ TrafficSimulation.move_cars before s1 = Some (log, sa)
    ∧ TrafficSimulation.move_car sa car = Some (b, sb)
    ∧ ∀ idx, car ∉ active_at sa idx → car ∈ active_at sb idx →
        ∃ st,
          signal_at s1 idx (Car.direction (TrafficSimulation.car_objs sa !!! car))
          = Some st
          ∧ signal_at sa idx (Car.direction (TrafficSimulation.car_objs sa !!! car))
            = Some st
          ∧ permitted
              (Car.intended_movement (TrafficSimulation.car_objs sa !!! car)) st.
Proof.
  unfold TrafficSimulation.tick_log.
  destruct (TrafficSimulation.update_all_lights _) as [s1|]; simpl; [| done].
  intros (log & sa & r2 & Hbefore & Hrest & _)%move_cars_app.
  simpl in Hrest.
  destruct (TrafficSimulation.move_car sa car) as [[b sb]|] eqn:Hm; simpl in Hrest;
    [| done].
  exists s1, log, sa, b, sb. repeat split; try done.
  intros idx Hout Hin.
  destruct (move_car_entry _ _ _ _ idx Hm Hout Hin) as (st & Hsig & Hperm).
  exists st. by rewrite <-(move_cars_signal _ _ _ _ idx _ Hbefore).
Qed.

(** ** Steps inside an intersection *)



(** ** Determinism *)


(** ** The engine on the reference topology *)

(** C1.  The occupancy invariant is broken on the reference topology.
    First run: car 0 crosses southward and stands on (11, 10); car 1 is
    registered on the free cell (12, 11) of lane 1 of the south road,
    heading west, and moves first in the next tick, to the free cell
    (12, 10); car 0 then leaves the intersection onto (12, 10) as well,
    because [Road.is_position_free] only looks at the cars in the list of
    the lane that owns the cell.  Second run: [add_car] registers two cars
    on the cell (4, 10).  Both runs end with two distinct cars of the car
    list, each found on a road, on one cell. *)
Theorem occupancy_broken_on_four_way :
  (s ← run_ops collision_ops collision_world;
   Some (TrafficSimulation.cars s,
         Car.position (TrafficSimulation.car_objs s !!! 0%nat),
         Car.position (TrafficSimulation.car_objs s !!! 1%nat),
         TrafficSimulation.find_car_location s 0%nat,
         TrafficSimulation.find_car_location s 1%nat))
  = Some ([0; 1]%nat, (12, 10), (12, 10),
          (Some "south_road", None), (Some "south_road", None))
  ∧ (s ← run_ops same_cell_ops same_cell_world;
     Some (TrafficSimulation.cars s,
           Car.position (TrafficSimulation.car_objs s !!! 0%nat),
           Car.position (TrafficSimulation.car_objs s !!! 1%nat)))
    = Some ([0; 1]%nat, (4, 10), (4, 10)).
Proof. split; vm_compute; reflexivity. Qed.

(** C2.  Exclusive containment is broken on the reference topology.  Cars 1
    to 5 are registered on the five cells of lane 0 of the south road and
    drive west; they stay in the list of the lane, which is then full
    although its cells are free.  Car 0 crosses southward and in the fourth
    tick leaves the intersection for (12, 10): it is taken out of the
    active set, [exit_road.add_car] returns False, and the result is not
    looked at.  Car 0 is then in the car list and in no container:
    [find_car_location] returns (None, None). *)
Theorem containment_broken_on_four_way :
  (s ← run_ops lost_car_ops lost_car_world;
   Some (py_in 0%nat (TrafficSimulation.cars s),
         TrafficSimulation.find_car_location s 0%nat,
         Car.position (TrafficSimulation.car_objs s !!! 0%nat)))
  = Some (true, (None, None), (12, 10)).
Proof. vm_compute. reflexivity. Qed.

(** C6, counterexample.  First run: [add_car] accepts the same car object
    twice, before a red light; the car list holds it twice, the tick makes
    two attempts for it, both fail, and its wait counter goes from 0 to 2.
    Second run: after the run that loses car 0, car 0 is in the car list; in
    the next tick its attempt fails and its wait counter is what it was, 0,
    not 1. *)
Lemma wait_counter_not_plus_one :
  (s ← run_ops waiting_twice_ops waiting_world;
   r ← TrafficSimulation.tick_log (TrafficSimulation.cars s) s;
   Some (TrafficSimulation.cars s, r.1,
         Car.wait_time (TrafficSimulation.car_objs s !!! 0%nat),
         Car.wait_time (TrafficSimulation.car_objs r.2 !!! 0%nat)))
  = Some ([0; 0]%nat, [false; false], 0, 2)
  ∧ (s ← run_ops lost_car_ops lost_car_world;
     r ← TrafficSimulation.tick_log lost_car_order s;
     Some (py_in 0%nat (TrafficSimulation.cars s),
           r.1 !! 0%nat,
           Car.wait_time (TrafficSimulation.car_objs s !!! 0%nat),
           Car.wait_time (TrafficSimulation.car_objs r.2 !!! 0%nat)))
    = Some (true, Some false, 0, 0).
Proof. split; vm_compute; reflexivity. Qed.


(** C9, counterexample.  [add_car] accepts the same car object twice on
    lane 0 of the north road.  After one [remove_car] the car is still in
    the car list and on the road, and a second [remove_car] changes the
    car list again. *)
Lemma remove_car_twice_differs :
  (s ← run_ops twice_ops crossing_world;
   let s1 := TrafficSimulation.remove_car s 0%nat in
   let s2 := TrafficSimulation.remove_car s1 0%nat in
   Some (TrafficSimulation.cars s, TrafficSimulation.cars s1,
         TrafficSimulation.find_car_location s1 0%nat,
         TrafficSimulation.cars s2))
  = Some ([0; 0]%nat, [0%nat], (Some "north_road", None), []).
Proof. vm_compute. reflexivity. Qed.

(** ** The theorems at work on the reference topology *)

(** [add_car_contract] on the reference topology, for a car created at
    (8, 10). *)
Lemma add_car_contract_witness :
  roads_constructed crossing_world = true
  ∧ ((TrafficSimulation.add_car crossing_world 0%nat "north_road" 0).1 = true
     ↔ add_car_accepts crossing_world 0%nat "north_road" 0).
Proof.
  split; [vm_compute; reflexivity |].
  apply (add_car_contract crossing_world 0%nat "north_road" 0).
  vm_compute; reflexivity.
Defined.

(** [remove_car_contract] for the car registered on the north road. *)
Lemma remove_car_contract_witness :
  registered_once crossing_registered = true
  ∧ TrafficSimulation.remove_car
      (TrafficSimulation.remove_car crossing_registered 0%nat) 0%nat
    = TrafficSimulation.remove_car crossing_registered 0%nat.
Proof.
  split; [vm_compute; reflexivity |].
  apply (remove_car_contract crossing_registered 0%nat).
  vm_compute; reflexivity.
Defined.

(** [tick_wait_counters] for the first tick of the registered car. *)
Lemma tick_wait_counters_witness :
  controllers_ready crossing_registered = true
  ∧ NoDup (TrafficSimulation.cars crossing_registered)
  ∧ [0%nat] ≡ₚ TrafficSimulation.cars crossing_registered
  ∧ ∃ log s',
      TrafficSimulation.tick_log [0%nat] crossing_registered = Some (log, s')
      ∧ length log = 1%nat.
Proof.
  assert (controllers_ready crossing_registered = true) as H1
    by (vm_compute; reflexivity).
  assert (NoDup (TrafficSimulation.cars crossing_registered)) as H2
    by (vm_compute; apply NoDup_singleton).
  assert ([0%nat] ≡ₚ TrafficSimulation.cars crossing_registered) as H3
    by (vm_compute; reflexivity).
  split; [done |]. split; [done |]. split; [done |].
  destruct (tick_wait_counters crossing_registered [0%nat] H1 H2 H3)
    as (log & s' & Htick & Hlen & _).
  by exists log, s'.
Defined.

(** [signal_gated_entry] for the first tick of the registered car, which
    takes it into the intersection. *)
Lemma signal_gated_entry_witness :
  TrafficSimulation.tick_log ([] ++ 0%nat :: []) crossing_registered
  = Some (default ([], crossing_registered)
                  (TrafficSimulation.tick_log [0%nat] crossing_registered))
  ∧ ∃ s1 sa, TrafficSimulation.move_cars [] s1 = Some ([], sa)
             ∧ is_Some (TrafficSimulation.move_car sa 0%nat).
Proof.
  assert (TrafficSimulation.tick_log ([] ++ 0%nat :: []) crossing_registered
          = Some (default ([], crossing_registered)
                          (TrafficSimulation.tick_log [0%nat] crossing_registered)))
    as H by (vm_compute; reflexivity).
  split; [done |].
  destruct (signal_gated_entry crossing_registered [] [] 0%nat _ H)
    as (s1 & log & sa & b & sb & _ & Hbefore & Hmove & _).
  exists s1, sa. split; [| by eexists].
  simpl in Hbefore. by injection Hbefore as <- <-.
Defined.




(** * More of the engine *)

(** ** Overrides and the automatic cycle *)

Lemma fmap_red_set_in d st (ls : gmap Direction TrafficLight.t) :
  TrafficLight.set_state RED 0 <$> TrafficLightController.set_in d st ls
  = TrafficLight.set_state RED 0 <$> ls.
Proof.
  unfold TrafficLightController.set_in.
  destruct (ls !! d) as [l|] eqn:Hl; [| done].
  rewrite fmap_insert. apply insert_id. by rewrite lookup_fmap, Hl.
Qed.

Lemma update_automatic_cycle_set_light_state d st c :
  TrafficLightController.update_automatic_cycle
    (TrafficLightController.set_light_state d st c)
  = TrafficLightController.update_automatic_cycle c.
Proof.
  unfold TrafficLightController.update_automatic_cycle. simpl.
  by rewrite fmap_red_set_in.
Qed.

Lemma update_lights_override d st i :
  TrafficSimulation.update_lights
    (Intersection.set_traffic_controller
       (TrafficLightController.set_light_state d st
          (Intersection.traffic_controller i)) i)
  = TrafficSimulation.update_lights i.
Proof.
  unfold TrafficSimulation.update_lights. simpl.
  rewrite update_automatic_cycle_set_light_state.
  by destruct (TrafficLightController.update_automatic_cycle _).
Qed.

Lemma mapM_Dict_set {K V B} `{EqDecision K} (g : K * V → option B) k v v'
    (d : list (K * V)) :
  Dict.get k d = Some v → g (k, v') = g (k, v) →
  mapM g (Dict.set k v' d) = mapM g d.
Proof.
  intros Hget Hg. induction d as [|[k0 v0] d IH]; simpl in *; [done |].
  destruct (decide (k = k0)) as [->|Hne].
  - injection Hget as ->. simpl. by rewrite Hg.
  - simpl. by rewrite IH.
Qed.

(** X1.  An override made through [set_traffic_light] does not reach the
    next tick: the tick after the override is the tick without it, state
    and results of the move attempts alike, because the automatic cycle
    rewrites the state and the timer of every light before any car moves. *)
Theorem override_lost_in_next_tick (s : TrafficSimulation.t)
    (intersection_id : string) (d : Direction) (st : TrafficLightState)
    (cars_to_move : list CarRef) :
  TrafficSimulation.tick_log cars_to_move
    (TrafficSimulation.set_traffic_light s intersection_id d st).2
  = TrafficSimulation.tick_log cars_to_move s.
Proof.
  unfold TrafficSimulation.set_traffic_light.
  destruct (Dict.get intersection_id (TrafficSimulation.intersections s))
    as [inter|] eqn:Hget; [| done].
  unfold TrafficSimulation.tick_log, TrafficSimulation.update_all_lights. simpl.
  rewrite (mapM_Dict_set _ _ inter); [done | done |].
  simpl. by rewrite update_lights_override.
Qed.

(** X2.  [set_traffic_light] returns True exactly for a known intersection.
    It then sets the state of the light of the given direction of that
    intersection (if it has one) and changes no other signal, no active
    set, no car, no road and no counter; for an unknown intersection the
    state is what it was. *)
Theorem set_traffic_light_contract (s : TrafficSimulation.t)
    (intersection_id : string) (d : Direction) (st : TrafficLightState) :
  let r := TrafficSimulation.set_traffic_light s intersection_id d st in
  (r.1 = true
   ↔ is_Some (Dict.get intersection_id (TrafficSimulation.intersections s)))
  ∧ (r.1 = false → r.2 = s)
  ∧ TrafficSimulation.car_objs r.2 = TrafficSimulation.car_objs s
  ∧ TrafficSimulation.road_objs r.2 = TrafficSimulation.road_objs s
  ∧ TrafficSimulation.roads r.2 = TrafficSimulation.roads s
  ∧ TrafficSimulation.cars r.2 = TrafficSimulation.cars s
  ∧ TrafficSimulation.tick_count r.2 = TrafficSimulation.tick_count s
  ∧ TrafficSimulation.car_entry_directions r.2
    = TrafficSimulation.car_entry_directions s
  ∧ (∀ idx, active_at r.2 idx = active_at s idx)
  ∧ (r.1 = true →
     ∃ i inter,
       TrafficSimulation.intersections s !! i = Some (intersection_id, inter)
       ∧ Dict.get intersection_id (TrafficSimulation.intersections s) = Some inter
       ∧ ∀ idx d',
           signal_at r.2 idx d'
           = if decide (idx = i ∧ d' = d)
             then (λ _, st) <$> Intersection.light_for inter d
             else signal_at s idx d').
Proof.
  intros r. subst r. unfold TrafficSimulation.set_traffic_light.
  destruct (Dict.get intersection_id (TrafficSimulation.intersections s))
    as [inter|] eqn:Hget; simpl.
  2: { repeat split; try done; try (by intros [? ?]). }
  destruct (Dict_set_lookup intersection_id
              (Intersection.set_traffic_controller
                 (TrafficLightController.set_light_state d st
                    (Intersection.traffic_controller inter)) inter)
              (TrafficSimulation.intersections s))
    as (i & v0 & Hi & Hg & Hset); [by eexists |].
  rewrite Hget in Hg. injection Hg as <-.
  split; [split; [by eexists | done] |]. split; [done |].
  repeat (split; [done |]). split.
  - intros idx. unfold active_at. simpl. rewrite Hset.
    destruct (decide (i = idx)) as [<-|Hne].
    + rewrite list_lookup_insert_eq by (by eapply lookup_lt_Some). by rewrite Hi.
    + by rewrite list_lookup_insert_ne.
  - intros _. exists i, inter. split; [done |]. split; [done |].
    intros idx d'. unfold signal_at. simpl. rewrite Hset.
    destruct (decide (i = idx)) as [<-|Hne].
    + rewrite list_lookup_insert_eq by (by eapply lookup_lt_Some). rewrite Hi. simpl.
      unfold Intersection.light_for. simpl. rewrite set_in_lookup.
      destruct (decide (d = d')) as [<-|Hd].
      * rewrite decide_True by done.
        by destruct (TrafficLightController.lights _ !! d).
      * rewrite decide_False by (intros [_ ?]; done). done.
    + rewrite list_lookup_insert_ne by done.
      rewrite decide_False by (intros [? _]; done). done.
Qed.

(** ** Lights *)

Lemma existsb_position_false (h : CarHeap) (pos : Pos) (l : list CarRef) :
  existsb (λ car, bool_decide (Car.position (h !!! car) = pos)) l = false
  ↔ ∀ car, car ∈ l → Car.position (h !!! car) ≠ pos.
Proof.
  induction l as [|c l IH]; simpl.
  - split; [by intros _ ? ?%elem_of_nil | done].
  - rewrite orb_false_iff, IH, bool_decide_eq_false. split.
    + intros [Hc Hl] car [->|Hin]%elem_of_cons; auto.
    + intros Hall. split; [apply Hall; left | intros car Hin; apply Hall; by right].
Qed.

(** X3.  [can_car_enter] raises exactly when the direction has no light.
    Otherwise it answers True exactly when the light permits the car's
    intended movement, the cell ahead of the car is a cell of the
    intersection and no car of the active set stands on it.  The
    permissions are nested: what permits a left turn permits going
    straight, and what permits going straight permits a right turn. *)
Theorem can_car_enter_spec (h : CarHeap) (inter : Intersection.t)
    (car : CarRef) (d : Direction) :
  (Intersection.can_car_enter h inter car d = None
   ↔ Intersection.light_for inter d = None)
  ∧ (Intersection.can_car_enter h inter car d = Some true
     ↔ ∃ light,
         Intersection.light_for inter d = Some light
         ∧ permitted (Car.intended_movement (h !!! car)) (TrafficLight.state light)
         ∧ Car.get_next_position (h !!! car) 1
             ∈ Intersection.intersection_positions inter
         ∧ ∀ other, other ∈ Intersection.cars_in_intersection inter →
             Car.position (h !!! other) ≠ Car.get_next_position (h !!! car) 1)
  ∧ (∀ st, permitted LEFT st → permitted STRAIGHT st)
  ∧ (∀ st, permitted STRAIGHT st → permitted RIGHT st).
Proof.
  split; [| split; [| split]].
  - unfold Intersection.can_car_enter.
    destruct (Intersection.light_for inter d); simpl; [| done].
    split; [| done]. by case_match.
  - unfold Intersection.can_car_enter, Intersection._is_intersection_position_free.
    destruct (Intersection.light_for inter d) as [light|]; simpl.
    2: { split; [done | by intros (? & ? & _)]. }
    assert ((match Car.intended_movement (h !!! car) with
             | STRAIGHT => TrafficLight.can_go_straight light
             | LEFT => TrafficLight.can_turn_left light
             | RIGHT => TrafficLight.can_turn_right light
             end) = true
            ↔ permitted (Car.intended_movement (h !!! car))
                        (TrafficLight.state light)) as Hperm.
    { unfold TrafficLight.can_go_straight, TrafficLight.can_turn_left,
        TrafficLight.can_turn_right.
      destruct (Car.intended_movement (h !!! car)), (TrafficLight.state light);
        simpl; split; try done; intros H; try (by destruct H); auto. }
    destruct (match Car.intended_movement (h !!! car) with
              | STRAIGHT => _ | LEFT => _ | RIGHT => _ end) eqn:Hp; simpl.
    + case_bool_decide as Hin; simpl.
      * split.
        -- intros [= Hex%negb_true_iff]. exists light. split; [done |].
           split; [by apply Hperm |]. split; [done |].
           by apply existsb_position_false.
        -- intros (? & [= <-] & _ & _ & Hfree). f_equal. apply negb_true_iff.
           by apply existsb_position_false.
      * split; [done |]. by intros (? & _ & _ & ? & _).
    + split; [done |]. intros (? & [= <-] & Hp' & _).
      apply Hperm in Hp'. done.
  - intros st ->. by right.
  - intros st [-> | ->]; done.
Qed.

(** X4.  The countdown of a light: [n] calls of [update] never change the
    state; a positive timer goes down by one per call until it is 0 and
    stays there; a timer that is 0 or negative is left alone. *)
Theorem light_countdown (n : nat) (l : TrafficLight.t) :
  TrafficLight.state (Nat.iter n TrafficLight.update l) = TrafficLight.state l
  ∧ TrafficLight.timer (Nat.iter n TrafficLight.update l)
    = (if bool_decide (0 < TrafficLight.timer l)
       then Z.max 0 (TrafficLight.timer l - Z.of_nat n)
       else TrafficLight.timer l).
Proof.
  induction n as [|n [Hst Htm]].
  - simpl. split; [done |]. case_bool_decide; lia.
  - rewrite Nat.iter_succ. unfold TrafficLight.update at 1 3.
    destruct (bool_decide (TrafficLight.timer (Nat.iter n TrafficLight.update l) > 0))
      eqn:Hgt; simpl; (split; [done |]);
      [apply bool_decide_eq_true in Hgt | apply bool_decide_eq_false in Hgt];
      rewrite Htm in *; repeat case_bool_decide; lia.
Qed.

Lemma update_automatic_cycle_lights_eq c c' :
  TrafficLightController.update_automatic_cycle c = Some c' →
  ∃ g : Direction * Direction,
    TrafficLightController.lights c'
    = TrafficLightController.set_in g.2 GREEN
        (TrafficLightController.set_in g.1 GREEN
           (TrafficLight.set_state RED 0 <$> TrafficLightController.lights c)).
Proof.
  unfold TrafficLightController.update_automatic_cycle.
  destruct (if bool_decide (_ >= _) then _ else _) as [[t p]|]; simpl; [| done].
  destruct (py_index _ _) as [g|]; simpl; [| done].
  intros [= <-]. by exists g.
Qed.

Lemma update_automatic_cycle_lights_after c c' d l :
  TrafficLightController.update_automatic_cycle c = Some c' →
  TrafficLightController.lights c' !! d = Some l →
  TrafficLight.timer l = 0
  ∧ (TrafficLight.state l = GREEN ∨ TrafficLight.state l = RED).
Proof.
  intros [g ->]%update_automatic_cycle_lights_eq.
  rewrite !set_in_lookup, !lookup_fmap.
  repeat case_decide; subst;
    repeat match goal with
           | |- context [TrafficLightController.lights c !! ?x] =>
               destruct (TrafficLightController.lights c !! x); simpl
           end; try done; intros [= <-]; simpl; auto.
Qed.

(** X5.  After [update_automatic_cycle] every light of the controller is
    GREEN or RED with timer 0 (the cycle never shows YELLOW or
    GREEN_ARROW), so the [update] that a tick calls next changes nothing. *)
Theorem automatic_cycle_leaves_green_red (c c' : TrafficLightController.t) :
  TrafficLightController.update_automatic_cycle c = Some c' →
  (∀ d l, TrafficLightController.lights c' !! d = Some l →
          TrafficLight.timer l = 0
          ∧ (TrafficLight.state l = GREEN ∨ TrafficLight.state l = RED))
  ∧ TrafficLightController.update c' = c'.
Proof.
  intros Hu.
  assert (∀ d l, TrafficLightController.lights c' !! d = Some l →
                 TrafficLight.timer l = 0
                 ∧ (TrafficLight.state l = GREEN ∨ TrafficLight.state l = RED))
    as Hall by (intros d l; by apply update_automatic_cycle_lights_after with c).
  split; [done |].
  unfold TrafficLightController.update, TrafficLightController.set_lights.
  replace (TrafficLight.update <$> TrafficLightController.lights c')
    with (TrafficLightController.lights c'); [by destruct c' |].
  apply map_eq. intros d. rewrite lookup_fmap.
  destruct (TrafficLightController.lights c' !! d) as [l|] eqn:Hl; simpl; [| done].
  destruct (Hall d l Hl) as [Ht _]. unfold TrafficLight.update.
  rewrite Ht. by rewrite bool_decide_eq_false_2 by lia.
Qed.

Lemma update_all_lights_signals s s1 idx d st :
  TrafficSimulation.update_all_lights s = Some s1 →
  signal_at s1 idx d = Some st → st = GREEN ∨ st = RED.
Proof.
  intros (_ & _ & _ & _ & Hint)%update_all_lights_spec. unfold signal_at.
  destruct (TrafficSimulation.intersections s1 !! idx) as [kv1|] eqn:Hkv1;
    simpl; [| done].
  destruct (Forall2_lookup_l _ _ _ _ _ Hint Hkv1) as (kv & _ & _ & _ & Hu).
  unfold TrafficSimulation.update_lights in Hu.
  destruct (TrafficLightController.update_automatic_cycle _) as [c'|] eqn:Hc;
    simpl in Hu; [| done].
  injection Hu as <-. unfold Intersection.light_for. simpl.
  rewrite lookup_fmap.
  destruct (TrafficLightController.lights c' !! d) as [l|] eqn:Hl; simpl; [| done].
  intros [= <-].
  destruct (update_automatic_cycle_lights_after _ _ _ _ Hc Hl) as [_ Hst].
  unfold TrafficLight.update. by case_bool_decide.
Qed.

(** X6.  No car that intends to turn left enters an intersection in a
    tick: whatever was set before the tick, the signals the cars see are
    those of the automatic cycle, GREEN or RED, and a left turn asks for
    GREEN_ARROW.  ([s1] is the state once the tick has advanced the
    signals, [sa] the state in which the attempt of [car] is made.) *)
Theorem left_turn_never_enters_in_tick (s s1 sa sb : TrafficSimulation.t)
    (before : list CarRef) (log : list bool) (car : CarRef) (b : bool) :
  TrafficSimulation.update_all_lights
    (TrafficSimulation.set_tick_count (TrafficSimulation.tick_count s + 1) s)
  = Some s1 →
  TrafficSimulation.move_cars before s1 = Some (log, sa) →
  TrafficSimulation.move_car sa car = Some (b, sb) →
  Car.intended_movement (TrafficSimulation.car_objs sa !!! car) = LEFT →
  ∀ idx, car ∉ active_at sa idx → car ∉ active_at sb idx.
Proof.
  intros Hu Hbefore Hmove Hleft idx Hout Hin.
  destruct (move_car_entry _ _ _ _ idx Hmove Hout Hin) as (st & Hsig & Hperm).
  rewrite (move_cars_signal _ _ _ _ idx _ Hbefore) in Hsig.
  rewrite Hleft in Hperm. simpl in Hperm. subst st.
  by destruct (update_all_lights_signals _ _ _ _ _ Hu Hsig).
Qed.

(** ** Cells of intersections and roads *)

Lemma py_range_elem_of lo hi x : x ∈ py_range lo hi ↔ lo ≤ x < hi.
Proof.
  unfold py_range. rewrite list_elem_of_fmap. split.
  - intros (i & -> & Hi%elem_of_seq). lia.
  - intros Hx. exists (Z.to_nat (x - lo)). split; [lia |].
    apply elem_of_seq. lia.
Qed.

Lemma py_range_NoDup lo hi : NoDup (py_range lo hi).
Proof.
  unfold py_range. apply NoDup_fmap_2; [| apply NoDup_seq].
  intros i j Hij. lia.
Qed.

Lemma py_range_length lo hi : length (py_range lo hi) = Z.to_nat (hi - lo).
Proof. unfold py_range. by rewrite length_fmap, length_seq. Qed.

Lemma calculate_intersection_positions_elem_of center size p :
  p ∈ Intersection._calculate_intersection_positions center size
  ↔ center.1 - size `div` 2 ≤ p.1 ≤ center.1 + size `div` 2
    ∧ center.2 - size `div` 2 ≤ p.2 ≤ center.2 + size `div` 2.
Proof.
  destruct center as [cr cc], p as [r c]. simpl.
  rewrite elem_of_list_to_set, list_elem_of_bind. split.
  - intros (row & (col & Hp & Hcol%py_range_elem_of)%list_elem_of_bind
              & Hrow%py_range_elem_of).
    apply list_elem_of_singleton in Hp as [= -> ->]. lia.
  - intros [Hr Hc]. exists r. split; [| apply py_range_elem_of; lia].
    apply list_elem_of_bind. exists c.
    split; [by apply list_elem_of_singleton | apply py_range_elem_of; lia].
Qed.

(** X7.  The region of an intersection is the square of the cells within
    [size // 2] rows and columns of the centre.  So an even size covers the
    cells of the next odd size (size 4 is 5 by 5), size 0 and 1 cover the
    centre alone, and a negative size covers nothing. *)
Theorem intersection_region (id : string) (center : Pos) (size : Z) :
  (∀ p, p ∈ Intersection.intersection_positions (Intersection.init id center size)
        ↔ center.1 - size `div` 2 ≤ p.1 ≤ center.1 + size `div` 2
          ∧ center.2 - size `div` 2 ≤ p.2 ≤ center.2 + size `div` 2)
  ∧ (∀ k, 0 ≤ k → size = 2 * k →
          Intersection.intersection_positions (Intersection.init id center size)
          = Intersection.intersection_positions
              (Intersection.init id center (size + 1)))
  ∧ (0 ≤ size ≤ 1 →
     Intersection.intersection_positions (Intersection.init id center size)
     = {[center]})
  ∧ (size < 0 →
     Intersection.intersection_positions (Intersection.init id center size) = ∅).
Proof.
  split; [| split; [| split]]; simpl.
  - intros p. apply calculate_intersection_positions_elem_of.
  - intros k Hk ->. apply set_eq. intros p.
    rewrite !calculate_intersection_positions_elem_of.
    replace ((2 * k + 1) `div` 2) with k by (Z.div_mod_to_equations; lia).
    replace ((2 * k) `div` 2) with k by (Z.div_mod_to_equations; lia). done.
  - intros Hs. apply set_eq. intros p.
    rewrite calculate_intersection_positions_elem_of, elem_of_singleton.
    replace (size `div` 2) with 0 by (Z.div_mod_to_equations; lia).
    destruct center as [cr cc], p as [r c]. simpl. split.
    + intros [? ?]. f_equal; lia.
    + intros [= -> ->]. lia.
  - intros Hs. apply set_eq. intros p.
    rewrite calculate_intersection_positions_elem_of.
    split; [| by intros ?%not_elem_of_empty].
    assert (size `div` 2 < 0) by (Z.div_mod_to_equations; lia). lia.
Qed.

Lemma Dict_get_foldl_set {K V} `{EqDecision K} (f : K → V) (ks : list K) :
  ∀ (d0 : list (K * V)) n,
    Dict.get n (foldl (λ d k, Dict.set k (f k) d) d0 ks)
    = if decide (n ∈ ks) then Some (f n) else Dict.get n d0.
Proof.
  induction ks as [|k ks IH]; intros d0 n; simpl.
  - done.
  - rewrite IH. destruct (decide (n ∈ ks)) as [Hin|Hni].
    + rewrite decide_True; [done | by right].
    + destruct (decide (k = n)) as [->|Hne].
      * rewrite Dict_get_set_eq. rewrite decide_True; [done | left].
      * rewrite Dict_get_set_ne by done.
        rewrite decide_False; [done |]. rewrite elem_of_cons. naive_solver.
Qed.

Lemma get_road_positions_elem_of start_pos end_pos direction num_lanes p :
  p ∈ Road._get_road_positions start_pos end_pos direction num_lanes
  ↔ if Road.vertical direction
    then start_pos.1 `min` end_pos.1 ≤ p.1 ≤ start_pos.1 `max` end_pos.1
         ∧ start_pos.2 ≤ p.2 < start_pos.2 + num_lanes
    else start_pos.1 ≤ p.1 < start_pos.1 + num_lanes
         ∧ start_pos.2 `min` end_pos.2 ≤ p.2 ≤ start_pos.2 `max` end_pos.2.
Proof.
  destruct start_pos as [sr sc], end_pos as [er ec], p as [r c].
  unfold Road._get_road_positions. simpl.
  destruct (Road.vertical direction); rewrite list_elem_of_bind; split.
  - intros (row & (off & Hp & Hoff%py_range_elem_of)%list_elem_of_bind
              & Hrow%py_range_elem_of).
    apply list_elem_of_singleton in Hp as [= -> ->]. lia.
  - intros [Hr Hc]. exists r. split; [| apply py_range_elem_of; lia].
    apply list_elem_of_bind. exists (c - sc).
    split; [apply list_elem_of_singleton; f_equal; lia | apply py_range_elem_of; lia].
  - intros (col & (off & Hp & Hoff%py_range_elem_of)%list_elem_of_bind
              & Hcol%py_range_elem_of).
    apply list_elem_of_singleton in Hp as [= -> ->]. lia.
  - intros [Hr Hc]. exists c. split; [| apply py_range_elem_of; lia].
    apply list_elem_of_bind. exists (r - sr).
    split; [apply list_elem_of_singleton; f_equal; lia | apply py_range_elem_of; lia].
Qed.

Lemma lane_positions_elem_of start_pos end_pos direction num_lanes n p :
  0 ≤ n < num_lanes →
  p ∈ Road._get_lane_positions start_pos direction n
        (Road._get_road_positions start_pos end_pos direction num_lanes)
  ↔ if Road.vertical direction
    then start_pos.1 `min` end_pos.1 ≤ p.1 ≤ start_pos.1 `max` end_pos.1
         ∧ p.2 = start_pos.2 + n
    else p.1 = start_pos.1 + n
         ∧ start_pos.2 `min` end_pos.2 ≤ p.2 ≤ start_pos.2 `max` end_pos.2.
Proof.
  intros Hn. unfold Road._get_lane_positions.
  pose proof (get_road_positions_elem_of start_pos end_pos direction num_lanes p)
    as Hroad.
  destruct (Road.vertical direction);
    rewrite elem_of_list_to_set, list_elem_of_filter, Hroad; lia.
Qed.

Lemma lane_positions_size start_pos end_pos direction num_lanes n :
  0 ≤ n < num_lanes →
  Z.of_nat (size (Road._get_lane_positions start_pos direction n
                    (Road._get_road_positions start_pos end_pos direction num_lanes)))
  = if Road.vertical direction
    then start_pos.1 `max` end_pos.1 - start_pos.1 `min` end_pos.1 + 1
    else start_pos.2 `max` end_pos.2 - start_pos.2 `min` end_pos.2 + 1.
Proof.
  intros Hn.
  pose proof (lane_positions_elem_of start_pos end_pos direction num_lanes n) as Hel.
  destruct (Road.vertical direction) eqn:Hv.
  - replace (Road._get_lane_positions start_pos direction n _)
      with (list_to_set (C := gset Pos)
              (map (λ row, (row, start_pos.2 + n))
                   (py_range (start_pos.1 `min` end_pos.1)
                             (start_pos.1 `max` end_pos.1 + 1)))).
    + rewrite size_list_to_set, length_fmap, py_range_length; [lia |].
      apply NoDup_fmap_2; [by intros ? ? [= ->] | apply py_range_NoDup].
    + apply set_eq. intros [r c]. rewrite (Hel _ Hn).
      rewrite elem_of_list_to_set, list_elem_of_fmap. simpl. split.
      * intros (row & [= -> ->] & Hrow%py_range_elem_of). lia.
      * intros [Hr ->]. exists r. split; [done | apply py_range_elem_of; lia].
  - replace (Road._get_lane_positions start_pos direction n _)
      with (list_to_set (C := gset Pos)
              (map (λ col, (start_pos.1 + n, col))
                   (py_range (start_pos.2 `min` end_pos.2)
                             (start_pos.2 `max` end_pos.2 + 1)))).
    + rewrite size_list_to_set, length_fmap, py_range_length; [lia |].
      apply NoDup_fmap_2; [by intros ? ? [= ->] | apply py_range_NoDup].
    + apply set_eq. intros [r c]. rewrite (Hel _ Hn).
      rewrite elem_of_list_to_set, list_elem_of_fmap. simpl. split.
      * intros (col & [= -> ->] & Hcol%py_range_elem_of). lia.
      * intros [-> Hc]. exists c. split; [done | apply py_range_elem_of; lia].
Qed.

(** X8.  The lanes of a constructed road.  The lane numbers are 0 to
    [num_lanes - 1].  Lane [n] of a vertical road (NORTH or SOUTH) is the
    column [start_col + n] over the rows between the two end rows, whatever
    the end column; lane [n] of a horizontal road is the row
    [start_row + n] over the columns between the two end columns.  A lane
    starts empty, its capacity is the length of the road in cells, and two
    lanes of a road share no cell. *)
Theorem road_lanes (road_id : string) (start_pos end_pos : Pos)
    (direction : Direction) (num_lanes : Z) :
  let r := Road.init road_id start_pos end_pos direction num_lanes in
  (∀ n, is_Some (Dict.get n (Road.lanes r)) ↔ 0 ≤ n < num_lanes)
  ∧ (∀ n lane, Dict.get n (Road.lanes r) = Some lane →
       Lane.cars lane = []
       ∧ Lane.direction lane = direction
       ∧ Lane.max_cars lane
         = (if Road.vertical direction
            then start_pos.1 `max` end_pos.1 - start_pos.1 `min` end_pos.1 + 1
            else start_pos.2 `max` end_pos.2 - start_pos.2 `min` end_pos.2 + 1)
       ∧ ∀ p, p ∈ Lane.positions lane
              ↔ if Road.vertical direction
                then start_pos.1 `min` end_pos.1 ≤ p.1 ≤ start_pos.1 `max` end_pos.1
                     ∧ p.2 = start_pos.2 + n
                else p.1 = start_pos.1 + n
                     ∧ start_pos.2 `min` end_pos.2 ≤ p.2
                       ≤ start_pos.2 `max` end_pos.2)
  ∧ (∀ n m lane_n lane_m p,
       n ≠ m →
       Dict.get n (Road.lanes r) = Some lane_n →
       Dict.get m (Road.lanes r) = Some lane_m →
       p ∈ Lane.positions lane_n → p ∉ Lane.positions lane_m).
Proof.
  intros r. subst r. simpl. unfold Road._create_lanes.
  set (positions := Road._get_road_positions start_pos end_pos direction num_lanes).
  set (mk_lane := λ lane_num : Z,
         Lane.init (road_id +:+ "_lane_" +:+ pretty lane_num) direction
                   (Road._get_lane_positions start_pos direction lane_num positions)).
  assert (∀ n, Dict.get n (foldl (λ lanes lane_num,
                                    Dict.set lane_num (mk_lane lane_num) lanes)
                                 [] (py_range 0 num_lanes))
               = if decide (0 ≤ n < num_lanes) then Some (mk_lane n) else None)
    as Hget.
  { intros n. rewrite (Dict_get_foldl_set mk_lane).
    destruct (decide (n ∈ py_range 0 num_lanes)) as [Hin|Hni];
      rewrite py_range_elem_of in *.
    - rewrite decide_True; [done | lia].
    - rewrite decide_False; [done | lia]. }
  assert (∀ n lane, Dict.get n (foldl (λ lanes lane_num,
                                    Dict.set lane_num (mk_lane lane_num) lanes)
                                 [] (py_range 0 num_lanes)) = Some lane →
            0 ≤ n < num_lanes ∧ lane = mk_lane n) as Hinv.
  { intros n lane. rewrite Hget. case_decide; [| done]. by intros [= <-]. }
  split; [| split].
  - intros n. rewrite Hget. case_decide; split; try done; try (by eexists); by intros [? ?].
  - intros n lane (Hn & ->)%Hinv. simpl. split; [done |]. split; [done |].
    split; [by apply lane_positions_size | intros p; by apply lane_positions_elem_of].
  - intros n m lane_n lane_m p Hnm (Hn & ->)%Hinv (Hm & ->)%Hinv. simpl.
    unfold positions. rewrite !lane_positions_elem_of by done.
    destruct (Road.vertical direction); lia.
Qed.

(** ** What a move attempt does to the car *)

Lemma moved_wait car s :
  moved false (TrafficSimulation.car_objs s !!! car)
        (TrafficSimulation.car_objs (TrafficSimulation.wait car s) !!! car).
Proof. simpl. rewrite car_call_self. by repeat split. Qed.

Lemma moved_advance car s :
  moved true (TrafficSimulation.car_objs s !!! car)
        (TrafficSimulation.car_objs
           (TrafficSimulation.advance car
              (Car.get_next_position (TrafficSimulation.car_objs s !!! car) 1) s)
         !!! car).
Proof. simpl. rewrite car_call_self. by repeat split. Qed.

Lemma Road_add_car_identity h r car n :
  Car.car_id ((Road.add_car h r car n).2 !!! car) = Car.car_id (h !!! car)
  ∧ Car.intended_movement ((Road.add_car h r car n).2 !!! car)
    = Car.intended_movement (h !!! car)
  ∧ Car.max_speed ((Road.add_car h r car n).2 !!! car) = Car.max_speed (h !!! car)
  ∧ Car.position ((Road.add_car h r car n).2 !!! car) = Car.position (h !!! car)
  ∧ Car.direction ((Road.add_car h r car n).2 !!! car) = Car.direction (h !!! car).
Proof.
  unfold Road.add_car. destruct (Dict.get n (Road.lanes r)) as [lane|]; [| done].
  destruct (Lane.add_car h lane car) as [[] lane']; simpl; [| done].
  by rewrite car_call_self.
Qed.

Lemma move_car_on_road_moved s car rid b s' :
  TrafficSimulation._move_car_on_road s car rid = Some (b, s') →
  moved b (TrafficSimulation.car_objs s !!! car)
        (TrafficSimulation.car_objs s' !!! car)
  ∧ TrafficSimulation.tick_count s' = TrafficSimulation.tick_count s
  ∧ TrafficSimulation.grid_size s' = TrafficSimulation.grid_size s
  ∧ TrafficSimulation.max_car_speed s' = TrafficSimulation.max_car_speed s.
Proof.
  unfold TrafficSimulation._move_car_on_road.
  destruct (Dict.get rid (TrafficSimulation.roads s)) as [road|]; simpl; [| done].
  case_bool_decide; [| intros [= <- <-]; split; [apply moved_wait | done]].
  destruct (negb _); simpl; [intros [= <- <-]; split; [apply moved_wait | done] |].
  destruct (TrafficSimulation._get_intersection_at_position s _)
    as [[idx [iid inter]]|].
  - destruct (Intersection.can_car_enter _ _ _ _) as [[|]|]; simpl; [| | done];
      intros [= <- <-]; (split; [| done]); [| apply moved_wait].
    simpl. rewrite car_call_self. by repeat split.
  - destruct (negb _); simpl; intros [= <- <-]; (split; [| done]);
      [apply moved_wait | apply moved_advance].
Qed.

Lemma continue_in_intersection_moved s car inter b s' :
  TrafficSimulation.continue_in_intersection s car inter = (b, s') →
  moved b (TrafficSimulation.car_objs s !!! car)
        (TrafficSimulation.car_objs s' !!! car)
  ∧ TrafficSimulation.tick_count s' = TrafficSimulation.tick_count s
  ∧ TrafficSimulation.grid_size s' = TrafficSimulation.grid_size s
  ∧ TrafficSimulation.max_car_speed s' = TrafficSimulation.max_car_speed s.
Proof.
  unfold TrafficSimulation.continue_in_intersection.
  destruct (bool_decide _ && _); intros [= <- <-]; (split; [| done]);
    [apply moved_advance | apply moved_wait].
Qed.

Lemma move_car_in_intersection_moved s car iid b s' :
  TrafficSimulation._move_car_in_intersection s car iid = Some (b, s') →
  moved b (TrafficSimulation.car_objs s !!! car)
        (TrafficSimulation.car_objs s' !!! car)
  ∧ TrafficSimulation.tick_count s' = TrafficSimulation.tick_count s
  ∧ TrafficSimulation.grid_size s' = TrafficSimulation.grid_size s
  ∧ TrafficSimulation.max_car_speed s' = TrafficSimulation.max_car_speed s.
Proof.
  unfold TrafficSimulation._move_car_in_intersection.
  destruct (Dict.get iid (TrafficSimulation.intersections s)) as [inter|];
    simpl; [| done].
  destruct (Intersection.process_car_in_intersection _ _ _ _) as [exit_direction|];
    [| intros [= Hc]; by eapply continue_in_intersection_moved].
  destruct (Intersection.connected_roads inter !! exit_direction) as [exit_road|];
    [| intros [= Hc]; by eapply continue_in_intersection_moved].
  match goal with |- (if ?c then _ else _) = _ → _ => destruct c end;
    [| intros [= <- <-]; split; [apply moved_wait | done]].
  match goal with |- context [Road.add_car ?h ?r ?c ?n] =>
    pose proof (Road_add_car_identity h r c n) as (Hid & Hmv & Hsp & Hpos & _);
    destruct (Road.add_car h r c n) as [[ok exit_road'] car_objs3]
  end.
  simpl in *. intros [= <- <-]. split; [| done]. unfold moved. simpl.
  rewrite Hid, Hmv, Hsp, Hpos. rewrite !car_call_self. simpl.
  rewrite ?car_call_self. done.
Qed.

Lemma move_car_moved s car b s' :
  TrafficSimulation.move_car s car = Some (b, s') →
  moved b (TrafficSimulation.car_objs s !!! car)
        (TrafficSimulation.car_objs s' !!! car)
  ∧ TrafficSimulation.tick_count s' = TrafficSimulation.tick_count s
  ∧ TrafficSimulation.grid_size s' = TrafficSimulation.grid_size s
  ∧ TrafficSimulation.max_car_speed s' = TrafficSimulation.max_car_speed s.
Proof.
  unfold TrafficSimulation.move_car.
  destruct (TrafficSimulation.find_car_location s car) as [road_id intersection_id].
  destruct (py_truthy road_id); [apply move_car_on_road_moved |].
  destruct (py_truthy intersection_id); [apply move_car_in_intersection_moved |].
  intros [= <- <-]. by repeat split.
Qed.

(** X9.  One move attempt moves the car by at most one cell: after a
    successful attempt the car stands one cell ahead along the heading it
    had before the attempt, after a failed one it stands where it stood.
    The attempt keeps the car's id, intended movement and maximum speed and
    changes no other car object. *)
Theorem move_attempt_one_cell (s : TrafficSimulation.t) (car : CarRef)
    (b : bool) (s' : TrafficSimulation.t) :
  TrafficSimulation.move_car s car = Some (b, s') →
  Car.position (TrafficSimulation.car_objs s' !!! car)
  = (if b then Car.get_next_position (TrafficSimulation.car_objs s !!! car) 1
     else Car.position (TrafficSimulation.car_objs s !!! car))
  ∧ Car.car_id (TrafficSimulation.car_objs s' !!! car)
    = Car.car_id (TrafficSimulation.car_objs s !!! car)
  ∧ Car.intended_movement (TrafficSimulation.car_objs s' !!! car)
    = Car.intended_movement (TrafficSimulation.car_objs s !!! car)
  ∧ Car.max_speed (TrafficSimulation.car_objs s' !!! car)
    = Car.max_speed (TrafficSimulation.car_objs s !!! car)
  ∧ ∀ other, other ≠ car →
      TrafficSimulation.car_objs s' !!! other
      = TrafficSimulation.car_objs s !!! other.
Proof.
  intros Hmove.
  destruct (move_car_moved _ _ _ _ Hmove) as ((Hid & Hmv & Hsp & Hpos) & _).
  repeat (split; [done |]).
  intros other Hne. by apply (mf_objs _ _ _ (move_car_frame _ _ _ _ Hmove)).
Qed.

Lemma move_cars_static cars_to_move : ∀ s log s',
  TrafficSimulation.move_cars cars_to_move s = Some (log, s') →
  TrafficSimulation.cars s' = TrafficSimulation.cars s
  ∧ TrafficSimulation.roads s' = TrafficSimulation.roads s
  ∧ TrafficSimulation.tick_count s' = TrafficSimulation.tick_count s
  ∧ TrafficSimulation.grid_size s' = TrafficSimulation.grid_size s
  ∧ (TrafficSimulation.intersections s').*1 = (TrafficSimulation.intersections s).*1
  ∧ ∀ c, Car.car_id (TrafficSimulation.car_objs s' !!! c)
         = Car.car_id (TrafficSimulation.car_objs s !!! c)
         ∧ Car.intended_movement (TrafficSimulation.car_objs s' !!! c)
           = Car.intended_movement (TrafficSimulation.car_objs s !!! c)
         ∧ Car.max_speed (TrafficSimulation.car_objs s' !!! c)
           = Car.max_speed (TrafficSimulation.car_objs s !!! c).
Proof.
  induction cars_to_move as [|c0 rest IH]; intros s log s'; simpl.
  - by intros [= <- <-].
  - destruct (TrafficSimulation.move_car s c0) as [[b0 s1]|] eqn:Hm; simpl; [| done].
    destruct (TrafficSimulation.move_cars rest s1) as [[log1 s2]|] eqn:Hr; simpl;
      [| done].
    intros [= <- <-].
    destruct (IH _ _ _ Hr) as (Hc & Hrd & Ht & Hg & Hk & Hid).
    destruct (move_car_moved _ _ _ _ Hm) as ((Hid0 & Hmv0 & Hsp0 & _) & Ht0 & Hg0 & _).
    pose proof (move_car_frame _ _ _ _ Hm) as [Hrd0 Hc0 _ Hint0 Hobjs0].
    split; [congruence |]. split; [congruence |]. split; [congruence |].
    split; [congruence |]. split.
    + rewrite Hk. clear -Hint0.
      induction Hint0 as [|x y l l' [Hkey _ _ _] _ IHl]; [done |].
      rewrite !fmap_cons. by f_equal.
    + intros c. destruct (Hid c) as (-> & -> & ->).
      destruct (decide (c = c0)) as [->|Hne]; [done |].
      by rewrite (Hobjs0 c Hne).
Qed.

(** X10.  Whatever order the cars are processed in, a tick that completes
    adds one to the tick count and neither adds nor removes a car, a road
    or an intersection; every car keeps its id, intended movement and
    maximum speed. *)
Theorem tick_keeps_population (s : TrafficSimulation.t)
    (cars_to_move : list CarRef) (log : list bool) (s' : TrafficSimulation.t) :
  TrafficSimulation.tick_log cars_to_move s = Some (log, s') →
  TrafficSimulation.tick_count s' = TrafficSimulation.tick_count s + 1
  ∧ TrafficSimulation.cars s' = TrafficSimulation.cars s
  ∧ TrafficSimulation.roads s' = TrafficSimulation.roads s
  ∧ TrafficSimulation.grid_size s' = TrafficSimulation.grid_size s
  ∧ (TrafficSimulation.intersections s').*1 = (TrafficSimulation.intersections s).*1
  ∧ ∀ c, Car.car_id (TrafficSimulation.car_objs s' !!! c)
         = Car.car_id (TrafficSimulation.car_objs s !!! c)
         ∧ Car.intended_movement (TrafficSimulation.car_objs s' !!! c)
           = Car.intended_movement (TrafficSimulation.car_objs s !!! c)
         ∧ Car.max_speed (TrafficSimulation.car_objs s' !!! c)
           = Car.max_speed (TrafficSimulation.car_objs s !!! c).
Proof.
  unfold TrafficSimulation.tick_log.
  destruct (TrafficSimulation.update_all_lights _) as [s1|] eqn:Hu; simpl; [| done].
  intros (Hc & Hrd & Ht & Hg & Hk & Hid)%move_cars_static.
  pose proof (update_all_lights_spec _ _ Hu) as (Hobjs & _ & Hroads & Hcars & Hint).
  simpl in *. rewrite Ht, Hc, Hrd, Hg, Hk.
  assert (TrafficSimulation.tick_count s1 = TrafficSimulation.tick_count s + 1
          ∧ TrafficSimulation.grid_size s1 = TrafficSimulation.grid_size s)
    as [-> ->].
  { unfold TrafficSimulation.update_all_lights in Hu.
    destruct (mapM _ _); simpl in Hu; [| done]. by injection Hu as <-. }
  repeat (split; [done |]). split.
  - clear -Hint. induction Hint as [|x y l l' [Hkey _] _ IHl]; [done |].
    rewrite !fmap_cons. by f_equal.
  - intros c. rewrite <-Hobjs. apply Hid.
Qed.

(** ** Occupancy queries *)

Lemma py_first_some_None {A B} (f : A → option B) (l : list A) :
  py_first_some f l = None ↔ ∀ x, x ∈ l → f x = None.
Proof.
  induction l as [|x l IH]; simpl.
  - split; [by intros _ ? ?%elem_of_nil | done].
  - destruct (f x) eqn:Hx.
    + split; [done |]. intros Hall. rewrite <-Hx. apply Hall. left.
    + rewrite IH. split.
      * intros Hall y [->|Hy]%elem_of_cons; auto.
      * intros Hall y Hy. apply Hall. by right.
Qed.

Lemma py_first_some_Some {A B} (f : A → option B) (l : list A) r :
  py_first_some f l = Some r → ∃ x, x ∈ l ∧ f x = Some r.
Proof.
  induction l as [|x l IH]; simpl; [done |].
  destruct (f x) eqn:Hx.
  - intros [= <-]. exists x. split; [left | done].
  - intros (y & Hy & Hfy)%IH. exists y. split; [by right | done].
Qed.

Lemma find_position_None (h : CarHeap) (pos : Pos) (l : list CarRef) :
  List.find (λ car, bool_decide (Car.position (h !!! car) = pos)) l = None
  ↔ ∀ car, car ∈ l → Car.position (h !!! car) ≠ pos.
Proof.
  induction l as [|c l IH]; simpl.
  - split; [by intros _ ? ?%elem_of_nil | done].
  - case_bool_decide as Hc.
    + split; [done |]. intros Hall. destruct (Hall c); [left | done].
    + rewrite IH. split.
      * intros Hall car [->|Hin]%elem_of_cons; auto.
      * intros Hall car Hin. apply Hall. by right.
Qed.

Lemma find_position_Some (h : CarHeap) (pos : Pos) (l : list CarRef) c :
  List.find (λ car, bool_decide (Car.position (h !!! car) = pos)) l = Some c →
  c ∈ l ∧ Car.position (h !!! c) = pos.
Proof.
  intros [Hin Hp]%find_some. split; [by apply list_elem_of_In |].
  by apply bool_decide_eq_true in Hp.
Qed.

Lemma Road_get_car_at_position_None h r pos :
  Road.get_car_at_position h r pos = None
  ↔ ∀ car, car ∈ Road.get_all_cars r → Car.position (h !!! car) ≠ pos.
Proof.
  unfold Road.get_car_at_position, Road.get_all_cars.
  rewrite py_first_some_None. split.
  - intros Hall car (lane & Hcar & Hlane)%list_elem_of_bind.
    by apply (proj1 (find_position_None h pos (Lane.cars lane)) (Hall lane Hlane)).
  - intros Hall lane Hlane. apply find_position_None. intros car Hcar.
    apply Hall, list_elem_of_bind. by exists lane.
Qed.

Lemma Road_get_car_at_position_Some h r pos c :
  Road.get_car_at_position h r pos = Some c →
  c ∈ Road.get_all_cars r ∧ Car.position (h !!! c) = pos.
Proof.
  unfold Road.get_car_at_position, Road.get_all_cars.
  intros (lane & Hlane & [Hin Hp]%find_position_Some)%py_first_some_Some.
  split; [| done]. apply list_elem_of_bind. by exists lane.
Qed.

Lemma is_position_free_iff s pos :
  TrafficSimulation.is_position_free s pos = true
  ↔ (∀ road car,
       road ∈ Dict.values (TrafficSimulation.roads s) →
       car ∈ Road.get_all_cars (TrafficSimulation.road_objs s !!! road) →
       Car.position (TrafficSimulation.car_objs s !!! car) ≠ pos)
    ∧ (∀ inter car,
         inter ∈ Dict.values (TrafficSimulation.intersections s) →
         car ∈ Intersection.cars_in_intersection inter →
         Car.position (TrafficSimulation.car_objs s !!! car) ≠ pos).
Proof.
  unfold TrafficSimulation.is_position_free, TrafficSimulation.get_car_at_position.
  rewrite bool_decide_eq_true.
  destruct (py_first_some _ (Dict.values (TrafficSimulation.roads s))) as [c|] eqn:Hr.
  - split; [done |]. intros [Hroads _].
    apply py_first_some_Some in Hr as (road & Hroad & [Hin Hp]%Road_get_car_at_position_Some).
    by destruct (Hroads road c).
  - rewrite py_first_some_None in Hr. rewrite py_first_some_None. split.
    + intros Hall. split.
      * intros road car Hroad.
        by apply (proj1 (Road_get_car_at_position_None _ _ _) (Hr road Hroad)).
      * intros inter car Hinter.
        by apply (proj1 (find_position_None _ _ _) (Hall inter Hinter)).
    + intros [_ Hints] inter Hinter. apply find_position_None.
      intros car Hcar. by apply (Hints inter).
Qed.

(** X11.  [is_position_free] answers True exactly when no car held in a
    lane of a road of the engine and no car of an active set stands on the
    cell; a car of the car list that is in no container is not seen.  When
    [get_car_at_position] gives a car, that car stands on the cell and is
    in a lane of a road of the engine or in an active set. *)
Theorem position_queries (s : TrafficSimulation.t) (pos : Pos) :
  (TrafficSimulation.is_position_free s pos = true
   ↔ (∀ road car,
        road ∈ Dict.values (TrafficSimulation.roads s) →
        car ∈ Road.get_all_cars (TrafficSimulation.road_objs s !!! road) →
        Car.position (TrafficSimulation.car_objs s !!! car) ≠ pos)
     ∧ (∀ inter car,
          inter ∈ Dict.values (TrafficSimulation.intersections s) →
          car ∈ Intersection.cars_in_intersection inter →
          Car.position (TrafficSimulation.car_objs s !!! car) ≠ pos))
  ∧ ∀ c, TrafficSimulation.get_car_at_position s pos = Some c →
      Car.position (TrafficSimulation.car_objs s !!! c) = pos
      ∧ ((∃ road, road ∈ Dict.values (TrafficSimulation.roads s)
                  ∧ c ∈ Road.get_all_cars (TrafficSimulation.road_objs s !!! road))
         ∨ (∃ inter, inter ∈ Dict.values (TrafficSimulation.intersections s)
                     ∧ c ∈ Intersection.cars_in_intersection inter)).
Proof.
  split; [apply is_position_free_iff |].
  intros c. unfold TrafficSimulation.get_car_at_position.
  destruct (py_first_some _ (Dict.values (TrafficSimulation.roads s))) as [c0|] eqn:Hr.
  - intros [= ->].
    apply py_first_some_Some in Hr
      as (road & Hroad & [Hin Hp]%Road_get_car_at_position_Some).
    split; [done |]. left. by exists road.
  - intros (inter & Hinter & [Hin Hp]%find_position_Some)%py_first_some_Some.
    split; [done |]. right. by exists inter.
Qed.

(** X12.  A car on a road never moves off the grid or onto an occupied
    cell: when [_move_car_on_road] succeeds, the cell ahead is inside the
    grid; if it is a cell of an intersection, no car of that intersection's
    active set stands on it and the car is in that active set afterwards;
    if it is not, no car held in a lane of a road of the engine or in an
    active set stands on it. *)
Theorem road_move_is_safe (s : TrafficSimulation.t) (car : CarRef)
    (road_id : string) (s' : TrafficSimulation.t) :
  TrafficSimulation._move_car_on_road s car road_id = Some (true, s') →
  let next := Car.get_next_position (TrafficSimulation.car_objs s !!! car) 1 in
  0 ≤ next.1 < (TrafficSimulation.grid_size s).2
  ∧ 0 ≤ next.2 < (TrafficSimulation.grid_size s).1
  ∧ match TrafficSimulation._get_intersection_at_position s next with
    | Some (idx, kv) =>
        (∀ other, other ∈ Intersection.cars_in_intersection kv.2 →
                  Car.position (TrafficSimulation.car_objs s !!! other) ≠ next)
        ∧ car ∈ active_at s' idx
    | None =>
        (∀ road other,
           road ∈ Dict.values (TrafficSimulation.roads s) →
           other ∈ Road.get_all_cars (TrafficSimulation.road_objs s !!! road) →
           Car.position (TrafficSimulation.car_objs s !!! other) ≠ next)
        ∧ (∀ inter other,
             inter ∈ Dict.values (TrafficSimulation.intersections s) →
             other ∈ Intersection.cars_in_intersection inter →
             Car.position (TrafficSimulation.car_objs s !!! other) ≠ next)
    end.
Proof.
  unfold TrafficSimulation._move_car_on_road.
  destruct (Dict.get road_id (TrafficSimulation.roads s)) as [road|]; simpl; [| done].
  case_bool_decide; [| done].
  destruct (TrafficSimulation.is_valid_position s _) eqn:Hvalid; simpl; [| done].
  assert (0 ≤ (Car.get_next_position (TrafficSimulation.car_objs s !!! car) 1).1
          < (TrafficSimulation.grid_size s).2
          ∧ 0 ≤ (Car.get_next_position (TrafficSimulation.car_objs s !!! car) 1).2
            < (TrafficSimulation.grid_size s).1) as [Hrow Hcol].
  { unfold TrafficSimulation.is_valid_position in Hvalid.
    destruct (Car.get_next_position _ _) as [row col].
    apply andb_true_iff in Hvalid as [Hr Hc].
    by apply bool_decide_eq_true in Hr, Hc. }
  destruct (TrafficSimulation._get_intersection_at_position s _)
    as [[idx [iid inter]]|] eqn:Hfind.
  - apply get_intersection_at_position_Some in Hfind as [Hidx Hregion].
    destruct (Intersection.can_car_enter _ _ _ _) as [[|]|] eqn:Hcan; simpl;
      [| done | done].
    intros [= <-]. split; [done |]. split; [done |]. split.
    + unfold Intersection.can_car_enter in Hcan.
      destruct (Intersection.light_for _ _); simpl in Hcan; [| done].
      destruct (negb _); [done |]. injection Hcan as Hfree.
      unfold Intersection._is_intersection_position_free in Hfree.
      destruct (negb (bool_decide _)); [done |].
      apply negb_true_iff in Hfree. by apply existsb_position_false.
    + unfold active_at. simpl.
      rewrite list_lookup_insert_eq by (by eapply lookup_lt_Some). simpl.
      unfold Intersection.add_car_to_intersection.
      rewrite car_call_self. simpl.
      rewrite bool_decide_eq_true_2 by done. simpl.
      destruct (py_in car (Intersection.cars_in_intersection inter)) eqn:Hin; simpl.
      * by apply py_in_true.
      * apply elem_of_app. right. by apply list_elem_of_singleton.
  - destruct (TrafficSimulation.is_position_free s _) eqn:Hfree; simpl; [| done].
    intros _. split; [done |]. split; [done |]. by apply is_position_free_iff.
Qed.

(** ** The entry-direction record *)

(** X13.  When a car enters an intersection from a road, the direction it
    was heading is recorded under its id, its heading is unchanged, and it
    stands on a cell of that intersection and is in its active set. *)
Theorem entry_is_recorded (s : TrafficSimulation.t) (car : CarRef)
    (road_id : string) (s' : TrafficSimulation.t) (idx : nat)
    (kv : string * Intersection.t) :
  TrafficSimulation._move_car_on_road s car road_id = Some (true, s') →
  TrafficSimulation._get_intersection_at_position s
    (Car.get_next_position (TrafficSimulation.car_objs s !!! car) 1)
  = Some (idx, kv) →
  TrafficSimulation.car_entry_directions s'
    !! Car.car_id (TrafficSimulation.car_objs s !!! car)
  = Some (Car.direction (TrafficSimulation.car_objs s !!! car))
  ∧ Car.direction (TrafficSimulation.car_objs s' !!! car)
    = Car.direction (TrafficSimulation.car_objs s !!! car)
  ∧ Car.position (TrafficSimulation.car_objs s' !!! car)
      ∈ Intersection.intersection_positions kv.2
  ∧ car ∈ active_at s' idx.
Proof.
  unfold TrafficSimulation._move_car_on_road. intros Hmove Hfind. revert Hmove.
  destruct (Dict.get road_id (TrafficSimulation.roads s)) as [road|]; simpl; [| done].
  case_bool_decide; [| done].
  destruct (negb _); simpl; [done |].
  rewrite Hfind. destruct kv as [iid inter].
  apply get_intersection_at_position_Some in Hfind as [Hidx Hregion].
  destruct (Intersection.can_car_enter _ _ _ _) as [[|]|]; simpl; [| done | done].
  intros [= <-]. simpl. rewrite !car_call_self. simpl.
  split; [by rewrite lookup_insert_eq |]. split; [done |]. split; [done |].
  unfold active_at. simpl.
  rewrite list_lookup_insert_eq by (by eapply lookup_lt_Some). simpl.
  unfold Intersection.add_car_to_intersection.
  rewrite car_call_self. simpl.
  rewrite bool_decide_eq_true_2 by done. simpl.
  destruct (py_in car (Intersection.cars_in_intersection inter)) eqn:Hin; simpl.
  - by apply py_in_true.
  - apply elem_of_app. right. by apply list_elem_of_singleton.
Qed.

Lemma process_car_in_intersection_Some h inter car d e :
  Intersection.process_car_in_intersection h inter car d = Some e →
  e = Intersection.get_exit_direction h car d.
Proof.
  unfold Intersection.process_car_in_intersection.
  destruct (Intersection.center_position inter) as [center_row center_col].
  destruct (Car.position (h !!! car)) as [row col].
  destruct (Intersection.get_exit_direction h car d);
    case_bool_decide; by intros [= <-].
Qed.

(** X14.  When a step inside an intersection takes the car out of the
    active set, the step succeeded, the record of the car's id is deleted,
    and the car's new heading is the exit direction that the turn table
    gives for the recorded entry direction (for the car's heading, when
    there is no record). *)
Theorem exit_clears_record (s : TrafficSimulation.t) (car : CarRef)
    (iid : string) (inter inter' : Intersection.t) (b : bool)
    (s' : TrafficSimulation.t) :
  TrafficSimulation._move_car_in_intersection s car iid = Some (b, s') →
  Dict.get iid (TrafficSimulation.intersections s) = Some inter →
  Dict.get iid (TrafficSimulation.intersections s') = Some inter' →
  car ∈ Intersection.cars_in_intersection inter →
  car ∉ Intersection.cars_in_intersection inter' →
  b = true
  ∧ TrafficSimulation.car_entry_directions s'
      !! Car.car_id (TrafficSimulation.car_objs s !!! car) = None
  ∧ Car.direction (TrafficSimulation.car_objs s' !!! car)
    = Intersection.get_exit_direction (TrafficSimulation.car_objs s) car
        (default (Car.direction (TrafficSimulation.car_objs s !!! car))
                 (TrafficSimulation.car_entry_directions s
                    !! Car.car_id (TrafficSimulation.car_objs s !!! car))).
Proof.
  intros Hmove Hinter Hinter' Hin Hout. revert Hmove.
  unfold TrafficSimulation._move_car_in_intersection. rewrite Hinter. simpl.
  assert (TrafficSimulation.intersections s' = TrafficSimulation.intersections s
          → False) as Hsame.
  { intros Heq. rewrite Heq, Hinter in Hinter'. by simplify_eq. }
  assert (∀ r, TrafficSimulation.continue_in_intersection s car inter = r →
               Some r = Some (b, s') → False) as Hcont.
  { intros r <-. unfold TrafficSimulation.continue_in_intersection.
    destruct (bool_decide _ && _); intros [= <- <-]; by apply Hsame. }
  destruct (Intersection.process_car_in_intersection _ _ _ _)
    as [exit_direction|] eqn:Hproc; [| intros Hc; by destruct (Hcont _ eq_refl Hc)].
  apply process_car_in_intersection_Some in Hproc.
  destruct (Intersection.connected_roads inter !! exit_direction) as [exit_road|];
    [| intros Hc; by destruct (Hcont _ eq_refl Hc)].
  match goal with |- (if ?c then _ else _) = _ → _ => destruct c end;
    [| intros [= <- <-]; by destruct Hsame].
  match goal with |- context [Road.add_car ?h ?r ?c ?n] =>
    pose proof (Road_add_car_identity h r c n) as (Hid & _ & _ & _ & Hdir);
    destruct (Road.add_car h r c n) as [[ok exit_road'] car_objs3]
  end.
  simpl in Hid, Hdir. intros [= <- <-]. simpl. split; [done |].
  rewrite Hid, Hdir, !car_call_self. simpl. rewrite ?car_call_self. simpl.
  split; [apply lookup_delete_eq | done].
Qed.

(** ** Invariants of the engine *)

Lemma Forall_Dict_set {K V} `{EqDecision K} (P : K * V → Prop) k v
    (d : list (K * V)) :
  Forall P d → P (k, v) → Forall P (Dict.set k v d).
Proof.
  intros Hd Hv. induction Hd as [|[k0 v0] d H0 Hd IH]; simpl.
  - by constructor.
  - destruct (decide (k = k0)); constructor; auto.
Qed.

Lemma py_list_remove_length {A} `{EqDecision A} (x : A) (l : list A) :
  (length (py_list_remove x l) ≤ length l)%nat.
Proof.
  induction l as [|y l IH]; simpl; [done |].
  destruct (decide (x = y)); simpl; lia.
Qed.

Lemma road_within_capacity_lookup (h : RoadHeap) ref :
  map_Forall (λ _ road, road_within_capacity road) h →
  road_within_capacity (h !!! ref).
Proof.
  intros Hh. rewrite lookup_total_alt.
  destruct (h !! ref) as [road|] eqn:Hr; simpl; [by eapply Hh |].
  by constructor.
Qed.

Lemma Road_remove_car_capacity road car :
  road_within_capacity road → road_within_capacity (Road.remove_car road car).2.
Proof.
  unfold road_within_capacity, Road.remove_car.
  destruct (Road.remove_car_lanes (Road.lanes road) car) as [b ls] eqn:Hrm.
  simpl. revert b ls Hrm.
  induction (Road.lanes road) as [|[k lane] lanes IH]; intros b ls; simpl.
  - intros [= <- <-] _. constructor.
  - intros Hrm [Hlane Hrest]%Forall_cons.
    destruct (Lane_remove_car_cars lane car) as [Hcars _].
    destruct (Lane.remove_car lane car) as [removed lane'] eqn:Hl.
    assert (Z.of_nat (length (Lane.cars lane')) ≤ Lane.max_cars lane') as Hlane'.
    { simpl in Hcars. rewrite Hcars.
      assert (Lane.max_cars lane' = Lane.max_cars lane) as ->.
      { unfold Lane.remove_car in Hl.
        destruct (py_in car (Lane.cars lane)); by injection Hl as <- <-. }
      pose proof (py_list_remove_length car (Lane.cars lane)). simpl in *. lia. }
    destruct removed.
    + injection Hrm as <- <-. by constructor.
    + destruct (Road.remove_car_lanes lanes car) as [b' ls'] eqn:Hrest'.
      injection Hrm as <- <-. constructor; [done |]. by eapply IH.
Qed.

Lemma Road_add_car_capacity h road car n :
  road_within_capacity road → road_within_capacity (Road.add_car h road car n).1.2.
Proof.
  unfold road_within_capacity, Road.add_car. intros Hroad.
  destruct (Dict.get n (Road.lanes road)) as [lane|] eqn:Hlane; [| done].
  assert (Z.of_nat (length (Lane.cars lane)) ≤ Lane.max_cars lane) as Hcap.
  { apply Dict_get_elem_of in Hlane.
    by apply (proj1 (Forall_forall _ _) Hroad) in Hlane. }
  unfold Lane.add_car.
  destruct (bool_decide (_ < _)) eqn:Hlt; simpl;
    [destruct (bool_decide (_ ∈ _)); simpl |];
    apply Forall_Dict_set; try done; simpl.
  apply bool_decide_eq_true in Hlt. rewrite length_app. simpl. lia.
Qed.

Lemma road_remove_car_capacity car (h : RoadHeap) road :
  map_Forall (λ _ r, road_within_capacity r) h →
  map_Forall (λ _ r, road_within_capacity r)
             (TrafficSimulation.road_remove_car car h road).
Proof.
  intros Hh. unfold TrafficSimulation.road_remove_car.
  apply map_Forall_insert_2; [| done].
  by apply Road_remove_car_capacity, road_within_capacity_lookup.
Qed.

Lemma move_car_capacity s car b s' :
  TrafficSimulation.move_car s car = Some (b, s') →
  lanes_within_capacity s → lanes_within_capacity s'.
Proof.
  unfold lanes_within_capacity, TrafficSimulation.move_car.
  destruct (TrafficSimulation.find_car_location s car) as [road_id intersection_id].
  destruct (py_truthy road_id).
  - unfold TrafficSimulation._move_car_on_road.
    destruct (Dict.get _ (TrafficSimulation.roads s)) as [road|]; simpl; [| done].
    case_bool_decide; [| by intros [= <- <-]].
    destruct (negb _); simpl; [by intros [= <- <-] |].
    destruct (TrafficSimulation._get_intersection_at_position s _)
      as [[idx [iid inter]]|].
    + destruct (Intersection.can_car_enter _ _ _ _) as [[|]|]; simpl; [| | done];
        intros [= <- <-]; simpl; [| done].
      apply road_remove_car_capacity.
    + destruct (negb _); by intros [= <- <-].
  - destruct (py_truthy intersection_id); [| by intros [= <- <-]].
    unfold TrafficSimulation._move_car_in_intersection,
      TrafficSimulation.continue_in_intersection.
    destruct (Dict.get _ (TrafficSimulation.intersections s)) as [inter|];
      simpl; [| done].
    destruct (Intersection.process_car_in_intersection _ _ _ _) as [exit_direction|];
      [| destruct (bool_decide _ && _); by intros [= <- <-]].
    destruct (Intersection.connected_roads inter !! exit_direction) as [exit_road|];
      [| destruct (bool_decide _ && _); by intros [= <- <-]].
    match goal with |- (if ?c then _ else _) = _ → _ => destruct c end;
      [| by intros [= <- <-]].
    match goal with |- context [Road.add_car ?h ?r ?c ?n] =>
      pose proof (Road_add_car_capacity h r c n) as Hadd;
      destruct (Road.add_car h r c n) as [[ok exit_road'] car_objs3]
    end.
    simpl in Hadd. intros [= <- <-] Hh. simpl.
    apply map_Forall_insert_2; [| done].
    by apply Hadd, road_within_capacity_lookup.
Qed.

Lemma move_cars_capacity cars_to_move : ∀ s r,
  TrafficSimulation.move_cars cars_to_move s = Some r →
  lanes_within_capacity s → lanes_within_capacity r.2.
Proof.
  induction cars_to_move as [|c0 rest IH]; intros s r; simpl.
  - by intros [= <-].
  - destruct (TrafficSimulation.move_car s c0) as [[b0 s1]|] eqn:Hm; simpl; [| done].
    destruct (TrafficSimulation.move_cars rest s1) as [r1|] eqn:Hr; simpl; [| done].
    intros [= <-] Hs. simpl. eapply IH; [done |]. by eapply move_car_capacity.
Qed.

Lemma apply_op_capacity s op s' :
  apply_op s op = Some s' → lanes_within_capacity s → lanes_within_capacity s'.
Proof.
  unfold lanes_within_capacity. destruct op as [car rid n|car|iid d st|order]; simpl.
  - intros [= <-] Hs. unfold TrafficSimulation.add_car.
    destruct (Dict.get rid (TrafficSimulation.roads s)) as [road|]; [| done].
    match goal with |- context [Road.add_car ?h ?r ?c ?n] =>
      pose proof (Road_add_car_capacity h r c n) as Hadd;
      destruct (Road.add_car h r c n) as [[ok road'] h']
    end.
    simpl in Hadd.
    assert (map_Forall (λ _ r, road_within_capacity r)
                       (<[road := road']> (TrafficSimulation.road_objs s))) as H'.
    { apply map_Forall_insert_2; [| done].
      by apply Hadd, road_within_capacity_lookup. }
    by destruct ok.
  - intros [= <-] Hs. unfold TrafficSimulation.remove_car.
    destruct (py_in car (TrafficSimulation.cars s)); [| done].
    assert (map_Forall (λ _ r, road_within_capacity r)
              (foldl (TrafficSimulation.road_remove_car car)
                     (TrafficSimulation.road_objs s)
                     (Dict.values (TrafficSimulation.roads s)))) as H'.
    { revert Hs. generalize (TrafficSimulation.road_objs s).
      induction (Dict.values (TrafficSimulation.roads s)) as [|a refs IH];
        intros h Hh; simpl; [done |].
      by apply IH, road_remove_car_capacity. }
    simpl. by case_bool_decide.
  - intros [= <-] Hs. unfold TrafficSimulation.set_traffic_light.
    by destruct (Dict.get iid (TrafficSimulation.intersections s)).
  - case_bool_decide; [| done]. unfold TrafficSimulation.tick, TrafficSimulation.tick_log.
    destruct (TrafficSimulation.update_all_lights _) as [s1|] eqn:Hu; simpl; [| done].
    destruct (TrafficSimulation.move_cars order s1) as [r|] eqn:Hr; simpl; [| done].
    intros [= <-] Hs. apply (move_cars_capacity _ _ _ Hr).
    unfold lanes_within_capacity.
    apply update_all_lights_spec in Hu as (_ & -> & _). done.
Qed.

(** X15.  Lane capacity is an invariant of the engine: if no lane of any
    road object holds more cars than its [max_cars], the same is true after
    any sequence of [add_car], [remove_car], [set_traffic_light] and
    [tick] calls that completes. *)
Theorem lane_capacity_invariant (ops : list Op) (s s' : TrafficSimulation.t) :
  lanes_within_capacity s → run_ops ops s = Some s' → lanes_within_capacity s'.
Proof.
  revert s. induction ops as [|op ops IH]; intros s Hs; simpl.
  - by intros [= <-].
  - destruct (apply_op s op) as [s1|] eqn:Hop; simpl; [| done].
    apply IH. by eapply apply_op_capacity.
Qed.

Lemma add_car_to_intersection_NoDup h inter car :
  NoDup (Intersection.cars_in_intersection inter) →
  NoDup (Intersection.cars_in_intersection
           (Intersection.add_car_to_intersection h inter car).2).
Proof.
  intros Hnd. unfold Intersection.add_car_to_intersection.
  destruct (bool_decide _); simpl; [| done].
  destruct (py_in car (Intersection.cars_in_intersection inter)) eqn:Hin; simpl;
    [done |].
  apply py_in_false in Hin. apply NoDup_app. split; [done |].
  split; [| apply NoDup_singleton].
  intros x Hx ->%list_elem_of_singleton. done.
Qed.

Lemma move_car_active_NoDup s car b s' :
  TrafficSimulation.move_car s car = Some (b, s') →
  active_sets_NoDup s → active_sets_NoDup s'.
Proof.
  unfold active_sets_NoDup, TrafficSimulation.move_car.
  destruct (TrafficSimulation.find_car_location s car) as [road_id intersection_id].
  destruct (py_truthy road_id).
  - unfold TrafficSimulation._move_car_on_road.
    destruct (Dict.get _ (TrafficSimulation.roads s)) as [road|]; simpl; [| done].
    case_bool_decide; [| by intros [= <- <-]].
    destruct (negb _); simpl; [by intros [= <- <-] |].
    destruct (TrafficSimulation._get_intersection_at_position s _)
      as [[idx [iid inter]]|] eqn:Hfind.
    + apply get_intersection_at_position_Some in Hfind as [Hidx _].
      destruct (Intersection.can_car_enter _ _ _ _) as [[|]|]; simpl; [| | done];
        intros [= <- <-]; simpl; [| done].
      intros Hs. apply Forall_insert; [done |]. simpl.
      apply add_car_to_intersection_NoDup.
      by apply (Forall_lookup_1 _ _ _ _ Hs Hidx).
    + destruct (negb _); by intros [= <- <-].
  - destruct (py_truthy intersection_id); [| by intros [= <- <-]].
    unfold TrafficSimulation._move_car_in_intersection,
      TrafficSimulation.continue_in_intersection.
    destruct (Dict.get _ (TrafficSimulation.intersections s)) as [inter|] eqn:Hget;
      simpl; [| done].
    destruct (Intersection.process_car_in_intersection _ _ _ _) as [exit_direction|];
      [| destruct (bool_decide _ && _); by intros [= <- <-]].
    destruct (Intersection.connected_roads inter !! exit_direction) as [exit_road|];
      [| destruct (bool_decide _ && _); by intros [= <- <-]].
    match goal with |- (if ?c then _ else _) = _ → _ => destruct c end;
      [| by intros [= <- <-]].
    destruct (Road.add_car _ _ _ _) as [[ok exit_road'] car_objs3].
    intros [= <- <-] Hs. simpl. apply Forall_Dict_set; [done |]. simpl.
    rewrite Intersection_remove_car_cars. apply py_list_remove_NoDup.
    apply Dict_get_elem_of in Hget.
    by apply (proj1 (Forall_forall _ _) Hs) in Hget.
Qed.

Lemma move_cars_active_NoDup cars_to_move : ∀ s r,
  TrafficSimulation.move_cars cars_to_move s = Some r →
  active_sets_NoDup s → active_sets_NoDup r.2.
Proof.
  induction cars_to_move as [|c0 rest IH]; intros s r; simpl.
  - by intros [= <-].
  - destruct (TrafficSimulation.move_car s c0) as [[b0 s1]|] eqn:Hm; simpl; [| done].
    destruct (TrafficSimulation.move_cars rest s1) as [r1|] eqn:Hr; simpl; [| done].
    intros [= <-] Hs. simpl. eapply IH; [done |]. by eapply move_car_active_NoDup.
Qed.

Lemma apply_op_active_NoDup s op s' :
  apply_op s op = Some s' → active_sets_NoDup s → active_sets_NoDup s'.
Proof.
  unfold active_sets_NoDup. destruct op as [car rid n|car|iid d st|order]; simpl.
  - intros [= <-] Hs. unfold TrafficSimulation.add_car.
    destruct (Dict.get rid (TrafficSimulation.roads s)) as [road|]; [| done].
    destruct (Road.add_car _ _ _ _) as [[[] road'] h']; done.
  - intros [= <-] Hs. unfold TrafficSimulation.remove_car.
    destruct (py_in car (TrafficSimulation.cars s)); [| done].
    assert (Forall (λ kv : string * Intersection.t,
                      NoDup (Intersection.cars_in_intersection kv.2))
              (map (λ kv : string * Intersection.t,
                      (kv.1, (Intersection.remove_car_from_intersection kv.2 car).2))
                   (TrafficSimulation.intersections s))) as H'.
    { apply Forall_fmap. eapply Forall_impl; [exact Hs |].
      intros [k i] Hi. simpl in *. rewrite Intersection_remove_car_cars.
      by apply py_list_remove_NoDup. }
    simpl. by case_bool_decide.
  - intros [= <-] Hs. unfold TrafficSimulation.set_traffic_light.
    destruct (Dict.get iid (TrafficSimulation.intersections s)) as [inter|] eqn:Hget;
      [| done].
    simpl. apply Forall_Dict_set; [done |]. simpl.
    apply Dict_get_elem_of in Hget.
    by apply (proj1 (Forall_forall _ _) Hs) in Hget.
  - case_bool_decide; [| done]. unfold TrafficSimulation.tick, TrafficSimulation.tick_log.
    destruct (TrafficSimulation.update_all_lights _) as [s1|] eqn:Hu; simpl; [| done].
    destruct (TrafficSimulation.move_cars order s1) as [r|] eqn:Hr; simpl; [| done].
    intros [= <-] Hs. apply (move_cars_active_NoDup _ _ _ Hr).
    unfold active_sets_NoDup.
    apply update_all_lights_spec in Hu as (_ & _ & _ & _ & Hint). simpl in Hint.
    clear -Hint Hs. induction Hint as [|x y l l' (_ & Hcars & _) _ IH];
      [constructor |].
    apply Forall_cons in Hs as [Hy Hl']. constructor; [by rewrite Hcars | auto].
Qed.

(** X16.  Active sets stay duplicate-free: if no active set holds a car
    twice, the same is true after any sequence of [add_car], [remove_car],
    [set_traffic_light] and [tick] calls that completes. *)
Theorem active_sets_NoDup_invariant (ops : list Op) (s s' : TrafficSimulation.t) :
  active_sets_NoDup s → run_ops ops s = Some s' → active_sets_NoDup s'.
Proof.
  revert s. induction ops as [|op ops IH]; intros s Hs; simpl.
  - by intros [= <-].
  - destruct (apply_op s op) as [s1|] eqn:Hop; simpl; [| done].
    apply IH. by eapply apply_op_active_NoDup.
Qed.

(** ** Registering, then removing *)

Lemma py_list_remove_snoc {A} `{EqDecision A} (x : A) (l : list A) :
  x ∉ l → py_list_remove x (l ++ [x]) = l.
Proof.
  intros Hni. rewrite py_list_remove_app, (proj2 (py_in_false _ _) Hni).
  simpl. rewrite decide_True by done. by rewrite app_nil_r.
Qed.

Lemma Lane_remove_car_absent lane car :
  car ∉ Lane.cars lane → Lane.remove_car lane car = (false, lane).
Proof.
  intros Hni. unfold Lane.remove_car. by rewrite (proj2 (py_in_false _ _) Hni).
Qed.

Lemma remove_car_lanes_absent ls car :
  (∀ nl : Z * Lane.t, nl ∈ ls → car ∉ Lane.cars nl.2) →
  Road.remove_car_lanes ls car = (false, ls).
Proof.
  induction ls as [|[k lane] ls IH]; intros Hall; simpl; [done |].
  rewrite Lane_remove_car_absent by (apply (Hall (k, lane)); left).
  rewrite IH; [done |]. intros nl Hnl. apply Hall. by right.
Qed.

Lemma get_all_cars_absent r car :
  car ∉ Road.get_all_cars r ↔
  ∀ nl : Z * Lane.t, nl ∈ Road.lanes r → car ∉ Lane.cars nl.2.
Proof.
  unfold Road.get_all_cars, Dict.values. rewrite list_elem_of_bind. split.
  - intros Hni nl Hnl Hcar. apply Hni. exists nl.2. split; [done |].
    apply list_elem_of_fmap. by exists nl.
  - intros Hall (lane & Hcar & (nl & -> & Hnl)%list_elem_of_fmap).
    by apply (Hall nl).
Qed.

Lemma Road_remove_car_absent r car :
  car ∉ Road.get_all_cars r → (Road.remove_car r car).2 = r.
Proof.
  intros Hni. pose proof (proj1 (get_all_cars_absent r car) Hni) as Hall.
  unfold Road.remove_car.
  rewrite remove_car_lanes_absent by done. by destruct r.
Qed.

Lemma remove_car_lanes_after_add ls car n lane :
  (∀ nl : Z * Lane.t, nl ∈ ls → car ∉ Lane.cars nl.2) →
  Dict.get n ls = Some lane →
  Road.remove_car_lanes
    (Dict.set n (Lane.set_cars (Lane.cars lane ++ [car]) lane) ls) car
  = (true, ls).
Proof.
  induction ls as [|[k l0] ls IH]; intros Hall; simpl; [done |].
  destruct (decide (n = k)) as [->|Hne].
  - intros [= ->]. simpl. unfold Lane.remove_car. simpl.
    assert (car ∉ Lane.cars lane) as Hni by (apply (Hall (k, lane)); left).
    rewrite (proj2 (py_in_true car (Lane.cars lane ++ [car])))
      by (apply elem_of_app; right; by apply list_elem_of_singleton).
    rewrite py_list_remove_snoc by done. by destruct lane.
  - intros Hget. simpl.
    rewrite Lane_remove_car_absent by (apply (Hall (k, l0)); left).
    rewrite IH; [done | | done]. intros nl Hnl. apply Hall. by right.
Qed.

Lemma remove_from_roads_restores car (h0 : RoadHeap) road road' refs :
  (Road.remove_car road' car).2 = h0 !!! road →
  (∀ ref, ref ∈ refs →
          is_Some (h0 !! ref) ∧ car ∉ Road.get_all_cars (h0 !!! ref)) →
  ∀ h, h = h0 ∨ (h = <[road := road']> h0 ∧ road ∈ refs) →
       foldl (TrafficSimulation.road_remove_car car) h refs = h0.
Proof.
  intros Hback. induction refs as [|a refs IH]; intros Hrefs h Hh; simpl.
  - destruct Hh as [-> | [_ ?%elem_of_nil]]; done.
  - assert (is_Some (h0 !! a) ∧ car ∉ Road.get_all_cars (h0 !!! a)) as [[ra Ha] Hni]
      by (apply Hrefs; left).
    assert (∀ ref, ref ∈ refs →
              is_Some (h0 !! ref) ∧ car ∉ Road.get_all_cars (h0 !!! ref)) as Hrefs'
      by (intros ref Href; apply Hrefs; by right).
    unfold TrafficSimulation.road_remove_car at 2.
    destruct Hh as [-> | [-> Hin]].
    + apply IH; [done |]. left.
      rewrite Road_remove_car_absent by done.
      apply insert_id. by rewrite (lookup_total_correct _ _ _ Ha) in *.
    + destruct (decide (road = a)) as [->|Hne].
      * apply IH; [done |]. left.
        rewrite lookup_total_insert_eq, Hback, insert_insert_eq.
        apply insert_id. by rewrite (lookup_total_correct _ _ _ Ha).
      * apply IH; [done |]. right.
        apply elem_of_cons in Hin as [?|Hin]; [done |]. split; [| done].
        rewrite lookup_total_insert_ne by done.
        rewrite Road_remove_car_absent by done.
        rewrite insert_insert_ne by done. f_equal.
        apply insert_id. by rewrite (lookup_total_correct _ _ _ Ha).
Qed.

(** X17.  Registering a car that the engine does not hold and removing it
    again restores the engine: if the car is not in the car list, in no
    lane of a road of the engine and in no active set, and its id has no
    entry-direction record, then after a successful [add_car] a
    [remove_car] gives back the state before the [add_car], except that the
    car's lane index is now [lane_num]. *)
Theorem add_then_remove_restores (s : TrafficSimulation.t) (car : CarRef)
    (road_id : string) (lane_num : Z) :
  roads_constructed s = true →
  car ∉ TrafficSimulation.cars s →
  (∀ road, road ∈ Dict.values (TrafficSimulation.roads s) →
           car ∉ Road.get_all_cars (TrafficSimulation.road_objs s !!! road)) →
  (∀ inter, inter ∈ Dict.values (TrafficSimulation.intersections s) →
            car ∉ Intersection.cars_in_intersection inter) →
  TrafficSimulation.car_entry_directions s
    !! Car.car_id (TrafficSimulation.car_objs s !!! car) = None →
  (TrafficSimulation.add_car s car road_id lane_num).1 = true →
  TrafficSimulation.remove_car
    (TrafficSimulation.add_car s car road_id lane_num).2 car
  = TrafficSimulation.set_car_objs
      (car_call (Car.set_lane lane_num) car (TrafficSimulation.car_objs s)) s.
Proof.
  intros Hwf Hcars Hroads Hints Hrec.
  unfold TrafficSimulation.add_car.
  destruct (Dict.get road_id (TrafficSimulation.roads s)) as [road|] eqn:Hroad;
    [| done].
  unfold Road.add_car.
  destruct (Dict.get lane_num (Road.lanes (TrafficSimulation.road_objs s !!! road)))
    as [lane|] eqn:Hlane; [| done].
  unfold Lane.add_car. destruct (bool_decide _ && bool_decide _); simpl; [| done].
  intros _. rewrite remove_car_present
    by (simpl; apply elem_of_app; right; by apply list_elem_of_singleton).
  simpl. rewrite car_call_self. simpl. rewrite py_list_remove_snoc by done.
  rewrite (delete_id _ _ Hrec).
  assert (road ∈ Dict.values (TrafficSimulation.roads s)) as Hin
    by (by eapply Dict_get_values).
  match goal with
  | |- context [foldl _ (<[road := ?r']> _) ?refs] =>
      rewrite (remove_from_roads_restores car (TrafficSimulation.road_objs s)
                 road r' refs)
  end.
  - replace (map _ (TrafficSimulation.intersections s))
      with (TrafficSimulation.intersections s); [by destruct s |].
    clear -Hints. unfold Dict.values in Hints.
    induction (TrafficSimulation.intersections s) as [|[k i] l IH]; simpl; [done |].
    rewrite <-IH by (intros inter Hinter; apply Hints; rewrite fmap_cons; by right).
    f_equal. f_equal. unfold Intersection.remove_car_from_intersection.
    rewrite (proj2 (py_in_false car (Intersection.cars_in_intersection i))); [done |].
    apply Hints. rewrite fmap_cons. left.
  - unfold Road.remove_car. simpl.
    rewrite remove_car_lanes_after_add; [| | done].
    + by destruct (TrafficSimulation.road_objs s !!! road).
    + apply (proj1 (get_all_cars_absent _ car)). by apply Hroads.
  - intros ref Href. split; [| by apply Hroads].
    unfold Dict.values in Href.
    apply list_elem_of_fmap in Href as ([k r] & -> & Hkr). simpl.
    unfold roads_constructed in Hwf. rewrite forallb_forall in Hwf.
    apply list_elem_of_In, Hwf in Hkr. simpl in Hkr.
    destruct (TrafficSimulation.road_objs s !! r); [by eexists | done].
  - by right.
Qed.

(** ** The queue simulation (backend/traffic_sim.py) *)

Lemma arrive_length a time queue :
  length (TrafficSim.arrive a time queue) = (length queue + Nat.b2n a)%nat.
Proof.
  destruct a; simpl; [rewrite length_app; simpl|]; lia.
Qed.

Lemma serve_length time queue w queue' w' :
  TrafficSim.serve time queue w = (queue', w') →
  (length queue' + length w' = length queue + length w)%nat.
Proof.
  destruct queue as [|a rest]; intros [= <- <-]; simpl; [done|].
  rewrite length_app; simpl; lia.
Qed.



Lemma sim_step_cars s st :
  sim_cars (sim_step s st) = (sim_cars s + arrivals (step_draws st))%nat.
Proof.
  destruct s as [n so e w sg t wf wd tm], st as [[an as_ ae aw]|[an as_ ae aw]];
    unfold sim_cars, arrivals; simpl.
  - unfold TrafficSim.run_simulation_step_fixed; simpl.
    destruct (bool_decide (tm + 1 >= _)); simpl.
    + destruct (bool_decide (sg = _)); simpl.
      all: repeat match goal with
        | |- context [TrafficSim.serve ?t ?q ?w] =>
            let H := fresh in
            destruct (TrafficSim.serve t q w) as [??] eqn:H;
            apply serve_length in H
        end; simpl; rewrite ?arrive_length in *; lia.
    + destruct (bool_decide (sg = _)); simpl.
      all: repeat match goal with
        | |- context [TrafficSim.serve ?t ?q ?w] =>
            let H := fresh in
            destruct (TrafficSim.serve t q w) as [??] eqn:H;
            apply serve_length in H
        end; simpl; rewrite ?arrive_length in *; lia.
  - unfold TrafficSim.run_simulation_step_dynamic; simpl.
    destruct (bool_decide (_ > _)); simpl.
    all: repeat match goal with
      | |- context [TrafficSim.serve ?t ?q ?w] =>
          let H := fresh in
          destruct (TrafficSim.serve t q w) as [??] eqn:H;
          apply serve_length in H
      end; simpl; rewrite ?arrive_length in *; lia.
Qed.


Lemma fixed_step_signal d s :
  let s' := TrafficSim.run_simulation_step_fixed d s in
  let switch := bool_decide (TrafficSim.signal_timer s + 1
                             >= TrafficSim.fixed_green_duration) in
  TrafficSim.simulation_time s' = TrafficSim.simulation_time s + 1
  ∧ TrafficSim.signal_timer s'
    = (if switch then 0 else TrafficSim.signal_timer s + 1)
  ∧ TrafficSim.signal_state s'
    = (if switch
       then if bool_decide (TrafficSim.signal_state s = "NorthSouth")
            then "EastWest" else "NorthSouth"
       else TrafficSim.signal_state s).
Proof.
  destruct s as [n so e w sg t wf wd tm], d as [an as_ ae aw]; simpl.
  unfold TrafficSim.run_simulation_step_fixed; simpl.
  destruct (bool_decide (tm + 1 >= _)); simpl.
  all: destruct (bool_decide (sg = _)); simpl.
  all: repeat match goal with
    | |- context [TrafficSim.serve ?t ?q ?w] =>
        destruct (TrafficSim.serve t q w) as [??]
    end; simpl; done.
Qed.

(** X18.  The queue simulation neither loses nor invents cars: after any
    sequence of fixed and dynamic steps, from any state, the cars queued
    plus the waiting times recorded are those of the start plus one per
    arrival drawn. *)
Theorem queue_cars_conserved (s : TrafficSim.t) (steps : list SimStep) :
  sim_cars (foldl sim_step s steps)
  = (sim_cars s + sum_list (arrivals ∘ step_draws <$> steps))%nat.
Proof.
  revert s. induction steps as [|st steps IH]; intros s; simpl; [lia|].
  rewrite IH, sim_step_cars. symmetry. apply Nat.add_assoc.
Qed.



(** X20.  The fixed schedule has period ten.  After [k] fixed steps from
    the initial state, whatever cars arrive, the clock shows [k], the
    signal timer is [k mod 5], and the signal is "NorthSouth" when [k / 5]
    is even and "EastWest" when it is odd: the first green phase lasts four
    steps, every later one five. *)
Theorem fixed_signal_period (ds : list TrafficSim.draws) :
  let s := foldl (λ s d, TrafficSim.run_simulation_step_fixed d s)
             TrafficSim.reset_simulation ds in
  let k := Z.of_nat (length ds) in
  TrafficSim.simulation_time s = k
  ∧ TrafficSim.signal_timer s = k mod 5
  ∧ TrafficSim.signal_state s
    = (if Z.even (k / 5) then "NorthSouth" else "EastWest").
Proof.
  induction ds as [|d ds IH] using rev_ind; [done|].
  rewrite foldl_app, length_app; simpl.
  destruct IH as (Ht & Htm & Hsg).
  pose proof (fixed_step_signal d
    (foldl (λ s d, TrafficSim.run_simulation_step_fixed d s)
       TrafficSim.reset_simulation ds)) as (Ht' & Htm' & Hsg').
  rewrite Ht', Htm', Hsg', Ht, Htm, Hsg. clear Ht' Htm' Hsg' Ht Htm Hsg.
  unfold TrafficSim.fixed_green_duration.
  replace (Z.of_nat (length ds + 1)) with (Z.of_nat (length ds) + 1) by lia.
  set (k := Z.of_nat (length ds)). assert (0 ≤ k) by lia. clearbody k.
  split; [done|].
  case_bool_decide as Hsw.
  - assert ((k + 1) mod 5 = 0 ∧ (k + 1) / 5 = k / 5 + 1) as [-> ->]
      by (clear -Hsw H; Z.div_mod_to_equations; lia).
    split; [done|].
    replace (k / 5 + 1) with (Z.succ (k / 5)) by lia.
    rewrite Z.even_succ, <- Z.negb_even.
    by destruct (Z.even (k / 5)).
  - assert ((k + 1) mod 5 = k mod 5 + 1 ∧ (k + 1) / 5 = k / 5) as [-> ->]
      by (clear -Hsw H; Z.div_mod_to_equations; lia).
    done.
Qed.

(** ** The further theorems at work on the reference topology *)

(** [automatic_cycle_leaves_green_red] for the controller that
    [Intersection.__init__] builds. *)
Lemma automatic_cycle_leaves_green_red_witness :
  ∃ c',
    TrafficLightController.update_automatic_cycle
      (constructed_controller "main_intersection") = Some c'
    ∧ TrafficLightController.update c' = c'.
Proof.
  pose (c := constructed_controller "main_intersection").
  pose (c' := default c (TrafficLightController.update_automatic_cycle c)).
  assert (TrafficLightController.update_automatic_cycle c = Some c') as H
    by (vm_compute; reflexivity).
  exists c'. split; [exact H |].
  exact (proj2 (automatic_cycle_leaves_green_red c c' H)).
Defined.

(** [left_turn_never_enters_in_tick] for a car before the intersection on
    the north road, in the first tick. *)
Lemma left_turn_never_enters_in_tick_witness :
  ∃ s1 sb,
    TrafficSimulation.update_all_lights
      (TrafficSimulation.set_tick_count
         (TrafficSimulation.tick_count left_turn_registered + 1)
         left_turn_registered) = Some s1
    ∧ TrafficSimulation.move_car s1 0%nat = Some (false, sb)
    ∧ (0%nat ∉ active_at s1 0%nat)
    ∧ (0%nat ∉ active_at sb 0%nat).
Proof.
  pose (s1 := default left_turn_registered
                (TrafficSimulation.update_all_lights
                   (TrafficSimulation.set_tick_count
                      (TrafficSimulation.tick_count left_turn_registered + 1)
                      left_turn_registered))).
  pose (sb := (default (false, s1) (TrafficSimulation.move_car s1 0%nat)).2).
  assert (TrafficSimulation.update_all_lights
            (TrafficSimulation.set_tick_count
               (TrafficSimulation.tick_count left_turn_registered + 1)
               left_turn_registered) = Some s1) as H1
    by (vm_compute; reflexivity).
  assert (TrafficSimulation.move_cars [] s1 = Some ([], s1)) as H2
    by reflexivity.
  assert (TrafficSimulation.move_car s1 0%nat = Some (false, sb)) as H3
    by (vm_compute; reflexivity).
  assert (Car.intended_movement (TrafficSimulation.car_objs s1 !!! 0%nat) = LEFT)
    as H4 by (vm_compute; reflexivity).
  assert (0%nat ∉ active_at s1 0%nat) as H5
    by (vm_compute; apply not_elem_of_nil).
  exists s1, sb. repeat (split; [done |]).
  exact (left_turn_never_enters_in_tick left_turn_registered s1 s1 sb [] []
           0%nat false H1 H2 H3 H4 0%nat H5).
Defined.

(** [move_attempt_one_cell] for the car at (9, 10), which steps to
    (10, 10). *)
Lemma move_attempt_one_cell_witness :
  ∃ s',
    TrafficSimulation.move_car crossing_inside 0%nat = Some (true, s')
    ∧ Car.position (TrafficSimulation.car_objs s' !!! 0%nat)
      = Car.get_next_position
          (TrafficSimulation.car_objs crossing_inside !!! 0%nat) 1.
Proof.
  pose (s' := (default (false, crossing_inside)
                 (TrafficSimulation.move_car crossing_inside 0%nat)).2).
  assert (TrafficSimulation.move_car crossing_inside 0%nat = Some (true, s'))
    as H by (vm_compute; reflexivity).
  exists s'. split; [exact H |].
  exact (proj1 (move_attempt_one_cell crossing_inside 0%nat true s' H)).
Defined.

(** [tick_keeps_population] for the first tick of the registered car. *)
Lemma tick_keeps_population_witness :
  ∃ log s',
    TrafficSimulation.tick_log [0%nat] crossing_registered = Some (log, s')
    ∧ TrafficSimulation.tick_count s'
      = TrafficSimulation.tick_count crossing_registered + 1
    ∧ TrafficSimulation.cars s' = TrafficSimulation.cars crossing_registered.
Proof.
  pose (r := default ([], crossing_registered)
               (TrafficSimulation.tick_log [0%nat] crossing_registered)).
  assert (TrafficSimulation.tick_log [0%nat] crossing_registered
          = Some (r.1, r.2)) as H by (vm_compute; reflexivity).
  exists r.1, r.2. split; [exact H |].
  destruct (tick_keeps_population crossing_registered [0%nat] r.1 r.2 H)
    as (Hcount & Hcars & _).
  by split.
Defined.

(** [road_move_is_safe] for a car in the middle of the north road. *)
Lemma road_move_is_safe_witness :
  ∃ s',
    TrafficSimulation._move_car_on_road midroad_registered 0%nat "north_road"
    = Some (true, s')
    ∧ 0 ≤ (Car.get_next_position
             (TrafficSimulation.car_objs midroad_registered !!! 0%nat) 1).1
      < (TrafficSimulation.grid_size midroad_registered).2.
Proof.
  pose (s' := (default (false, midroad_registered)
                 (TrafficSimulation._move_car_on_road midroad_registered 0%nat
                    "north_road")).2).
  assert (TrafficSimulation._move_car_on_road midroad_registered 0%nat
            "north_road" = Some (true, s')) as H
    by (vm_compute; reflexivity).
  exists s'. split; [exact H |].
  exact (proj1 (road_move_is_safe midroad_registered 0%nat "north_road" s' H)).
Defined.

(** [entry_is_recorded] for the car at (8, 10) before a green light. *)
Lemma entry_is_recorded_witness :
  ∃ s' kv,
    TrafficSimulation._move_car_on_road crossing_signalled 0%nat "north_road"
    = Some (true, s')
    ∧ TrafficSimulation._get_intersection_at_position crossing_signalled
        (Car.get_next_position
           (TrafficSimulation.car_objs crossing_signalled !!! 0%nat) 1)
      = Some (0%nat, kv)
    ∧ TrafficSimulation.car_entry_directions s'
        !! Car.car_id (TrafficSimulation.car_objs crossing_signalled !!! 0%nat)
      = Some (Car.direction (TrafficSimulation.car_objs crossing_signalled !!! 0%nat)).
Proof.
  pose (s' := (default (false, crossing_signalled)
                 (TrafficSimulation._move_car_on_road crossing_signalled 0%nat
                    "north_road")).2).
  pose (kv := (default (0%nat, (EmptyString, Intersection.init EmptyString (0, 0) 3))
                 (TrafficSimulation._get_intersection_at_position
                    crossing_signalled
                    (Car.get_next_position
                       (TrafficSimulation.car_objs crossing_signalled !!! 0%nat)
                       1))).2).
  assert (TrafficSimulation._move_car_on_road crossing_signalled 0%nat
            "north_road" = Some (true, s')) as H1
    by (vm_compute; reflexivity).
  assert (TrafficSimulation._get_intersection_at_position crossing_signalled
            (Car.get_next_position
               (TrafficSimulation.car_objs crossing_signalled !!! 0%nat) 1)
          = Some (0%nat, kv)) as H2
    by (vm_compute; reflexivity).
  exists s', kv. split; [exact H1 |]. split; [exact H2 |].
  exact (proj1 (entry_is_recorded crossing_signalled 0%nat "north_road" s'
                  0%nat kv H1 H2)).
Defined.

(** [exit_clears_record] for the car at (11, 10), which leaves for the
    south road. *)
Lemma exit_clears_record_witness :
  ∃ b s' inter inter',
    TrafficSimulation._move_car_in_intersection crossing_at_exit 0%nat
      "main_intersection" = Some (b, s')
    ∧ Dict.get "main_intersection" (TrafficSimulation.intersections crossing_at_exit)
      = Some inter
    ∧ Dict.get "main_intersection" (TrafficSimulation.intersections s')
      = Some inter'
    ∧ 0%nat ∈ Intersection.cars_in_intersection inter
    ∧ (0%nat ∉ Intersection.cars_in_intersection inter')
    ∧ b = true.
Proof.
  pose (r := default (false, crossing_at_exit)
               (TrafficSimulation._move_car_in_intersection crossing_at_exit
                  0%nat "main_intersection")).
  pose (i := default (Intersection.init EmptyString (0, 0) 3)
               (Dict.get "main_intersection"
                  (TrafficSimulation.intersections crossing_at_exit))).
  pose (i' := default (Intersection.init EmptyString (0, 0) 3)
                (Dict.get "main_intersection"
                   (TrafficSimulation.intersections r.2))).
  assert (TrafficSimulation._move_car_in_intersection crossing_at_exit 0%nat
            "main_intersection" = Some (r.1, r.2)) as H1
    by (vm_compute; reflexivity).
  assert (Dict.get "main_intersection"
            (TrafficSimulation.intersections crossing_at_exit) = Some i) as H2
    by (vm_compute; reflexivity).
  assert (Dict.get "main_intersection" (TrafficSimulation.intersections r.2)
          = Some i') as H3
    by (vm_compute; reflexivity).
  assert (0%nat ∈ Intersection.cars_in_intersection i) as H4
    by (vm_compute; left).
  assert (0%nat ∉ Intersection.cars_in_intersection i') as H5
    by (vm_compute; apply not_elem_of_nil).
  exists r.1, r.2, i, i'. repeat (split; [done |]).
  exact (proj1 (exit_clears_record crossing_at_exit 0%nat "main_intersection"
                  i i' r.1 r.2 H1 H2 H3 H4 H5)).
Defined.

(** [lane_capacity_invariant] for a registration and a tick. *)
Lemma lane_capacity_invariant_witness :
  ∃ s',
    lanes_within_capacity crossing_world
    ∧ run_ops [AddCar 0%nat "north_road" 0; Tick [0%nat]] crossing_world
      = Some s'
    ∧ lanes_within_capacity s'.
Proof.
  pose (ops := [AddCar 0%nat "north_road" 0; Tick [0%nat]]).
  pose (s' := default crossing_world (run_ops ops crossing_world)).
  assert (lanes_within_capacity crossing_world) as H1.
  { apply map_Forall_to_list. vm_compute. repeat constructor; done. }
  assert (run_ops ops crossing_world = Some s') as H2
    by (vm_compute; reflexivity).
  exists s'. split; [exact H1 |]. split; [exact H2 |].
  exact (lane_capacity_invariant ops crossing_world s' H1 H2).
Defined.

(** [active_sets_NoDup_invariant] for a registration and two ticks, after
    which the car is in the active set. *)
Lemma active_sets_NoDup_invariant_witness :
  ∃ s',
    active_sets_NoDup crossing_world
    ∧ run_ops [AddCar 0%nat "north_road" 0; Tick [0%nat]; Tick [0%nat]]
        crossing_world = Some s'
    ∧ active_sets_NoDup s'.
Proof.
  pose (ops := [AddCar 0%nat "north_road" 0; Tick [0%nat]; Tick [0%nat]]).
  pose (s' := default crossing_world (run_ops ops crossing_world)).
  assert (active_sets_NoDup crossing_world) as H1.
  { vm_compute. repeat constructor. }
  assert (run_ops ops crossing_world = Some s') as H2
    by (vm_compute; reflexivity).
  exists s'. split; [exact H1 |]. split; [exact H2 |].
  exact (active_sets_NoDup_invariant ops crossing_world s' H1 H2).
Defined.

(** [add_then_remove_restores] for the car created at (8, 10). *)
Lemma add_then_remove_restores_witness :
  roads_constructed crossing_world = true
  ∧ (TrafficSimulation.add_car crossing_world 0%nat "north_road" 0).1 = true
  ∧ TrafficSimulation.remove_car crossing_registered 0%nat
    = TrafficSimulation.set_car_objs
        (car_call (Car.set_lane 0) 0%nat
           (TrafficSimulation.car_objs crossing_world))
        crossing_world.
Proof.
  assert (roads_constructed crossing_world = true) as H1
    by (vm_compute; reflexivity).
  assert (0%nat ∉ TrafficSimulation.cars crossing_world) as H2
    by (vm_compute; apply not_elem_of_nil).
  assert (∀ road, road ∈ Dict.values (TrafficSimulation.roads crossing_world) →
            0%nat ∉ Road.get_all_cars
                      (TrafficSimulation.road_objs crossing_world !!! road))
    as H3.
  { apply Forall_forall. vm_compute. repeat constructor; by inversion 1. }
  assert (∀ inter,
            inter ∈ Dict.values (TrafficSimulation.intersections crossing_world) →
            0%nat ∉ Intersection.cars_in_intersection inter) as H4.
  { apply Forall_forall. vm_compute. repeat constructor; by inversion 1. }
  assert (TrafficSimulation.car_entry_directions crossing_world
            !! Car.car_id (TrafficSimulation.car_objs crossing_world !!! 0%nat)
          = None) as H5
    by (vm_compute; reflexivity).
  assert ((TrafficSimulation.add_car crossing_world 0%nat "north_road" 0).1
          = true) as H6
    by (vm_compute; reflexivity).
  split; [exact H1 |]. split; [exact H6 |].
  exact (add_then_remove_restores crossing_world 0%nat "north_road" 0
           H1 H2 H3 H4 H5 H6).
Defined.
